(** * The characters market scraper (market.py), embedded and verified

    The program reads an auction listing with a browser, looks every listed
    character up on the paginated skill leaderboards that apply to its
    profession, and exports one table row per auction.

    The embedding follows the source function by function.  Python objects
    that are mutated through several references (the [Character] objects
    shared by the auctions, the [characters] list and the name index) live in
    an explicit store; the browser, the store and the written outputs form
    the state that every effectful function threads. *)

From Stdlib Require Import ZArith Ascii String List Lia.
From stdpp Require Import base gmap sets list strings.

Local Open Scope Z_scope.

(** ** Exceptions and results *)

(** The exceptions the modelled code can raise.  [InvalidReference] is not a
    Python exception: it marks a location outside the store, which no state
    built by the program contains. *)
Inductive exn :=
  | StopIteration
  | ValueError
  | IndexError
  | TypeError
  | AttributeError
  | NoSuchElementException
  | InvalidReference.

(** A computation returns, raises, or reaches the iteration bound that the
    model puts on [while True]. *)
Inductive result (A : Type) :=
  | Ok (a : A)
  | Raise (e : exn)
  | Diverge.
Arguments Ok {A} a.
Arguments Raise {A} e.
Arguments Diverge {A}.

Definition rbind {A B} (r : result A) (k : A → result B) : result B :=
  match r with
  | Ok a => k a
  | Raise e => Raise e
  | Diverge => Diverge
  end.

Definition of_option {A} (e : exn) (o : option A) : result A :=
  match o with
  | Some a => Ok a
  | None => Raise e
  end.

(** ** The Python built-ins the program uses *)

Module Py.

(** [sub in s] on strings. *)
Fixpoint contains (sub s : string) : bool :=
  String.prefix sub s ||
  match s with
  | EmptyString => false
  | String _ r => contains sub r
  end.

(** [s.split(sep)] for a separator of one character. *)
Fixpoint split (sep : ascii) (s : string) : list string :=
  match s with
  | EmptyString => [EmptyString]
  | String c r =>
      if Ascii.eqb c sep then EmptyString :: split sep r
      else match split sep r with
           | w :: ws => String c w :: ws
           | [] => [String c EmptyString]
           end
  end.

(** [l[i]] for an index that is not negative. *)
Definition index {A} (l : list A) (i : nat) : result A :=
  of_option IndexError (l !! i).

(** [s.replace(old, new)]: occurrences are replaced from the left and do not
    overlap; an empty [old] matches between all characters. *)
Fixpoint interleave (new s : string) : string :=
  match s with
  | EmptyString => new
  | String c r => new +:+ String c (interleave new r)
  end.

Fixpoint replace_go (old new : string) (skip : nat) (s : string) : string :=
  match s with
  | EmptyString => EmptyString
  | String c r =>
      match skip with
      | S k => replace_go old new k r
      | O =>
          if String.prefix old s
          then new +:+ replace_go old new (String.length old - 1) r
          else String c (replace_go old new 0 r)
      end
  end.

Definition replace (old new s : string) : string :=
  match old with
  | EmptyString => interleave new s
  | _ => replace_go old new 0 s
  end.

(** [str(n)] for an integer: the decimal digits, most significant first,
    after a minus sign when [n] is negative.  The digits are produced from
    the least significant one; a number has no more decimal than binary
    digits, which bounds the recursion. *)
Definition digit_char (d : Z) : ascii := ascii_of_nat (48 + Z.to_nat d).

Fixpoint str_digits (fuel : nat) (n : Z) (acc : string) : string :=
  match fuel with
  | O => acc
  | S fuel' =>
      let acc' := String (digit_char (n mod 10)) acc in
      if n / 10 =? 0 then acc' else str_digits fuel' (n / 10) acc'
  end.

Definition str_nonneg (n : Z) : string :=
  str_digits (S (Z.to_nat (Z.log2 n))) n EmptyString.

Definition str (n : Z) : string :=
  if n <? 0 then String "-" (str_nonneg (- n)) else str_nonneg n.

(** [int(s)]: surrounding whitespace is dropped, a sign may come first, and
    the digits may be grouped by single underscores.  The whitespace [int]
    drops from ASCII text is the tab, the line feed, the vertical tab, the
    form feed, the carriage return and the space; the separators 28 to 31
    are not among them.  Text is modelled as ASCII, where the digits are 0
    to 9: on text with other characters [int] may accept digits and
    whitespace of other scripts which this definition refuses, so that a
    statement that relies on a refusal is made for ASCII text. *)
Definition isspace (c : ascii) : bool :=
  match c with
  | "009" | "010" | "011" | "012" | "013" | " " => true
  | _ => false
  end%char.

Definition digit_value (c : ascii) : option Z :=
  let code := Z.of_nat (nat_of_ascii c) in
  if (48 <=? code) && (code <=? 57) then Some (code - 48) else None.

Fixpoint lstrip (s : string) : string :=
  match s with
  | EmptyString => EmptyString
  | String c r => if isspace c then lstrip r else s
  end.

Fixpoint rstrip (s : string) : string :=
  match s with
  | EmptyString => EmptyString
  | String c r =>
      match rstrip r with
      | EmptyString => if isspace c then EmptyString else String c EmptyString
      | r' => String c r'
      end
  end.

Definition strip (s : string) : string := rstrip (lstrip s).

(** [after_digit] tells whether the previous character was a digit: an
    underscore is accepted only between two digits. *)
Fixpoint int_digits (acc : Z) (after_digit : bool) (s : string) : option Z :=
  match s with
  | EmptyString => if after_digit then Some acc else None
  | String c r =>
      if Ascii.eqb c "_"
      then if after_digit then int_digits acc false r else None
      else match digit_value c with
           | Some d => int_digits (10 * acc + d) true r
           | None => None
           end
  end.

Definition int (s : string) : result Z :=
  of_option ValueError
    match strip s with
    | String "-" r => Z.opp <$> int_digits 0 false r
    | String "+" r => int_digits 0 false r
    | t => int_digits 0 false t
    end.

(** Truth value of an optional string argument: [None] and the empty string
    are false. *)
Definition truthy (o : option string) : bool :=
  match o with
  | Some (String _ _) => true
  | _ => false
  end.

(** [d.get(k)] on a dict written as a literal, kept in insertion order. *)
Fixpoint get {K V} `{EqDecision K} (d : list (K * V)) (k : K) : option V :=
  match d with
  | [] => None
  | (k', v) :: d' => if decide (k' = k) then Some v else get d' k
  end.

End Py.


(** ** Enumerations *)

Module Skill.

Inductive t := MAGIC | SHIELDING | DISTANCE | CLUB | SWORD | AXE.

Definition value (s : t) : string :=
  match s with
  | MAGIC => "Magic"
  | SHIELDING => "Shielding"
  | DISTANCE => "Distance"
  | CLUB => "Club"
  | SWORD => "Sword"
  | AXE => "Axe"
  end.

Definition to_nat (s : t) : nat :=
  match s with
  | MAGIC => 0 | SHIELDING => 1 | DISTANCE => 2
  | CLUB => 3 | SWORD => 4 | AXE => 5
  end%nat.

Definition of_nat (n : nat) : option t :=
  match n with
  | 0 => Some MAGIC | 1 => Some SHIELDING | 2 => Some DISTANCE
  | 3 => Some CLUB | 4 => Some SWORD | 5 => Some AXE
  | _ => None
  end%nat.

#[global] Instance eq_dec : EqDecision t.
Proof. solve_decision. Defined.

#[global] Instance countable : Countable t.
Proof. apply (inj_countable to_nat of_nat). by intros []. Defined.

End Skill.

Module Profession.

Inductive t := KNIGHT | SORCERER | DRUID | PALADIN.

(** The member's value (the display name) and the member's name. *)
Definition value (p : t) : string :=
  match p with
  | KNIGHT => "Knight"
  | SORCERER => "Sorcerer"
  | DRUID => "Druid"
  | PALADIN => "Paladin"
  end.

Definition name (p : t) : string :=
  match p with
  | KNIGHT => "KNIGHT"
  | SORCERER => "SORCERER"
  | DRUID => "DRUID"
  | PALADIN => "PALADIN"
  end.

#[global] Instance eq_dec : EqDecision t.
Proof. solve_decision. Defined.

Definition values : list t := [KNIGHT; SORCERER; DRUID; PALADIN].

(** [next(filter(lambda p: p.value in text, Profession.values()))]: [next]
    on an exhausted iterator raises [StopIteration]. *)
Definition find (text : string) : result t :=
  of_option StopIteration
    (head (filter (λ p, Is_true (Py.contains (value p) text)) values)).

End Profession.

(** ** The store, the browser and the state *)

(** A reference to a [Character] object. *)
Abbreviation loc := nat (only parsing).

Module Character.

Record t := mk {
  name : string;
  profession : Profession.t;
  lvl : Z;
  skills : gmap Skill.t Z
}.

(** [character.skills[skill] = value] *)
Definition set_skill (skill : Skill.t) (value : Z) (c : t) : t :=
  {| name := name c; profession := profession c; lvl := lvl c;
     skills := <[skill := value]> (skills c) |}.

End Character.

(** What the program reads of a page: its tables, of a table the id, the
    classes and the rows of its body, of a row its [td] cells, of a cell its
    text and the text of the first link inside it. *)
Record Td := { td_text : string; td_a : option string }.

Definition Tr := list Td.

Record Table := {
  table_id : string;
  table_class : list string;
  table_tbody : option (list Tr)
}.

Definition Page := list Table.

Record WebDriver := {
  page : Page;
  history : list string;
  quitted : bool
}.

(** A cell of the exported table. *)
Inductive Value :=
  | VStr (s : string)
  | VInt (n : Z)
  | VNone.

Record DataFrame := {
  columns : list string;
  data : list (list Value)
}.

Inductive Output :=
  | to_excel (file : string) (df : DataFrame)
  | to_csv (file : string) (df : DataFrame)
  | print (df : DataFrame).

Record State := {
  heap : list Character.t;
  browser : WebDriver;
  outputs : list Output
}.

Definition M (A : Type) : Type := State → State * result A.

Definition ret {A} (a : A) : M A := λ st, (st, Ok a).

Definition bind {A B} (m : M A) (k : A → M B) : M B :=
  λ st,
    match m st with
    | (st', Ok a) => k a st'
    | (st', Raise e) => (st', Raise e)
    | (st', Diverge) => (st', Diverge)
    end.

Definition lift {A} (r : result A) : M A := λ st, (st, r).

Definition raise {A} (e : exn) : M A := lift (Raise e).

Notation "x <- m ; k" := (bind m (λ x, k))
  (at level 20, m at level 100, k at level 200).

(** [for x in l: body] *)
Fixpoint for_each {A} (l : list A) (body : A → M unit) : M unit :=
  match l with
  | [] => ret tt
  | x :: l' => _ <- body x ; for_each l' body
  end.

(** [[f(x) for x in l]] *)
Fixpoint comprehension {A B} (f : A → M B) (l : list A) : M (list B) :=
  match l with
  | [] => ret []
  | x :: l' => y <- f x ; ys <- comprehension f l' ; ret (y :: ys)
  end.

(** [try: body finally: handler]: the handler runs when the body returns or
    raises; a body that does not end never reaches it. *)
Definition try_finally {A} (body : M A) (handler : M unit) : M A :=
  λ st,
    match body st with
    | (st', Diverge) => (st', Diverge)
    | (st', r) =>
        match handler st' with
        | (st'', Ok _) => (st'', r)
        | (st'', Raise e) => (st'', Raise e)
        | (st'', Diverge) => (st'', Diverge)
        end
    end.

Definition deref (l : loc) : M Character.t :=
  λ st, (st, of_option InvalidReference (heap st !! l)).

(** [Character(name, profession, lvl)]: a new object with no skills. *)
Definition new_Character (name : string) (profession : Profession.t)
    (lvl : Z) : M loc :=
  λ st,
    ({| heap := heap st ++ [Character.mk name profession lvl ∅];
        browser := browser st; outputs := outputs st |},
     Ok (length (heap st))).

(** [character.skills[skill] = value] through the reference [l]. *)
Definition store_skill (l : loc) (skill : Skill.t) (value : Z) : M unit :=
  λ st,
    match heap st !! l with
    | Some c =>
        ({| heap := <[l := Character.set_skill skill value c]> (heap st);
            browser := browser st; outputs := outputs st |}, Ok tt)
    | None => (st, Raise InvalidReference)
    end.

(** [data_frame.to_excel(file)], [data_frame.to_csv(file)] and
    [print(data_frame)]: the frame handed to the sink is recorded; the write
    itself is taken to succeed. *)
Definition emit (o : Output) : M unit :=
  λ st,
    ({| heap := heap st; browser := browser st;
        outputs := outputs st ++ [o] |}, Ok tt).

(** [browser.get(url)] on the site [web], which gives the page behind every
    URL. *)
Definition browser_get (web : string → Page) (url : string) : M unit :=
  λ st,
    ({| heap := heap st;
        browser := {| page := web url;
                      history := history (browser st) ++ [url];
                      quitted := quitted (browser st) |};
        outputs := outputs st |}, Ok tt).

(** [browser.quit()] *)
Definition browser_quit : M unit :=
  λ st,
    ({| heap := heap st;
        browser := {| page := page (browser st);
                      history := history (browser st);
                      quitted := true |};
        outputs := outputs st |}, Ok tt).

Definition find_element_by_id (id : string) : M Table :=
  λ st,
    (st, of_option NoSuchElementException
           (head (filter (λ t, table_id t = id) (page (browser st))))).

Definition find_element_by_class_name (cls : string) : M Table :=
  λ st,
    (st, of_option NoSuchElementException
           (head (filter (λ t, cls ∈ table_class t) (page (browser st))))).

(** [table.find_element_by_tag_name('tbody').find_elements_by_tag_name('tr')] *)
Definition tbody_rows (table : Table) : M (list Tr) :=
  lift (of_option NoSuchElementException (table_tbody table)).

(** [cell.text] and [cell.find_element_by_tag_name('a').text] *)
Definition text_of (cols : list Td) (i : nat) : result string :=
  rbind (Py.index cols i) (λ cell, Ok (td_text cell)).

Definition a_text_of (cols : list Td) (i : nat) : result string :=
  rbind (Py.index cols i)
    (λ cell, of_option NoSuchElementException (td_a cell)).

(** ** The program *)

Definition AUCTIONS_URL_TEMPLATE : string := "https://www.ezodus.net/auction".

Module Auction.

Record t := mk {
  character : loc;
  price : Z
}.

Definition _NAME_ID : nat := 0.
Definition _LVL_PROFESSION_ID : nat := 1.
Definition _PRICE_ID : nat := 2.

Definition create (row : Tr) : M t :=
  let cols := row in
  name <- lift (text_of cols _NAME_ID) ;
  lvl_profession_raw <- lift (text_of cols _LVL_PROFESSION_ID) ;
  token <- lift (Py.index (Py.split " " lvl_profession_raw) 0) ;
  lvl <- lift (Py.int token) ;
  profession <- lift (Profession.find lvl_profession_raw) ;
  character <- new_Character name profession lvl ;
  price_text <- lift (text_of cols _PRICE_ID) ;
  token <- lift (Py.index (Py.split " " price_text) 0) ;
  price <- lift (Py.int token) ;
  ret (mk character price).

End Auction.

Definition find_auctions (web : string → Page) : M (list Auction.t) :=
  _ <- browser_get web AUCTIONS_URL_TEMPLATE ;
  table <- find_element_by_id "sellCharList" ;
  rows <- tbody_rows table ;
  comprehension Auction.create rows.

Import Skill Profession.

Definition PROFESSION_SKILL_MAP : list (Profession.t * list Skill.t) :=
  [ (DRUID, [MAGIC]);
    (SORCERER, [MAGIC]);
    (KNIGHT, [SWORD; AXE; CLUB]);
    (PALADIN, [DISTANCE; MAGIC]) ].

Definition SKILL_URL_MAP : list (Skill.t * string) :=
  [ (MAGIC, "https://www.ezodus.net/charts/highscores/magic/all/{page}");
    (SHIELDING, "https://www.ezodus.net/charts/highscores/shielding/all/{page}");
    (DISTANCE, "https://www.ezodus.net/charts/highscores/distance/all/{page}");
    (SWORD, "https://www.ezodus.net/charts/highscores/sword/knight/{page}");
    (AXE, "https://www.ezodus.net/charts/highscores/axe/knight/{page}");
    (CLUB, "https://www.ezodus.net/charts/highscores/club/knight/{page}") ].

Definition HIGHSCORES_NAME_ID : nat := 1.
Definition HIGHSCORES_VALUE_ID : nat := 2.

Definition find_highscores_rows : M (list Tr) :=
  table <- find_element_by_class_name "gunz-table" ;
  tbody_rows table.

(** The three dictionaries the first loop of [update_skills] fills. *)
Record Index := {
  character_map : gmap string loc;
  character_skill_map : gmap string (list Skill.t);
  skill_character_map : gmap Skill.t (gset string)
}.

Definition empty_index : Index :=
  {| character_map := ∅; character_skill_map := ∅; skill_character_map := ∅ |}.

(** [skill_character_map[skill].add(name)] on a [defaultdict(set)] *)
Definition add_name (name : string) (m : gmap Skill.t (gset string))
    (skill : Skill.t) : gmap Skill.t (gset string) :=
  <[skill := default ∅ (m !! skill) ∪ {[name]}]> m.

(** The body of the first loop. *)
Definition index_character (idx : Index) (character : loc) : M Index :=
  c <- deref character ;
  skills <- lift (of_option TypeError
                    (Py.get PROFESSION_SKILL_MAP (Character.profession c))) ;
  ret {| character_map := <[Character.name c := character]> (character_map idx);
         character_skill_map :=
           <[Character.name c := skills]> (character_skill_map idx);
         skill_character_map :=
           foldl (add_name (Character.name c)) (skill_character_map idx) skills |}.

Fixpoint build_index (idx : Index) (characters : list loc) : M Index :=
  match characters with
  | [] => ret idx
  | character :: rest =>
      idx' <- index_character idx character ;
      build_index idx' rest
  end.

(** [url.replace('{page}', str(page_number))] *)
Definition page_url (url : string) (page_number : Z) : string :=
  Py.replace "{page}" (Py.str page_number) url.

(** The body of [for row in rows]. *)
Definition scan_row (idx : Index) (skill : Skill.t)
    (characters_to_update : gset string) (row : Tr) : M unit :=
  let cols := row in
  name <- lift (a_text_of cols HIGHSCORES_NAME_ID) ;
  value_text <- lift (text_of cols HIGHSCORES_VALUE_ID) ;
  value <- lift (Py.int value_text) ;
  if decide (name ∈ characters_to_update) then
    character <- lift (of_option AttributeError (character_map idx !! name)) ;
    store_skill character skill value
  else ret tt.

(** The [while True] loop over the pages of one leaderboard; [fuel] bounds
    the number of pages it may visit. *)
Fixpoint scan_pages (web : string → Page) (fuel : nat) (idx : Index)
    (skill : Skill.t) (url : string) (characters_to_update : gset string)
    (page_number : Z) : M unit :=
  match fuel with
  | O => lift Diverge
  | S fuel' =>
      _ <- browser_get web (page_url url page_number) ;
      all_rows <- find_highscores_rows ;
      let rows := drop 1 all_rows in
      if (length rows =? 0)%nat then ret tt
      else
        _ <- for_each rows (scan_row idx skill characters_to_update) ;
        scan_pages web fuel' idx skill url characters_to_update
          (page_number + 1)
  end.

(** The body of [for skill, url in SKILL_URL_MAP.items()]; [not s] holds of
    [None] and of the empty set. *)
Definition scan_skill (web : string → Page) (fuel : nat) (idx : Index)
    (item : Skill.t * string) : M unit :=
  let '(skill, url) := item in
  match skill_character_map idx !! skill with
  | None => ret tt
  | Some characters_to_update =>
      if decide (characters_to_update = ∅) then ret tt
      else scan_pages web fuel idx skill url characters_to_update 0
  end.

Definition update_skills (web : string → Page) (fuel : nat)
    (characters : list loc) : M unit :=
  idx <- build_index empty_index characters ;
  for_each SKILL_URL_MAP (scan_skill web fuel idx).

Definition headers : list string :=
  ["name"; "price"; "profession"; "lvl"; "sword"; "axe"; "club"; "dist";
   "magic"; "shielding"].

(** [skills.get(skill)] as a cell *)
Definition skill_cell (skills : gmap Skill.t Z) (skill : Skill.t) : Value :=
  match skills !! skill with
  | Some v => VInt v
  | None => VNone
  end.

Definition map_auction (auction : Auction.t) : M (list Value) :=
  character <- deref (Auction.character auction) ;
  let skills := Character.skills character in
  ret [ VStr (Character.name character);
        VInt (Auction.price auction);
        VStr (Profession.name (Character.profession character));
        VInt (Character.lvl character);
        skill_cell skills SWORD;
        skill_cell skills AXE;
        skill_cell skills CLUB;
        skill_cell skills DISTANCE;
        skill_cell skills MAGIC;
        skill_cell skills SHIELDING ].

(** [pd.DataFrame(rows, columns=headers)]: a row whose length is not the
    number of columns is refused. *)
Definition pd_DataFrame (rows : list (list Value)) (cols : list string)
    : result DataFrame :=
  if forallb (λ r, (length r =? length cols)%nat) rows
  then Ok {| columns := cols; data := rows |}
  else Raise ValueError.

Definition when (b : bool) (m : M unit) : M unit := if b then m else ret tt.

Definition save_auctions_to (auctions : list Auction.t)
    (excel_file csv_file : option string) : M unit :=
  rows <- comprehension map_auction auctions ;
  data_frame <- lift (pd_DataFrame rows headers) ;
  _ <- when (Py.truthy excel_file)
         (emit (to_excel (default "" excel_file) data_frame)) ;
  _ <- when (Py.truthy csv_file)
         (emit (to_csv (default "" csv_file) data_frame)) ;
  when (negb (Py.truthy csv_file) && negb (Py.truthy excel_file))
    (emit (print data_frame)).

(** [webdriver.Firefox(...)]: a session that has loaded nothing. *)
Definition Firefox : WebDriver :=
  {| page := []; history := []; quitted := false |}.

Definition initial : State :=
  {| heap := []; browser := Firefox; outputs := [] |}.

Definition main (web : string → Page) (fuel : nat) : M unit :=
  try_finally
    (auctions <- find_auctions web ;
     let characters := map (λ a, Auction.character a) auctions in
     _ <- update_skills web fuel characters ;
     save_auctions_to auctions (Some "auctions.xlsx") (Some "auctions.csv"))
    browser_quit.

(** * Facts about the built-ins *)

Section PyFacts.

Lemma sapp_nil_l (s : string) : "" +:+ s = s.
Proof. reflexivity. Qed.

Lemma sapp_cons (c : ascii) (s t : string) :
  String c s +:+ t = String c (s +:+ t).
Proof. reflexivity. Qed.

Lemma sapp_nil_r (s : string) : s +:+ "" = s.
Proof. induction s as [|c s IH]; [done|]. by rewrite sapp_cons, IH. Qed.

Lemma sapp_assoc (s t u : string) : (s +:+ t) +:+ u = s +:+ t +:+ u.
Proof. induction s as [|c s IH]; [done|]. by rewrite !sapp_cons, IH. Qed.

(** [sub] occurs in [s]. *)
Definition substring (sub s : string) : Prop :=
  ∃ pre post, s = pre +:+ sub +:+ post.

Lemma prefix_spec (sub s : string) :
  String.prefix sub s = true ↔ ∃ post, s = sub +:+ post.
Proof.
  revert s. induction sub as [|c sub IH]; intros s.
  - split; [intros _; by exists s | by destruct s].
  - destruct s as [|d s]; simpl.
    + split; [done | intros [post H]; by rewrite sapp_cons in H].
    + destruct (ascii_dec c d) as [->|Hne].
      * rewrite IH. split; intros [post H]; exists post.
        -- by rewrite sapp_cons, H.
        -- rewrite sapp_cons in H. by injection H.
      * split; [done|]. intros [post H]. rewrite sapp_cons in H.
        injection H as H1 H2. by destruct Hne.
Qed.

Lemma contains_spec (sub s : string) :
  Py.contains sub s = true ↔ substring sub s.
Proof.
  induction s as [|d s IH]; cbn [Py.contains].
  - rewrite orb_false_r, prefix_spec. split.
    + intros [post H]. by exists "", post.
    + intros ([|c pre] & post & H); [by exists post|].
      by rewrite sapp_cons in H.
  - rewrite orb_true_iff, prefix_spec, IH. split.
    + intros [[post H]|(pre & post & H)].
      * by exists "", post.
      * exists (String d pre), post. by rewrite sapp_cons, H.
    + intros ([|c pre] & post & H).
      * left. by exists post.
      * right. rewrite sapp_cons in H. injection H as _ H.
        by exists pre, post.
Qed.

(** All characters of a string satisfy a test. *)
Fixpoint all_chars (P : ascii → bool) (s : string) : bool :=
  match s with
  | EmptyString => true
  | String c r => P c && all_chars P r
  end.

Lemma all_chars_app P (s t : string) :
  all_chars P (s +:+ t) = all_chars P s && all_chars P t.
Proof.
  induction s as [|c s IH]; [done|].
  by rewrite sapp_cons; simpl; rewrite IH, andb_assoc.
Qed.

Lemma all_chars_impl (P Q : ascii → bool) (s : string) :
  (∀ c, P c = true → Q c = true) →
  all_chars P s = true → all_chars Q s = true.
Proof.
  intros HPQ. induction s as [|c s IH]; simpl; [done|].
  rewrite !andb_true_iff. intros [? ?]. auto.
Qed.

(** A word that starts with a character absent from [pre] occurs in
    [pre +:+ s] only where it occurs in [s]. *)
Lemma contains_skip (c : ascii) (sub pre s : string) :
  all_chars (λ d, negb (Ascii.eqb c d)) pre = true →
  Py.contains (String c sub) (pre +:+ s) = Py.contains (String c sub) s.
Proof.
  induction pre as [|d pre IH]; [done|].
  rewrite sapp_cons. cbn [all_chars Py.contains String.prefix].
  rewrite andb_true_iff, negb_true_iff. intros [Hcd Hpre].
  destruct (ascii_dec c d) as [->|Hne].
  - by rewrite Ascii.eqb_refl in Hcd.
  - simpl. by apply IH.
Qed.

Lemma split_no_sep (sep : ascii) (s : string) :
  all_chars (λ d, negb (Ascii.eqb d sep)) s = true →
  Py.split sep s = [s].
Proof.
  induction s as [|c s IH]; simpl; [done|].
  rewrite andb_true_iff, negb_true_iff. intros [-> Hs]. by rewrite IH.
Qed.

Lemma split_head (sep : ascii) (s t : string) :
  all_chars (λ d, negb (Ascii.eqb d sep)) s = true →
  Py.index (Py.split sep (s +:+ String sep t)) 0 = Ok s.
Proof.
  induction s as [|c s IH]; simpl.
  - intros _. change ("" +:+ String sep t) with (String sep t).
    simpl. by rewrite Ascii.eqb_refl.
  - rewrite andb_true_iff, negb_true_iff. intros [Hc Hs].
    rewrite Hc. specialize (IH Hs). unfold Py.index in IH.
    destruct (Py.split sep (s +:+ String sep t)) as [|w ws]; [done|].
    simpl in IH. by injection IH as ->.
Qed.

Definition isdigit (c : ascii) : bool :=
  match Py.digit_value c with
  | Some _ => true
  | None => false
  end.

Lemma digit_value_digit_char (d : Z) :
  0 ≤ d < 10 → Py.digit_value (Py.digit_char d) = Some d.
Proof.
  intros Hd.
  assert (d = 0 ∨ d = 1 ∨ d = 2 ∨ d = 3 ∨ d = 4 ∨ d = 5 ∨ d = 6 ∨ d = 7
          ∨ d = 8 ∨ d = 9) as Hcases by lia.
  repeat (destruct Hcases as [->|Hcases]; [reflexivity|]).
  by subst.
Qed.

Lemma digit_char_not_underscore (d : Z) :
  0 ≤ d < 10 → Ascii.eqb (Py.digit_char d) "_" = false.
Proof.
  intros Hd.
  assert (d = 0 ∨ d = 1 ∨ d = 2 ∨ d = 3 ∨ d = 4 ∨ d = 5 ∨ d = 6 ∨ d = 7
          ∨ d = 8 ∨ d = 9) as Hcases by lia.
  repeat (destruct Hcases as [->|Hcases]; [reflexivity|]).
  by subst.
Qed.

Lemma isdigit_digit_char (d : Z) : 0 ≤ d < 10 → isdigit (Py.digit_char d) = true.
Proof. intros Hd. unfold isdigit. by rewrite digit_value_digit_char. Qed.

Lemma str_digits_all_digits (fuel : nat) (n : Z) (acc : string) :
  all_chars isdigit acc = true →
  all_chars isdigit (Py.str_digits fuel n acc) = true.
Proof.
  revert n acc. induction fuel as [|fuel IH]; intros n acc Hacc; [done|].
  assert (all_chars isdigit (String (Py.digit_char (n mod 10)) acc) = true)
    as Hacc'.
  { cbn [all_chars]. rewrite Hacc, isdigit_digit_char; [done|].
    apply Z.mod_pos_bound. lia. }
  cbn [Py.str_digits]. destruct (n / 10 =? 0); [done|]. by apply IH.
Qed.

Lemma str_digits_S (fuel : nat) (n : Z) (acc : string) :
  Py.str_digits (S fuel) n acc =
  if n / 10 =? 0 then String (Py.digit_char (n mod 10)) acc
  else Py.str_digits fuel (n / 10) (String (Py.digit_char (n mod 10)) acc).
Proof. reflexivity. Qed.

(** Reading back the digits written for [n] in front of [acc] continues on
    [acc] from the value [n]. *)
Lemma int_digits_str_digits (fuel : nat) (n : Z) (acc : string) (b : bool) :
  0 ≤ n < 2 ^ Z.of_nat (S fuel) →
  Py.int_digits 0 b (Py.str_digits (S fuel) n acc) = Py.int_digits n true acc.
Proof.
  revert n acc b. induction fuel as [|fuel IH]; intros n acc b Hn.
  - change (2 ^ Z.of_nat 1) with 2 in Hn.
    assert (n / 10 = 0) as Hq by (apply Z.div_small; lia).
    assert (n mod 10 = n) as Hm by (apply Z.mod_small; lia).
    cbn [Py.str_digits]. rewrite Hq, Hm. cbn [Z.eqb Py.int_digits].
    rewrite digit_char_not_underscore, digit_value_digit_char by lia.
    f_equal.
  - rewrite str_digits_S.
    pose proof (Z.mod_pos_bound n 10 ltac:(lia)) as Hm.
    pose proof (Z.div_mod n 10 ltac:(lia)) as Hdm.
    destruct (n / 10 =? 0) eqn:Hq.
    + apply Z.eqb_eq in Hq. cbn [Py.int_digits].
      rewrite digit_char_not_underscore, digit_value_digit_char by done.
      f_equal. lia.
    + apply Z.eqb_neq in Hq.
      rewrite (IH (n / 10)).
      * cbn [Py.int_digits].
        rewrite digit_char_not_underscore, digit_value_digit_char by done.
        f_equal. lia.
      * rewrite Nat2Z.inj_succ, Z.pow_succ_r in Hn by lia.
        split; [apply Z.div_pos; lia|].
        apply Z.div_lt_upper_bound; lia.
Qed.

Lemma str_nonneg_fuel (n : Z) :
  0 ≤ n → 0 ≤ n < 2 ^ Z.of_nat (S (Z.to_nat (Z.log2 n))).
Proof.
  intros Hn. split; [done|].
  rewrite Nat2Z.inj_succ, Z2Nat.id by apply Z.log2_nonneg.
  destruct (decide (n = 0)) as [->|Hne]; [done|].
  apply Z.log2_spec. lia.
Qed.

Lemma int_digits_str_nonneg (n : Z) (b : bool) :
  0 ≤ n → Py.int_digits 0 b (Py.str_nonneg n) = Some n.
Proof.
  intros Hn. unfold Py.str_nonneg.
  by rewrite int_digits_str_digits by by apply str_nonneg_fuel.
Qed.

Lemma str_nonneg_all_digits (n : Z) : all_chars isdigit (Py.str_nonneg n) = true.
Proof. by apply str_digits_all_digits. Qed.

Lemma isdigit_not_space (c : ascii) : isdigit c = true → Py.isspace c = false.
Proof. by destruct c as [[] [] [] [] [] [] [] []]. Qed.

Lemma lstrip_no_space (s : string) :
  all_chars (λ c, negb (Py.isspace c)) s = true → Py.lstrip s = s.
Proof.
  destruct s as [|c s]; [done|]. cbn [all_chars Py.lstrip].
  rewrite andb_true_iff, negb_true_iff. by intros [-> _].
Qed.

Lemma rstrip_no_space (s : string) :
  all_chars (λ c, negb (Py.isspace c)) s = true → Py.rstrip s = s.
Proof.
  induction s as [|c s IH]; [done|]. cbn [all_chars Py.rstrip].
  rewrite andb_true_iff, negb_true_iff. intros [Hc Hs].
  rewrite (IH Hs), Hc. by destruct s.
Qed.

Lemma strip_no_space (s : string) :
  all_chars (λ c, negb (Py.isspace c)) s = true → Py.strip s = s.
Proof.
  intros Hs. unfold Py.strip. by rewrite lstrip_no_space, rstrip_no_space.
Qed.

Lemma all_digits_no_space (s : string) :
  all_chars isdigit s = true →
  all_chars (λ c, negb (Py.isspace c)) s = true.
Proof.
  apply all_chars_impl. intros c Hc. by rewrite (isdigit_not_space c Hc).
Qed.

(** [int] reads a string of digits as [int_digits] does. *)
Lemma int_all_digits (s : string) (n : Z) :
  all_chars isdigit s = true →
  Py.int_digits 0 false s = Some n →
  Py.int s = Ok n.
Proof.
  intros Hall Hn. unfold Py.int.
  rewrite strip_no_space by by apply all_digits_no_space.
  destruct s as [|c r]; [done|].
  cbn [all_chars] in Hall. apply andb_true_iff in Hall as [Hc _].
  destruct c as [[] [] [] [] [] [] [] []]; try discriminate Hc;
    by rewrite Hn.
Qed.

(** Reading a printed integer gives the integer back. *)
Lemma int_str_nonneg (n : Z) : 0 ≤ n → Py.int (Py.str_nonneg n) = Ok n.
Proof.
  intros Hn. apply int_all_digits.
  - apply str_nonneg_all_digits.
  - by apply int_digits_str_nonneg.
Qed.

Lemma str_of_nonneg (n : Z) : 0 ≤ n → Py.str n = Py.str_nonneg n.
Proof.
  intros Hn. unfold Py.str. by destruct (Z.ltb_spec n 0); [lia|].
Qed.

Lemma int_str (n : Z) : Py.int (Py.str n) = Ok n.
Proof.
  destruct (Z.ltb_spec n 0) as [Hneg|Hpos].
  - unfold Py.str. apply Z.ltb_lt in Hneg as Hlt. rewrite Hlt.
    unfold Py.int.
    rewrite strip_no_space.
    + rewrite int_digits_str_nonneg by lia. cbn. f_equal. lia.
    + cbn [all_chars]. apply andb_true_iff. split; [done|].
      apply all_digits_no_space, str_nonneg_all_digits.
  - rewrite str_of_nonneg by done. by apply int_str_nonneg.
Qed.

Lemma str_no_space (n : Z) :
  all_chars (λ d, negb (Ascii.eqb d " ")) (Py.str n) = true.
Proof.
  assert (∀ m, all_chars (λ d, negb (Ascii.eqb d " ")) (Py.str_nonneg m)
               = true) as Hnn.
  { intros m. eapply all_chars_impl; [|apply str_nonneg_all_digits].
    by intros [[] [] [] [] [] [] [] []]. }
  unfold Py.str. destruct (n <? 0); [|done].
  cbn [all_chars]. by rewrite Hnn.
Qed.

(** The characters of a printed integer are digits or the minus sign. *)
Lemma str_chars (n : Z) :
  all_chars (λ d, isdigit d || Ascii.eqb d "-") (Py.str n) = true.
Proof.
  assert (∀ m, all_chars (λ d, isdigit d || Ascii.eqb d "-")
                 (Py.str_nonneg m) = true) as Hnn.
  { intros m. eapply all_chars_impl; [|apply str_nonneg_all_digits].
    intros c ->. done. }
  unfold Py.str. destruct (n <? 0); [|done].
  cbn [all_chars]. by rewrite Hnn.
Qed.

End PyFacts.

(** * Running computations *)

Lemma bind_Ok {A B} (m : M A) (k : A → M B) (st st' : State) (a : A) :
  m st = (st', Ok a) → bind m k st = k a st'.
Proof. intros H. unfold bind. by rewrite H. Qed.

Lemma bind_Raise {A B} (m : M A) (k : A → M B) (st st' : State) (e : exn) :
  m st = (st', Raise e) → bind m k st = (st', Raise e).
Proof. intros H. unfold bind. by rewrite H. Qed.

Lemma bind_Diverge {A B} (m : M A) (k : A → M B) (st st' : State) :
  m st = (st', Diverge) → bind m k st = (st', Diverge).
Proof. intros H. unfold bind. by rewrite H. Qed.

Lemma bind_lift {A B} (r : result A) (k : A → M B) (st : State) :
  bind (lift r) k st =
  match r with
  | Ok a => k a st
  | Raise e => (st, Raise e)
  | Diverge => (st, Diverge)
  end.
Proof. by destruct r. Qed.

Lemma bind_lift_Ok {A B} (r : result A) (k : A → M B) (st : State) (a : A) :
  r = Ok a → bind (lift r) k st = k a st.
Proof. by intros ->. Qed.

Lemma bind_lift_Raise {A B} (r : result A) (k : A → M B) (st : State)
    (e : exn) :
  r = Raise e → bind (lift r) k st = (st, Raise e).
Proof. by intros ->. Qed.

(** Run the pure step at the head of a computation with the given fact. *)
Tactic Notation "lift_step" tactic3(t) :=
  erewrite bind_lift_Ok by t; cbv beta.

(** * Parsing a listing row *)

(** What the specification calls a parse error: text that cannot be converted
    to the expected number or enumeration member, or a row without the
    expected cells. *)
Definition ParseError (e : exn) : Prop :=
  e = StopIteration ∨ e = ValueError ∨ e = IndexError.

(** Position of a member in [Profession.values] and the enumeration order. *)
Fixpoint position (p : Profession.t) (l : list Profession.t) : option nat :=
  match l with
  | [] => None
  | q :: l' => if decide (q = p) then Some 0%nat else S <$> position p l'
  end.

Definition before (q p : Profession.t) : Prop :=
  match position q Profession.values, position p Profession.values with
  | Some i, Some j => (i < j)%nat
  | _, _ => False
  end.

(** The text names the profession [p] and no other one. *)
Definition names_exactly (p : Profession.t) (text : string) : Prop :=
  substring (Profession.value p) text ∧
  ∀ q, q ≠ p → ¬ substring (Profession.value q) text.

Definition cell (s : string) : Td := {| td_text := s; td_a := None |}.

(** The listing row built from a tuple: the name, the level followed by a
    space and [text], the price followed by [trailing]. *)
Definition listing_row (name : string) (level : Z) (text : string)
    (price : Z) (trailing : string) : Tr :=
  [ cell name;
    cell (Py.str level +:+ " " +:+ text);
    cell (Py.str price +:+ trailing) ].

(** Parsing [row] in the state [st] returns an auction with the given price
    whose character is new, has the given name, level and profession, and no
    skill yet. *)
Definition parses_to (row : Tr) (st : State) (name : string) (level : Z)
    (p : Profession.t) (price : Z) : Prop :=
  ∃ st' a,
    Auction.create row st = (st', Ok a) ∧
    Auction.price a = price ∧
    heap st' !! Auction.character a = Some (Character.mk name p level ∅).

Lemma find_eq (text : string) :
  Profession.find text =
  if Py.contains "Knight" text then Ok KNIGHT
  else if Py.contains "Sorcerer" text then Ok SORCERER
  else if Py.contains "Druid" text then Ok DRUID
  else if Py.contains "Paladin" text then Ok PALADIN
  else Raise StopIteration.
Proof.
  unfold Profession.find, Profession.values.
  rewrite !filter_cons, filter_nil. cbn [Profession.value].
  destruct (Py.contains "Knight" text); [done|].
  destruct (Py.contains "Sorcerer" text); [done|].
  destruct (Py.contains "Druid" text); [done|].
  by destruct (Py.contains "Paladin" text).
Qed.

Lemma contains_value (text : string) (p : Profession.t) :
  substring (Profession.value p) text ↔
  Py.contains (Profession.value p) text = true.
Proof. symmetry. apply contains_spec. Qed.

Lemma find_first (text : string) (p : Profession.t) :
  Profession.find text = Ok p ↔
  substring (Profession.value p) text ∧
  ∀ q, before q p → ¬ substring (Profession.value q) text.
Proof.
  pose proof (contains_value text KNIGHT) as HK.
  pose proof (contains_value text SORCERER) as HS.
  pose proof (contains_value text DRUID) as HD.
  pose proof (contains_value text PALADIN) as HP.
  cbn [Profession.value] in HK, HS, HD, HP.
  rewrite find_eq. split.
  - intros Hfind. split.
    + destruct p; cbn [Profession.value];
        [apply HK | apply HS | apply HD | apply HP];
        repeat (destruct (Py.contains _ text); try done).
    + intros q Hq Hsub.
      destruct p, q; vm_compute in Hq; try lia;
        cbn [Profession.value] in Hsub;
        first [apply HK in Hsub | apply HS in Hsub | apply HD in Hsub];
        rewrite Hsub in Hfind; try done;
        repeat (destruct (Py.contains _ text); try done).
  - intros [Hsub Hfirst].
    assert (∀ q, before q p → Py.contains (Profession.value q) text = false)
      as Hno.
    { intros q Hq. specialize (Hfirst q Hq). rewrite contains_value in Hfirst.
      by destruct (Py.contains (Profession.value q) text). }
    apply contains_value in Hsub.
    pose proof (Hno KNIGHT) as HnK. pose proof (Hno SORCERER) as HnS.
    pose proof (Hno DRUID) as HnD.
    cbn [Profession.value] in HnK, HnS, HnD.
    destruct p; cbn [Profession.value] in Hsub.
    + by rewrite Hsub.
    + rewrite HnK, Hsub; [done|]. vm_compute. lia.
    + rewrite HnK, HnS, Hsub; [done|..]; vm_compute; lia.
    + rewrite HnK, HnS, HnD, Hsub; [done|..]; vm_compute; lia.
Qed.

Lemma find_no_match (text : string) :
  (∀ p, ¬ substring (Profession.value p) text) →
  Profession.find text = Raise StopIteration.
Proof.
  intros Hnone. rewrite find_eq.
  assert (∀ p, Py.contains (Profession.value p) text = false) as Hno.
  { intros p. specialize (Hnone p). rewrite contains_value in Hnone.
    by destruct (Py.contains (Profession.value p) text). }
  pose proof (Hno KNIGHT) as HnK. pose proof (Hno SORCERER) as HnS.
  pose proof (Hno DRUID) as HnD. pose proof (Hno PALADIN) as HnP.
  cbn [Profession.value] in HnK, HnS, HnD, HnP.
  by rewrite HnK, HnS, HnD, HnP.
Qed.

(** C3. Profession matching returns the first member, in the order Knight,
    Sorcerer, Druid, Paladin, whose display name occurs in the text; when no
    display name occurs it raises ([StopIteration], a parse error in the
    specification's taxonomy); and matching the display name of a returned
    member returns that member again. *)
Theorem profession_find_first_match (text : string) :
  (∀ p, Profession.find text = Ok p ↔
        substring (Profession.value p) text ∧
        ∀ q, before q p → ¬ substring (Profession.value q) text) ∧
  ((∀ p, ¬ substring (Profession.value p) text) →
   Profession.find text = Raise StopIteration ∧ ParseError StopIteration) ∧
  (∀ p, Profession.find text = Ok p →
        Profession.find (Profession.value p) = Ok p).
Proof.
  split; [|split].
  - intros p. apply find_first.
  - intros Hnone. split; [by apply find_no_match | by left].
  - intros [] _; reflexivity.
Qed.

(** A printed integer followed by a space holds no letter: no character of
    it starts a display name. *)
Lemma level_prefix_no_letter (c : ascii) (n : Z) :
  isdigit c = false → Ascii.eqb c "-" = false → Ascii.eqb c " " = false →
  all_chars (λ d, negb (Ascii.eqb c d)) (Py.str n +:+ " ") = true.
Proof.
  intros Hd Hm Hs. rewrite all_chars_app. apply andb_true_iff. split.
  - eapply all_chars_impl; [|apply (str_chars n)].
    intros d Hdig. cbv beta in Hdig.
    destruct (Ascii.eqb_spec c d) as [->|]; [|done].
    by rewrite Hd, Hm in Hdig.
  - cbn [all_chars]. by rewrite Hs.
Qed.

Lemma find_after_level (n : Z) (text : string) :
  Profession.find (Py.str n +:+ " " +:+ text) = Profession.find text.
Proof.
  rewrite !find_eq, <- sapp_assoc.
  by rewrite !contains_skip by by apply level_prefix_no_letter.
Qed.

Lemma find_names_exactly (p : Profession.t) (text : string) :
  names_exactly p text → Profession.find text = Ok p.
Proof.
  intros [Hsub Hothers]. apply find_first. split; [done|].
  intros q Hq. apply Hothers. intros ->.
  destruct p; vm_compute in Hq; lia.
Qed.

Lemma split_head_trailing (s trailing : string) :
  all_chars (λ d, negb (Ascii.eqb d " ")) s = true →
  trailing = "" ∨ (∃ rest, trailing = " " +:+ rest) →
  Py.index (Py.split " " (s +:+ trailing)) 0 = Ok s.
Proof.
  intros Hs [->|[rest ->]].
  - by rewrite sapp_nil_r, split_no_sep.
  - by apply split_head.
Qed.

(** C2, as amended.  For a name, a positive level, a profession and a
    positive price, the row whose first cell is the name, whose second cell
    is the level, a space and a text naming that profession and no other,
    and whose third cell is the price followed by nothing or by a space and
    any text, parses to an auction with that price whose character has that
    name, level and profession. *)
Theorem listing_row_round_trip (st : State) (name : string) (level : Z)
    (p : Profession.t) (price : Z) (text trailing : string) :
  name ≠ "" → 0 < level → 0 < price →
  names_exactly p text →
  trailing = "" ∨ (∃ rest, trailing = " " +:+ rest) →
  parses_to (listing_row name level text price trailing) st
    name level p price.
Proof.
  intros _ _ _ Hp Htrail.
  pose proof (split_head (" ") (Py.str level) text (str_no_space level))
    as Hlvl.
  pose proof (split_head_trailing (Py.str price) trailing
                (str_no_space price) Htrail) as Hprice.
  pose proof (find_after_level level text) as Hfind.
  rewrite (find_names_exactly p text Hp) in Hfind.
  eexists _, _. split; [|split].
  - unfold Auction.create.
    lift_step reflexivity. lift_step reflexivity.
    lift_step (exact Hlvl). lift_step (apply int_str).
    lift_step (exact Hfind).
    erewrite bind_Ok by reflexivity.
    lift_step reflexivity. lift_step (exact Hprice).
    lift_step (apply int_str). reflexivity.
  - reflexivity.
  - cbn [heap Auction.character]. by rewrite lookup_app_r, Nat.sub_diag.
Qed.

Lemma elite_knight_names_knight : names_exactly KNIGHT "Elite Knight".
Proof.
  split.
  - by apply contains_spec.
  - intros q Hq Hsub. apply contains_spec in Hsub. by destruct q.
Qed.

Lemma listing_row_round_trip_witness :
  parses_to (listing_row "Aria" 120 "Elite Knight" 5000 " gold") initial
    "Aria" 120 KNIGHT 5000.
Proof.
  apply listing_row_round_trip;
    [done | lia | lia | apply elite_knight_names_knight
    | right; by exists "gold"].
Defined.

(** C2 as stated fails: with the trailing text "gold" right after the price
    the price cell is "5000gold", whose first token is not a number, and
    with the trailing text "0 gold" the parsed price is 50000. *)
Lemma listing_row_trailing_counterexample :
  "Aria" ≠ "" ∧ 0 < 120 ∧ 0 < 5000 ∧
  names_exactly KNIGHT "Elite Knight" ∧
  (Auction.create (listing_row "Aria" 120 "Elite Knight" 5000 "gold")
     initial).2 = Raise ValueError ∧
  ¬ parses_to (listing_row "Aria" 120 "Elite Knight" 5000 "gold") initial
      "Aria" 120 KNIGHT 5000 ∧
  ¬ parses_to (listing_row "Aria" 120 "Elite Knight" 5000 "0 gold") initial
      "Aria" 120 KNIGHT 5000.
Proof.
  split; [done|]. split; [lia|]. split; [lia|].
  split; [apply elite_knight_names_knight|].
  split; [reflexivity|]. split.
  - intros (st' & a & Hcreate & _).
    apply (f_equal snd) in Hcreate. vm_compute in Hcreate. discriminate.
  - intros (st' & a & Hcreate & Hprice & _).
    apply (f_equal snd) in Hcreate. vm_compute in Hcreate.
    injection Hcreate as <-. vm_compute in Hprice. discriminate.
Qed.

(** * The skill enricher *)

(** ** What the enricher reads *)

(** The rows of the leaderboard table of a page, and its data rows: the
    rows after the first one. *)
Definition highscores_rows (p : Page) : result (list Tr) :=
  rbind (of_option NoSuchElementException
           (head (filter (λ t, "gunz-table" ∈ table_class t) p)))
    (λ table, of_option NoSuchElementException (table_tbody table)).

Definition data_rows (p : Page) : result (list Tr) :=
  rbind (highscores_rows p) (λ all_rows, Ok (drop 1 all_rows)).

(** The name and the value of a leaderboard row. *)
Definition parse_row (row : Tr) : result (string * Z) :=
  rbind (a_text_of row HIGHSCORES_NAME_ID) (λ name,
  rbind (text_of row HIGHSCORES_VALUE_ID) (λ value_text,
  rbind (Py.int value_text) (λ value, Ok (name, value)))).

(** The pending set of a skill: the names still to be looked up. *)
Definition pending (idx : Index) (skill : Skill.t) : gset string :=
  default ∅ (skill_character_map idx !! skill).

(** The skills that apply to a profession. *)
Definition applicable (p : Profession.t) : list Skill.t :=
  default [] (Py.get PROFESSION_SKILL_MAP p).

(** The character behind [l] has the name [nm]. *)
Definition named (h : list Character.t) (nm : string) (l : loc) : Prop :=
  Character.name <$> h !! l = Some nm.

#[global] Instance named_dec h nm l : Decision (named h nm l).
Proof. unfold named. apply _. Defined.

(** The last reference of [characters] to a character named [nm]. *)
Definition last_named (h : list Character.t) (characters : list loc)
    (nm : string) : option loc :=
  last (filter (named h nm) characters).

(** The index [update_skills] builds for [characters] in the state [st]. *)
Definition index_of (characters : list loc) (st : State) : result Index :=
  (build_index empty_index characters st).2.

(** The pages [start], ..., [start + n - 1] of a leaderboard have data rows,
    all of which have a name and a value, and the page [start + n] has
    none. *)
Definition ends_after (web : string → Page) (url : string) (n : nat) : Prop :=
  (∀ k, (k < n)%nat →
     ∃ rows, data_rows (web (page_url url (Z.of_nat k))) = Ok rows ∧
             rows ≠ [] ∧
             Forall (λ row, ∃ nm v, parse_row row = Ok (nm, v)) rows) ∧
  data_rows (web (page_url url (Z.of_nat n))) = Ok [].

(** The URLs of the pages 0 to [n] of a leaderboard. *)
Definition pages (url : string) (n : nat) : list string :=
  (λ k, page_url url (Z.of_nat k)) <$> seq 0 (S n).

(** Some page of the leaderboard at [url] has a data row with the name [nm]
    and the value [v]. *)
Definition leaderboard_entry (web : string → Page) (url nm : string) (v : Z)
    : Prop :=
  ∃ n rows row,
    data_rows (web (page_url url n)) = Ok rows ∧ row ∈ rows ∧
    parse_row row = Ok (nm, v).

(** The writes the enricher may perform: the value of a leaderboard row of a
    skill, under that skill, into the character the name index gives for the
    name of the row, when that name is pending for the skill. *)
Definition written (web : string → Page) (idx : Index) (l : loc)
    (skill : Skill.t) (v : Z) : Prop :=
  ∃ url nm,
    Py.get SKILL_URL_MAP skill = Some url ∧
    nm ∈ pending idx skill ∧
    character_map idx !! nm = Some l ∧
    leaderboard_entry web url nm v.

(** The fetches the enricher may perform: a page of the leaderboard of a
    skill whose pending set is not empty. *)
Definition fetched (idx : Index) (u : string) : Prop :=
  ∃ skill url n,
    Py.get SKILL_URL_MAP skill = Some url ∧
    pending idx skill ≠ ∅ ∧
    u = page_url url n.

(** [st'] comes from [st] by writes allowed by [W] and fetches allowed by
    [F]: the outputs and the store's size are the same, every character
    keeps its name, profession and level, a skill entry is the old one or a
    written value, and the history grew by allowed fetches. *)
Record changes (W : loc → Skill.t → Z → Prop) (F : string → Prop)
    (st st' : State) : Prop := {
  ch_outputs : outputs st' = outputs st;
  ch_quitted : quitted (browser st') = quitted (browser st);
  ch_length : length (heap st') = length (heap st);
  ch_heap : ∀ l c, heap st !! l = Some c →
    ∃ c', heap st' !! l = Some c' ∧
          Character.name c' = Character.name c ∧
          Character.profession c' = Character.profession c ∧
          Character.lvl c' = Character.lvl c ∧
          ∀ s, Character.skills c' !! s = Character.skills c !! s ∨
               ∃ v, Character.skills c' !! s = Some v ∧ W l s v;
  ch_history : ∃ new, history (browser st') = history (browser st) ++ new ∧
                      Forall F new
}.

Section Changes.

Context (W : loc → Skill.t → Z → Prop) (F : string → Prop).

Lemma changes_refl (st : State) : changes W F st st.
Proof.
  split; try done.
  - intros l c Hl. exists c. repeat split; auto.
  - exists []. by rewrite app_nil_r.
Qed.

Lemma changes_trans (st1 st2 st3 : State) :
  changes W F st1 st2 → changes W F st2 st3 → changes W F st1 st3.
Proof.
  intros [Ho1 Hq1 Hl1 Hh1 (n1 & Hn1 & HF1)] [Ho2 Hq2 Hl2 Hh2 (n2 & Hn2 & HF2)].
  split; try congruence.
  - intros l c Hc.
    destruct (Hh1 l c Hc) as (c' & Hc' & Hn & Hp & Hv & Hs).
    destruct (Hh2 l c' Hc') as (c'' & Hc'' & Hn' & Hp' & Hv' & Hs').
    exists c''. repeat split; try congruence.
    intros s. destruct (Hs' s) as [Heq|(v & Hv2 & Hw)].
    + rewrite Heq. apply Hs.
    + right. eauto.
  - exists (n1 ++ n2). rewrite Hn2, Hn1, app_assoc. split; [done|].
    by apply Forall_app.
Qed.

Lemma store_skill_changes (l : loc) (skill : Skill.t) (v : Z) (st : State) :
  W l skill v → changes W F st (store_skill l skill v st).1.
Proof.
  intros Hw. unfold store_skill.
  destruct (heap st !! l) as [c|] eqn:Hl; [|apply changes_refl].
  split; cbn [fst heap browser outputs]; try done.
  - by rewrite length_insert.
  - intros l' c' Hl'. destruct (decide (l = l')) as [<-|Hne].
    + rewrite Hl in Hl'. injection Hl' as <-.
      exists (Character.set_skill skill v c).
      rewrite list_lookup_insert_eq by by eapply lookup_lt_Some.
      repeat split; try done.
      intros s. cbn [Character.set_skill Character.skills].
      destruct (decide (skill = s)) as [<-|Hs].
      * right. exists v. by rewrite lookup_insert_eq.
      * left. by rewrite lookup_insert_ne.
    + exists c'. rewrite list_lookup_insert_ne by done.
      repeat split; auto.
  - exists []. by rewrite app_nil_r.
Qed.

Lemma browser_get_changes (web : string → Page) (url : string) (st : State) :
  F url → changes W F st (browser_get web url st).1.
Proof.
  intros HF. split; cbn [fst heap browser outputs browser_get quitted history];
    try done.
  - intros l c Hl. exists c. repeat split; auto.
  - exists [url]. split; [done|]. by constructor.
Qed.

Lemma bind_changes {A B} (m : M A) (k : A → M B) (st : State) :
  changes W F st (m st).1 →
  (∀ a st', changes W F st' (k a st').1) →
  changes W F st (bind m k st).1.
Proof.
  intros Hm Hk. unfold bind. destruct (m st) as [st' [a| |]]; [|done..].
  cbn [fst] in Hm. eapply changes_trans; [done|]. apply Hk.
Qed.

Lemma for_each_changes {A} (l : list A) (body : A → M unit) (st : State) :
  (∀ x st', x ∈ l → changes W F st' (body x st').1) →
  changes W F st (for_each l body st).1.
Proof.
  revert st. induction l as [|x l IH]; intros st Hbody.
  - apply changes_refl.
  - cbn [for_each]. apply bind_changes.
    + apply Hbody. by left.
    + intros _ st'. apply IH. intros y st'' Hy. apply Hbody. by right.
Qed.

End Changes.

Lemma changes_mono (W W' : loc → Skill.t → Z → Prop) (F F' : string → Prop)
    (st st' : State) :
  (∀ l s v, W l s v → W' l s v) → (∀ u, F u → F' u) →
  changes W F st st' → changes W' F' st st'.
Proof.
  intros HW HF [Ho Hq Hl Hh (new & Hn & Hnew)]. split; try done.
  - intros l c Hc. destruct (Hh l c Hc) as (c' & Hc' & ? & ? & ? & Hs).
    exists c'. repeat split; try done.
    intros s. destruct (Hs s) as [?|(v & ? & ?)]; [by left|right; eauto].
  - exists new. split; [done|]. eapply Forall_impl; [done|]. auto.
Qed.

(** ** The steps of the enricher as equations *)

Lemma find_highscores_rows_eq (st : State) :
  find_highscores_rows st = (st, highscores_rows (page (browser st))).
Proof.
  unfold find_highscores_rows, highscores_rows, bind,
    find_element_by_class_name, tbody_rows, lift.
  by destruct (head _).
Qed.

Lemma scan_row_eq (idx : Index) (skill : Skill.t) (ctu : gset string)
    (row : Tr) (st : State) :
  scan_row idx skill ctu row st =
  match parse_row row with
  | Ok (nm, v) =>
      if decide (nm ∈ ctu) then
        match character_map idx !! nm with
        | Some l => store_skill l skill v st
        | None => (st, Raise AttributeError)
        end
      else (st, Ok tt)
  | Raise e => (st, Raise e)
  | Diverge => (st, Diverge)
  end.
Proof.
  unfold scan_row, parse_row. rewrite bind_lift.
  destruct (a_text_of row HIGHSCORES_NAME_ID) as [nm| |]; cbn [rbind]; [|done..].
  rewrite bind_lift.
  destruct (text_of row HIGHSCORES_VALUE_ID) as [vt| |]; cbn [rbind]; [|done..].
  rewrite bind_lift. destruct (Py.int vt) as [v| |]; cbn [rbind]; [|done..].
  destruct (decide (nm ∈ ctu)); [|done]. rewrite bind_lift.
  by destruct (character_map idx !! nm).
Qed.

Lemma scan_pages_S (web : string → Page) (fuel : nat) (idx : Index)
    (skill : Skill.t) (url : string) (ctu : gset string) (n : Z) (st : State) :
  scan_pages web (S fuel) idx skill url ctu n st =
  match data_rows (web (page_url url n)) with
  | Ok rows =>
      if (length rows =? 0)%nat
      then ((browser_get web (page_url url n) st).1, Ok tt)
      else
        match for_each rows (scan_row idx skill ctu)
                (browser_get web (page_url url n) st).1 with
        | (st', Ok _) => scan_pages web fuel idx skill url ctu (n + 1) st'
        | (st', Raise e) => (st', Raise e)
        | (st', Diverge) => (st', Diverge)
        end
  | Raise e => ((browser_get web (page_url url n) st).1, Raise e)
  | Diverge => ((browser_get web (page_url url n) st).1, Diverge)
  end.
Proof.
  cbn [scan_pages]. unfold bind at 1. cbn [browser_get].
  unfold bind at 1. rewrite find_highscores_rows_eq. cbn [browser page].
  unfold data_rows.
  destruct (highscores_rows (web (page_url url n))) as [all_rows| |];
    cbn [rbind]; [|done..].
  destruct (length (drop 1 all_rows) =? 0)%nat; [done|].
  reflexivity.
Qed.

Lemma scan_skill_eq (web : string → Page) (fuel : nat) (idx : Index)
    (skill : Skill.t) (url : string) (st : State) :
  scan_skill web fuel idx (skill, url) st =
  if decide (pending idx skill = ∅) then (st, Ok tt)
  else scan_pages web fuel idx skill url (pending idx skill) 0 st.
Proof.
  unfold scan_skill, pending.
  destruct (skill_character_map idx !! skill) as [ctu|];
    cbn [from_option]; unfold id.
  - by destruct (decide (ctu = ∅)).
  - by destruct (decide (∅ = ∅ :> gset string)).
Qed.

(** ** Building the index *)

Lemma index_character_eq (idx : Index) (l : loc) (st : State) :
  index_character idx l st =
  match heap st !! l with
  | Some c =>
      (st, Ok {| character_map :=
                   <[Character.name c := l]> (character_map idx);
                 character_skill_map :=
                   <[Character.name c := applicable (Character.profession c)]>
                     (character_skill_map idx);
                 skill_character_map :=
                   foldl (add_name (Character.name c))
                     (skill_character_map idx)
                     (applicable (Character.profession c)) |})
  | None => (st, Raise InvalidReference)
  end.
Proof.
  unfold index_character, bind, deref, applicable.
  destruct (heap st !! l) as [c|]; cbn [of_option]; [|done].
  by destruct (Character.profession c).
Qed.

Lemma build_index_state (idx : Index) (characters : list loc) (st : State) :
  (build_index idx characters st).1 = st.
Proof.
  revert idx. induction characters as [|l characters IH]; intros idx; [done|].
  cbn [build_index]. unfold bind. rewrite index_character_eq.
  destruct (heap st !! l); [apply IH | done].
Qed.

Lemma build_index_cons (idx : Index) (l : loc) (characters : list loc)
    (st : State) :
  build_index idx (l :: characters) st =
  match index_character idx l st with
  | (_, Ok idx') => build_index idx' characters st
  | (_, Raise e) => (st, Raise e)
  | (_, Diverge) => (st, Diverge)
  end.
Proof.
  cbn [build_index]. unfold bind. rewrite index_character_eq.
  by destruct (heap st !! l).
Qed.

Lemma update_skills_eq (web : string → Page) (fuel : nat)
    (characters : list loc) (st : State) :
  update_skills web fuel characters st =
  match index_of characters st with
  | Ok idx => for_each SKILL_URL_MAP (scan_skill web fuel idx) st
  | Raise e => (st, Raise e)
  | Diverge => (st, Diverge)
  end.
Proof.
  unfold update_skills, index_of, bind.
  pose proof (build_index_state empty_index characters st) as Hst.
  destruct (build_index empty_index characters st) as [st' r].
  cbn [fst snd] in *. subst st'. by destruct r.
Qed.

(** ** What the enricher may change *)

Lemma SKILL_URL_MAP_get (skill : Skill.t) (url : string) :
  (skill, url) ∈ SKILL_URL_MAP → Py.get SKILL_URL_MAP skill = Some url.
Proof.
  unfold SKILL_URL_MAP. rewrite !elem_of_cons, elem_of_nil.
  intros [H|[H|[H|[H|[H|[H|[]]]]]]]; by injection H as -> ->.
Qed.

Lemma scan_row_changes (web : string → Page) (idx : Index) (skill : Skill.t)
    (url : string) (n : Z) (rows : list Tr) (row : Tr) (st : State) :
  Py.get SKILL_URL_MAP skill = Some url →
  data_rows (web (page_url url n)) = Ok rows →
  row ∈ rows →
  changes (written web idx) (fetched idx) st
    (scan_row idx skill (pending idx skill) row st).1.
Proof.
  intros Hurl Hrows Hrow. rewrite scan_row_eq.
  destruct (parse_row row) as [[nm v]| |] eqn:Hparse;
    [|apply changes_refl..].
  destruct (decide (nm ∈ pending idx skill)) as [Hnm|]; [|apply changes_refl].
  destruct (character_map idx !! nm) as [l|] eqn:Hl; [|apply changes_refl].
  apply store_skill_changes. exists url, nm. repeat split; try done.
  by exists n, rows, row.
Qed.

Lemma scan_pages_changes (web : string → Page) (fuel : nat) (idx : Index)
    (skill : Skill.t) (url : string) (n : Z) (st : State) :
  Py.get SKILL_URL_MAP skill = Some url →
  pending idx skill ≠ ∅ →
  changes (written web idx) (fetched idx) st
    (scan_pages web fuel idx skill url (pending idx skill) n st).1.
Proof.
  intros Hurl Hpending. revert n st.
  induction fuel as [|fuel IH]; intros n st; [apply changes_refl|].
  rewrite scan_pages_S.
  assert (changes (written web idx) (fetched idx) st
            (browser_get web (page_url url n) st).1) as Hget.
  { apply browser_get_changes. by exists skill, url, n. }
  destruct (data_rows (web (page_url url n))) as [rows| |] eqn:Hrows;
    [|done..].
  destruct (length rows =? 0)%nat; [done|].
  assert (changes (written web idx) (fetched idx)
            (browser_get web (page_url url n) st).1
            (for_each rows (scan_row idx skill (pending idx skill))
               (browser_get web (page_url url n) st).1).1) as Hrowsch.
  { apply for_each_changes. intros row st' Hrow.
    by eapply scan_row_changes. }
  destruct (for_each rows _ _) as [st' [[]| |]]; cbn [fst] in *.
  - eapply changes_trans; [done|]. eapply changes_trans; [done|]. apply IH.
  - by eapply changes_trans.
  - by eapply changes_trans.
Qed.

Lemma scan_skill_changes (web : string → Page) (fuel : nat) (idx : Index)
    (skill : Skill.t) (url : string) (st : State) :
  (skill, url) ∈ SKILL_URL_MAP →
  changes (written web idx) (fetched idx) st
    (scan_skill web fuel idx (skill, url) st).1.
Proof.
  intros Hin%SKILL_URL_MAP_get. rewrite scan_skill_eq.
  destruct (decide (pending idx skill = ∅)); [apply changes_refl|].
  by apply scan_pages_changes.
Qed.

(** The enricher changes the state only by the allowed writes and fetches,
    however it ends. *)
Lemma update_skills_changes (web : string → Page) (fuel : nat)
    (characters : list loc) (st : State) (idx : Index) :
  index_of characters st = Ok idx →
  changes (written web idx) (fetched idx) st
    (update_skills web fuel characters st).1.
Proof.
  intros Hidx. rewrite update_skills_eq, Hidx.
  apply for_each_changes. intros [skill url] st' Hin.
  by apply scan_skill_changes.
Qed.

Lemma update_skills_no_index (web : string → Page) (fuel : nat)
    (characters : list loc) (st : State) :
  (∀ idx, index_of characters st ≠ Ok idx) →
  (update_skills web fuel characters st).1 = st.
Proof.
  intros Hidx. rewrite update_skills_eq.
  destruct (index_of characters st) as [idx| |]; [|done..].
  by destruct (Hidx idx).
Qed.

(** ** The index *)

Lemma pending_empty_index (skill : Skill.t) : pending empty_index skill = ∅.
Proof. done. Qed.

Lemma foldl_add_name (nm : string) (skills : list Skill.t)
    (m : gmap Skill.t (gset string)) (s : Skill.t) :
  default ∅ (foldl (add_name nm) m skills !! s) =
  default ∅ (m !! s) ∪ (if decide (s ∈ skills) then {[nm]} else ∅).
Proof.
  revert m. induction skills as [|sk skills IH]; intros m.
  - cbn [foldl]. destruct (decide (s ∈ [])) as [Hin|_]; [|set_solver].
    by apply elem_of_nil in Hin.
  - cbn [foldl]. rewrite IH. unfold add_name.
    destruct (decide (sk = s)) as [->|Hne].
    + rewrite lookup_insert_eq. cbn [from_option]. unfold id.
      rewrite (decide_True (P := s ∈ s :: skills)) by by left.
      destruct (decide (s ∈ skills)); set_solver.
    + rewrite lookup_insert_ne by done.
      destruct (decide (s ∈ skills)) as [Hin|Hnin].
      * rewrite decide_True by by right. done.
      * rewrite decide_False; [done|].
        rewrite elem_of_cons. intros [?|?]; congruence.
Qed.

Lemma build_index_pending (characters : list loc) (idx0 idx : Index)
    (st : State) (s : Skill.t) (nm : string) :
  (build_index idx0 characters st).2 = Ok idx →
  nm ∈ pending idx s ↔
  nm ∈ pending idx0 s ∨
  ∃ l c, l ∈ characters ∧ heap st !! l = Some c ∧
         Character.name c = nm ∧ s ∈ applicable (Character.profession c).
Proof.
  revert idx0. induction characters as [|l characters IH]; intros idx0.
  - cbn. intros [= <-]. split; [by left|].
    intros [?|(l & c & Hl & _)]; [done|]. by apply elem_of_nil in Hl.
  - rewrite build_index_cons, index_character_eq.
    destruct (heap st !! l) as [c|] eqn:Hl; [|done].
    intros Hidx. rewrite (IH _ Hidx). unfold pending at 1.
    cbn [skill_character_map]. rewrite foldl_add_name.
    fold (pending idx0 s). rewrite elem_of_union. split.
    + intros [[Hold|Hnew]|(l' & c' & Hl' & Hc' & Hn & Hs)].
      * by left.
      * right. exists l, c. destruct (decide _) as [Hs|]; [|set_solver].
        apply elem_of_singleton in Hnew. repeat split; try done. by left.
      * right. exists l', c'. repeat split; try done. by right.
    + intros [Hold|(l' & c' & Hl' & Hc' & Hn & Hs)]; [by left; left|].
      apply elem_of_cons in Hl' as [->|Hl'].
      * left. right. rewrite Hl in Hc'. injection Hc' as <-.
        rewrite decide_True by done. by apply elem_of_singleton.
      * right. by exists l', c'.
Qed.

Lemma build_index_character_map (characters : list loc) (idx0 idx : Index)
    (st : State) (nm : string) :
  (build_index idx0 characters st).2 = Ok idx →
  character_map idx !! nm =
  match last_named (heap st) characters nm with
  | Some l => Some l
  | None => character_map idx0 !! nm
  end.
Proof.
  revert idx0. induction characters as [|l characters IH]; intros idx0.
  - cbn. by intros [= <-].
  - rewrite build_index_cons, index_character_eq.
    destruct (heap st !! l) as [c|] eqn:Hl; [|done].
    intros Hidx. rewrite (IH _ Hidx). cbn [character_map].
    unfold last_named. rewrite filter_cons.
    destruct (decide (named (heap st) nm l)) as [Hnamed|Hnamed].
    + rewrite last_cons. destruct (last (filter _ characters)); [done|].
      unfold named in Hnamed. rewrite Hl in Hnamed. injection Hnamed as <-.
      by rewrite lookup_insert_eq.
    + destruct (last (filter _ characters)); [done|].
      rewrite lookup_insert_ne; [done|].
      intros <-. apply Hnamed. unfold named. by rewrite Hl.
Qed.

Lemma build_index_valid (characters : list loc) (idx0 : Index) (st : State) :
  Forall (λ l, is_Some (heap st !! l)) characters ↔
  ∃ idx, (build_index idx0 characters st).2 = Ok idx.
Proof.
  revert idx0. induction characters as [|l characters IH]; intros idx0.
  - split; [by exists idx0 | by constructor].
  - rewrite build_index_cons, index_character_eq, Forall_cons.
    destruct (heap st !! l) as [c|] eqn:Hl.
    + rewrite <- IH. split; [by intros [_ ?] | by split].
    + split; [by intros [[? ?] _] | by intros [? ?]].
Qed.

Lemma index_of_pending (characters : list loc) (idx : Index) (st : State)
    (s : Skill.t) (nm : string) :
  index_of characters st = Ok idx →
  nm ∈ pending idx s ↔
  ∃ l c, l ∈ characters ∧ heap st !! l = Some c ∧
         Character.name c = nm ∧ s ∈ applicable (Character.profession c).
Proof.
  intros Hidx. rewrite (build_index_pending _ _ _ _ _ _ Hidx).
  rewrite pending_empty_index. set_solver.
Qed.

Lemma index_of_character_map (characters : list loc) (idx : Index)
    (st : State) (nm : string) :
  index_of characters st = Ok idx →
  character_map idx !! nm = last_named (heap st) characters nm.
Proof.
  intros Hidx. rewrite (build_index_character_map _ _ _ _ _ Hidx).
  by destruct (last_named _ _ _).
Qed.

Lemma last_named_Some (h : list Character.t) (characters : list loc)
    (nm : string) (l : loc) :
  last_named h characters nm = Some l → l ∈ characters ∧ named h nm l.
Proof.
  unfold last_named. intros [l' Hl']%last_Some.
  assert (l ∈ filter (named h nm) characters) as Hin.
  { rewrite Hl'. apply elem_of_app. right. by left. }
  by apply list_elem_of_filter in Hin as [? ?].
Qed.

Lemma last_named_split (h : list Character.t) (pre post : list loc)
    (nm : string) (l : loc) :
  named h nm l → Forall (λ l', ¬ named h nm l') post →
  last_named h (pre ++ l :: post) nm = Some l.
Proof.
  intros Hl Hpost. unfold last_named.
  rewrite filter_app, filter_cons, decide_True by done.
  assert (filter (named h nm) post = []) as ->.
  { induction Hpost as [|x post Hx _ IH]; [done|].
    by rewrite filter_cons, decide_False. }
  by rewrite last_snoc.
Qed.

(** A pending name has an entry in the name index, and the entry refers to
    a character of the store. *)
Lemma pending_character_map (characters : list loc) (idx : Index)
    (st : State) (s : Skill.t) (nm : string) :
  index_of characters st = Ok idx →
  nm ∈ pending idx s →
  ∃ l, character_map idx !! nm = Some l ∧ (l < length (heap st))%nat.
Proof.
  intros Hidx Hnm.
  apply (index_of_pending _ _ _ _ _ Hidx) in Hnm
    as (l & c & Hl & Hc & Hname & _).
  rewrite (index_of_character_map _ _ _ _ Hidx).
  destruct (last_named (heap st) characters nm) as [l'|] eqn:Hlast.
  - exists l'. split; [done|].
    apply last_named_Some in Hlast as [_ Hnamed]. unfold named in Hnamed.
    destruct (heap st !! l') eqn:Hl'; [|done]. by eapply lookup_lt_Some.
  - unfold last_named in Hlast. apply last_None in Hlast.
    assert (l ∈ filter (named (heap st) nm) characters) as Hin.
    { apply list_elem_of_filter. split; [|done]. unfold named.
      by rewrite Hc, <- Hname. }
    rewrite Hlast in Hin. by apply elem_of_nil in Hin.
Qed.

(** ** The URLs of the leaderboards *)

Lemma page_url_app (skill : Skill.t) (url : string) (n : Z) :
  Py.get SKILL_URL_MAP skill = Some url →
  page_url url n = Py.replace "{page}" "" url +:+ Py.str n.
Proof.
  intros H. unfold page_url.
  transitivity (Py.replace "{page}" "" url +:+ (Py.str n +:+ "")).
  - generalize (Py.str n). intros x.
    destruct skill; injection H as <-; reflexivity.
  - f_equal. apply sapp_nil_r.
Qed.

(** The pages of two different skills have different URLs. *)
Lemma page_url_skill (s s' : Skill.t) (url url' : string) (n m : Z) :
  Py.get SKILL_URL_MAP s = Some url →
  Py.get SKILL_URL_MAP s' = Some url' →
  page_url url n = page_url url' m → s = s'.
Proof.
  intros H H' Heq.
  rewrite (page_url_app s url n H), (page_url_app s' url' m H') in Heq.
  assert (String.prefix (Py.replace "{page}" "" url)
            (Py.replace "{page}" "" url' +:+ Py.str m) = true) as Hp.
  { rewrite <- Heq. apply prefix_spec. exists (Py.str n). reflexivity. }
  clear Heq. revert Hp. generalize (Py.str m). intros y Hp.
  destruct s; injection H as <-; destruct s'; injection H' as <-;
    first [reflexivity | vm_compute in Hp; discriminate Hp].
Qed.

(** ** Termination of the enricher on finite leaderboards *)

Lemma for_each_rows_ok (idx : Index) (skill : Skill.t) (ctu : gset string)
    (rows : list Tr) (st : State) :
  Forall (λ row, ∃ nm v, parse_row row = Ok (nm, v)) rows →
  (∀ nm, nm ∈ ctu →
     ∃ l, character_map idx !! nm = Some l ∧ (l < length (heap st))%nat) →
  (for_each rows (scan_row idx skill ctu) st).2 = Ok tt ∧
  history (browser (for_each rows (scan_row idx skill ctu) st).1)
    = history (browser st) ∧
  length (heap (for_each rows (scan_row idx skill ctu) st).1)
    = length (heap st).
Proof.
  intros Hrows. revert st.
  induction Hrows as [|row rows (nm & v & Hrow) _ IH]; intros st Hctu; [done|].
  cbn [for_each]. unfold bind. rewrite scan_row_eq, Hrow.
  destruct (decide (nm ∈ ctu)) as [Hnm|Hnm].
  - destruct (Hctu nm Hnm) as (l & Hcm & Hl). rewrite Hcm.
    unfold store_skill.
    destruct (lookup_lt_is_Some_2 _ _ Hl) as [c Hc]. rewrite Hc.
    match goal with |- context [for_each rows _ ?s] => set (st1 := s) end.
    destruct (IH st1) as (Hok & Hhist & Hlen).
    { intros nm' Hnm'. destruct (Hctu nm' Hnm') as (l' & ? & ?).
      exists l'. split; [done|]. subst st1. cbn [heap].
      by rewrite length_insert. }
    rewrite Hok, Hhist, Hlen. subst st1. cbn [heap browser].
    by rewrite length_insert.
  - by apply IH.
Qed.

Lemma pages_from (url : string) (n : Z) (k : nat) :
  page_url url n ::
    ((λ i, page_url url (n + 1 + Z.of_nat i)) <$> seq 0 (S k)) =
  (λ i, page_url url (n + Z.of_nat i)) <$> seq 0 (S (S k)).
Proof.
  change (seq 0 (S (S k))) with (0%nat :: seq 1 (S k)).
  rewrite fmap_cons, <- fmap_S_seq, <- list_fmap_compose.
  f_equal; [by rewrite Z.add_0_r|].
  apply list_fmap_ext. intros _ i _. unfold compose. f_equal. lia.
Qed.

Lemma scan_pages_ok (web : string → Page) (idx : Index) (skill : Skill.t)
    (url : string) (ctu : gset string) (k fuel : nat) (n : Z) (st : State) :
  (k < fuel)%nat →
  (∀ i, (i < k)%nat →
     ∃ rows, data_rows (web (page_url url (n + Z.of_nat i))) = Ok rows ∧
             rows ≠ [] ∧
             Forall (λ row, ∃ nm v, parse_row row = Ok (nm, v)) rows) →
  data_rows (web (page_url url (n + Z.of_nat k))) = Ok [] →
  (∀ nm, nm ∈ ctu →
     ∃ l, character_map idx !! nm = Some l ∧ (l < length (heap st))%nat) →
  (scan_pages web fuel idx skill url ctu n st).2 = Ok tt ∧
  history (browser (scan_pages web fuel idx skill url ctu n st).1)
    = history (browser st) ++
      ((λ i, page_url url (n + Z.of_nat i)) <$> seq 0 (S k)) ∧
  length (heap (scan_pages web fuel idx skill url ctu n st).1)
    = length (heap st).
Proof.
  revert fuel n st. induction k as [|k IH]; intros fuel n st Hfuel Hpages Hend Hctu.
  - destruct fuel as [|fuel]; [lia|]. rewrite scan_pages_S.
    cbn [Z.of_nat] in Hend. rewrite Z.add_0_r in Hend. rewrite Hend.
    cbn. by rewrite Z.add_0_r.
  - destruct fuel as [|fuel]; [lia|]. rewrite scan_pages_S.
    destruct (Hpages 0%nat ltac:(lia)) as (rows & Hrows & Hne & Hwf).
    cbn [Z.of_nat] in Hrows. rewrite Z.add_0_r in Hrows. rewrite Hrows.
    destruct rows as [|row rows]; [done|]. cbn [length Nat.eqb].
    match goal with |- context [for_each _ _ ?s] => set (st1 := s) end.
    destruct (for_each_rows_ok idx skill ctu (row :: rows) st1 Hwf)
      as (Hok & Hhist & Hlen); [done|].
    destruct (for_each (row :: rows) _ st1) as [st2 r]. cbn [fst snd] in *.
    subst r.
    destruct (IH fuel (n + 1) st2) as (Hok' & Hhist' & Hlen').
    + lia.
    + intros i Hi. destruct (Hpages (S i) ltac:(lia)) as (rs & Hrs & ? & ?).
      exists rs. replace (n + 1 + Z.of_nat i) with (n + Z.of_nat (S i)) by lia.
      done.
    + replace (n + 1 + Z.of_nat k) with (n + Z.of_nat (S k)) by lia. done.
    + intros nm Hnm. destruct (Hctu nm Hnm) as (l & ? & ?).
      exists l. split; [done|]. rewrite Hlen. by subst st1.
    + rewrite Hok', Hhist', Hlen', Hhist, Hlen. subst st1.
      cbn [browser_get fst browser history heap].
      rewrite <- pages_from, <- app_assoc. done.
Qed.

(** The fetches of one item of [SKILL_URL_MAP]: none when nothing is pending
    for the skill, the pages 0 to [N skill] otherwise. *)
Definition skill_pages (idx : Index) (N : Skill.t → nat)
    (item : Skill.t * string) : list string :=
  if decide (pending idx item.1 = ∅) then [] else pages item.2 (N item.1).

(** The leaderboard of every skill with pending names ends, after [N skill]
    pages, within the bound [fuel]. *)
Definition leaderboards_end (web : string → Page) (idx : Index)
    (N : Skill.t → nat) (fuel : nat) : Prop :=
  ∀ skill url,
    Py.get SKILL_URL_MAP skill = Some url → pending idx skill ≠ ∅ →
    ends_after web url (N skill) ∧ (N skill < fuel)%nat.

Lemma scan_skills_ok (web : string → Page) (idx : Index) (fuel : nat)
    (N : Skill.t → nat) (items : list (Skill.t * string)) (st : State) :
  items ⊆ SKILL_URL_MAP →
  leaderboards_end web idx N fuel →
  (∀ s nm, nm ∈ pending idx s →
     ∃ l, character_map idx !! nm = Some l ∧ (l < length (heap st))%nat) →
  (for_each items (scan_skill web fuel idx) st).2 = Ok tt ∧
  history (browser (for_each items (scan_skill web fuel idx) st).1)
    = history (browser st) ++ mjoin (skill_pages idx N <$> items) ∧
  length (heap (for_each items (scan_skill web fuel idx) st).1)
    = length (heap st).
Proof.
  intros Hitems Hend. revert st.
  induction items as [|[skill url] items IH]; intros st Hidx.
  - cbn. by rewrite app_nil_r.
  - assert (Py.get SKILL_URL_MAP skill = Some url) as Hurl.
    { apply SKILL_URL_MAP_get, Hitems. by left. }
    assert (items ⊆ SKILL_URL_MAP) as Hrest.
    { intros x Hx. apply Hitems. by right. }
    cbn [for_each fmap list_fmap mjoin list_join]. unfold bind.
    rewrite scan_skill_eq. unfold skill_pages at 1. cbn [fst snd].
    destruct (decide (pending idx skill = ∅)) as [Hempty|Hpending].
    + by apply IH.
    + destruct (Hend skill url Hurl Hpending) as [[Hpages Hlast] Hfuel].
      destruct (scan_pages_ok web idx skill url (pending idx skill)
                  (N skill) fuel 0 st Hfuel Hpages Hlast (Hidx skill))
        as (Hok & Hhist & Hlen).
      destruct (scan_pages web fuel idx skill url _ 0 st) as [st1 r].
      cbn [fst snd] in *. subst r.
      destruct (IH Hrest st1) as (Hok' & Hhist' & Hlen').
      { intros s nm Hnm. destruct (Hidx s nm Hnm) as (l & ? & ?).
        exists l. by rewrite Hlen. }
      rewrite Hok', Hhist', Hlen', Hhist, Hlen, <- app_assoc. done.
Qed.

(** The enricher returns when the leaderboards it visits end, and its
    fetches are the pages of the skills with pending names, skill by
    skill. *)
Lemma update_skills_ok (web : string → Page) (fuel : nat)
    (characters : list loc) (st : State) (idx : Index) (N : Skill.t → nat) :
  index_of characters st = Ok idx →
  leaderboards_end web idx N fuel →
  (update_skills web fuel characters st).2 = Ok tt ∧
  history (browser (update_skills web fuel characters st).1)
    = history (browser st) ++ mjoin (skill_pages idx N <$> SKILL_URL_MAP).
Proof.
  intros Hidx Hend. rewrite update_skills_eq, Hidx.
  destruct (scan_skills_ok web idx fuel N SKILL_URL_MAP st) as (? & ? & _);
    try done.
  intros s nm Hnm. by eapply pending_character_map.
Qed.

(** In the fetches of the enricher the pages of one skill stand together:
    what comes before and after them are pages of other skills. *)
Lemma skill_pages_split (idx : Index) (N : Skill.t → nat)
    (items : list (Skill.t * string)) (skill : Skill.t) (url : string) :
  items ⊆ SKILL_URL_MAP → NoDup items.*1 →
  (skill, url) ∈ items →
  ∃ before after,
    mjoin (skill_pages idx N <$> items)
      = before ++ skill_pages idx N (skill, url) ++ after ∧
    ∀ u n, u ∈ before ++ after → u ≠ page_url url n.
Proof.
  intros Hitems Hnodup Hin.
  apply list_elem_of_split in Hin as (l1 & l2 & ->).
  exists (mjoin (skill_pages idx N <$> l1)),
         (mjoin (skill_pages idx N <$> l2)).
  split; [by rewrite fmap_app, join_app|].
  assert (Py.get SKILL_URL_MAP skill = Some url) as Hurl.
  { apply SKILL_URL_MAP_get, Hitems. set_solver. }
  rewrite fmap_app, fmap_cons in Hnodup. cbn [fst] in Hnodup.
  apply NoDup_app in Hnodup as (_ & Hl1 & Hl2%NoDup_cons_1_1).
  intros u n Hu ->.
  assert (∃ s' url', (s', url') ∈ l1 ++ l2 ∧
                     page_url url n ∈ skill_pages idx N (s', url'))
    as (s' & url' & Hin' & Hpage).
  { apply elem_of_app in Hu as [Hu|Hu];
      apply list_elem_of_join in Hu as (block & Hpage & Hblock);
      apply list_elem_of_fmap in Hblock as ([s' url'] & -> & Hin');
      exists s', url'; (split; [|done]); set_solver. }
  unfold skill_pages in Hpage. cbn [fst snd] in Hpage.
  destruct (decide (pending idx s' = ∅)); [by apply elem_of_nil in Hpage|].
  apply list_elem_of_fmap in Hpage as (k & Hk & _).
  assert (Py.get SKILL_URL_MAP s' = Some url') as Hurl'.
  { apply SKILL_URL_MAP_get, Hitems. set_solver. }
  pose proof (page_url_skill _ _ _ _ _ _ Hurl Hurl' Hk) as <-.
  apply elem_of_app in Hin' as [Hin'|Hin'].
  - apply (Hl1 skill); [|by left]. apply list_elem_of_fmap. by exists (skill, url').
  - apply Hl2. apply list_elem_of_fmap. by exists (skill, url').
Qed.

Lemma SKILL_URL_MAP_NoDup : NoDup SKILL_URL_MAP.*1.
Proof. cbn. repeat (constructor; [set_solver|]). constructor. Qed.

Lemma SKILL_URL_MAP_elem (skill : Skill.t) (url : string) :
  Py.get SKILL_URL_MAP skill = Some url → (skill, url) ∈ SKILL_URL_MAP.
Proof. destruct skill; intros [= <-]; set_solver. Qed.

(** * Properties of the enricher *)

(** C4, as amended.  When the leaderboard of every skill with pending names
    has [N skill] pages with data rows, each with a name in a link and a
    number as its value, followed by a page without, the enricher returns,
    and for each such skill it fetches exactly the [N skill + 1] pages 0 to
    [N skill] of that skill, in increasing order: its fetches are these
    pages, between fetches that are pages of other skills. *)
Theorem pagination_fetches (web : string → Page) (fuel : nat)
    (characters : list loc) (st : State) (idx : Index) (N : Skill.t → nat) :
  index_of characters st = Ok idx →
  leaderboards_end web idx N fuel →
  (update_skills web fuel characters st).2 = Ok tt ∧
  ∃ new,
    history (browser (update_skills web fuel characters st).1)
      = history (browser st) ++ new ∧
    ∀ skill url,
      Py.get SKILL_URL_MAP skill = Some url → pending idx skill ≠ ∅ →
      length (pages url (N skill)) = S (N skill) ∧
      ∃ before after,
        new = before ++ pages url (N skill) ++ after ∧
        ∀ u n, u ∈ before ++ after → u ≠ page_url url n.
Proof.
  intros Hidx Hend.
  destruct (update_skills_ok web fuel characters st idx N Hidx Hend)
    as [Hok Hhist].
  split; [done|]. eexists. split; [done|].
  intros skill url Hurl Hpending. split.
  { unfold pages. by rewrite length_fmap, length_seq. }
  destruct (skill_pages_split idx N SKILL_URL_MAP skill url)
    as (before & after & Hsplit & Hother);
    [done | apply SKILL_URL_MAP_NoDup | by apply SKILL_URL_MAP_elem |].
  exists before, after. split; [|done].
  rewrite Hsplit. unfold skill_pages at 1. cbn [fst snd].
  by rewrite decide_False.
Qed.

(** The pending set of a skill is empty exactly when the skill applies to
    the profession of no character of the list. *)
Lemma pending_empty_iff (characters : list loc) (idx : Index) (st : State)
    (skill : Skill.t) :
  index_of characters st = Ok idx →
  pending idx skill = ∅ ↔
  Forall (λ l, ∀ c, heap st !! l = Some c →
                    skill ∉ applicable (Character.profession c)) characters.
Proof.
  intros Hidx. rewrite Forall_forall. split.
  - intros Hempty l Hl c Hc Hskill.
    assert (Character.name c ∈ pending idx skill) as Hin.
    { apply (index_of_pending _ _ _ _ _ Hidx). by exists l, c. }
    rewrite Hempty in Hin. by apply not_elem_of_empty in Hin.
  - intros Hnone. apply leibniz_equiv, elem_of_equiv_empty. intros nm Hnm.
    apply (index_of_pending _ _ _ _ _ Hidx) in Hnm
      as (l & c & Hl & Hc & _ & Hskill).
    by apply (Hnone l Hl c Hc).
Qed.

Lemma fetched_other_skill (idx : Index) (skill : Skill.t) (url : string)
    (n : Z) :
  Py.get SKILL_URL_MAP skill = Some url →
  pending idx skill = ∅ →
  ¬ fetched idx (page_url url n).
Proof.
  intros Hurl Hempty (skill' & url' & n' & Hurl' & Hpending & Heq).
  by rewrite (page_url_skill _ _ _ _ _ _ Hurl Hurl' Heq) in Hempty.
Qed.

(** C5. For a skill whose pending set is empty the enricher fetches no
    page: no URL it loads is a page of the leaderboard of that skill,
    whatever the other leaderboards hold and however the run ends. *)
Theorem no_fetch_without_pending (web : string → Page) (fuel : nat)
    (characters : list loc) (st : State) (skill : Skill.t) (url : string) :
  Py.get SKILL_URL_MAP skill = Some url →
  (∀ idx, index_of characters st = Ok idx → pending idx skill = ∅) →
  ∃ new,
    history (browser (update_skills web fuel characters st).1)
      = history (browser st) ++ new ∧
    ∀ n, page_url url n ∉ new.
Proof.
  intros Hurl Hempty.
  destruct (index_of characters st) as [idx| |] eqn:Hidx.
  - destruct (update_skills_changes web fuel characters st idx Hidx)
      as [_ _ _ _ (new & Hnew & Hfetched)].
    exists new. split; [done|]. intros n Hin.
    rewrite Forall_forall in Hfetched.
    by eapply fetched_other_skill, Hfetched; [| apply Hempty |].
  - exists []. rewrite app_nil_r. split; [|intros n; apply not_elem_of_nil].
    by rewrite update_skills_no_index by (intros idx; by rewrite Hidx).
  - exists []. rewrite app_nil_r. split; [|intros n; apply not_elem_of_nil].
    by rewrite update_skills_no_index by (intros idx; by rewrite Hidx).
Qed.

Lemma update_skills_cases (web : string → Page) (fuel : nat)
    (characters : list loc) (st : State) :
  (update_skills web fuel characters st).1 = st ∨
  ∃ idx, index_of characters st = Ok idx ∧
         changes (written web idx) (fetched idx) st
           (update_skills web fuel characters st).1.
Proof.
  destruct (index_of characters st) as [idx| |] eqn:Hidx.
  - right. exists idx. split; [done|]. by apply update_skills_changes.
  - left. apply update_skills_no_index. intros idx. by rewrite Hidx.
  - left. apply update_skills_no_index. intros idx. by rewrite Hidx.
Qed.

Lemma map_auction_eq (auction : Auction.t) (st : State) :
  map_auction auction st =
  (st, match heap st !! Auction.character auction with
       | Some character =>
           Ok [ VStr (Character.name character);
                VInt (Auction.price auction);
                VStr (Profession.name (Character.profession character));
                VInt (Character.lvl character);
                skill_cell (Character.skills character) SWORD;
                skill_cell (Character.skills character) AXE;
                skill_cell (Character.skills character) CLUB;
                skill_cell (Character.skills character) DISTANCE;
                skill_cell (Character.skills character) MAGIC;
                skill_cell (Character.skills character) SHIELDING ]
       | None => Raise InvalidReference
       end).
Proof.
  unfold map_auction, bind, deref.
  by destruct (heap st !! Auction.character auction).
Qed.

(** The cells of an exported row that identify the auction: the name, the
    price, the profession and the level. *)
Definition identity_cells (r : result (list Value)) : result (list Value) :=
  rbind r (λ row, Ok (take 4 row)).

(** C9. Enrichment changes nothing but skill mappings: the store keeps its
    size, every character keeps its name, profession and level, nothing is
    written out, and every auction exports the same name, price, profession
    and level after enrichment as before. *)
Theorem enrichment_frame (web : string → Page) (fuel : nat)
    (characters : list loc) (st : State) :
  let st' := (update_skills web fuel characters st).1 in
  length (heap st') = length (heap st) ∧
  (∀ l c, heap st !! l = Some c →
     ∃ c', heap st' !! l = Some c' ∧
           Character.name c' = Character.name c ∧
           Character.profession c' = Character.profession c ∧
           Character.lvl c' = Character.lvl c) ∧
  outputs st' = outputs st ∧
  ∀ auction : Auction.t,
    identity_cells (map_auction auction st').2
      = identity_cells (map_auction auction st).2.
Proof.
  intros st'.
  assert (changes (λ _ _ _, True) (λ _, True) st st') as [Ho _ Hlen Hheap _].
  { subst st'.
    destruct (update_skills_cases web fuel characters st)
      as [->|(idx & _ & Hch)]; [apply changes_refl|].
    by eapply changes_mono. }
  split; [done|]. split; [|split; [done|]].
  - intros l c Hc. destruct (Hheap l c Hc) as (c' & ? & ? & ? & ? & _).
    by exists c'.
  - intros auction. rewrite !map_auction_eq. cbn [snd].
    destruct (heap st !! Auction.character auction) as [c|] eqn:Hc.
    + destruct (Hheap _ c Hc) as (c' & -> & Hn & Hp & Hl & _).
      cbn. by rewrite Hn, Hp, Hl.
    + apply lookup_ge_None in Hc. rewrite <- Hlen in Hc.
      apply lookup_ge_None in Hc. by rewrite Hc.
Qed.

Lemma written_last_named (web : string → Page) (characters : list loc)
    (st : State) (idx : Index) (l : loc) (s : Skill.t) (v : Z) :
  index_of characters st = Ok idx →
  written web idx l s v →
  ∃ url nm, Py.get SKILL_URL_MAP s = Some url ∧
            last_named (heap st) characters nm = Some l ∧
            named (heap st) nm l ∧
            leaderboard_entry web url nm v.
Proof.
  intros Hidx (url & nm & Hurl & _ & Hl & Hentry).
  rewrite (index_of_character_map _ _ _ _ Hidx) in Hl.
  exists url, nm. repeat split; try done.
  by apply last_named_Some in Hl as [_ ?].
Qed.

Lemma named_inj (h : list Character.t) (nm nm' : string) (l : loc) :
  named h nm l → named h nm' l → nm = nm'.
Proof. unfold named. intros -> [= ->]. done. Qed.

Lemma character_eq (c c' : Character.t) :
  Character.name c' = Character.name c →
  Character.profession c' = Character.profession c →
  Character.lvl c' = Character.lvl c →
  (∀ s, Character.skills c' !! s = Character.skills c !! s) →
  c' = c.
Proof.
  destruct c, c'. cbn. intros -> -> -> Hs. f_equal. by apply map_eq.
Qed.

Lemma for_each_app {A} (l1 l2 : list A) (body : A → M unit) (st : State) :
  for_each (l1 ++ l2) body st =
  (_ <- for_each l1 body ; for_each l2 body) st.
Proof.
  revert st. induction l1 as [|x l1 IH]; intros st; [done|].
  cbn [app for_each]. unfold bind in *.
  destruct (body x st) as [st1 [[]| |]]; [|done..]. apply IH.
Qed.

(** ** The rows behind the values the enricher writes *)

(** A data row of a page of the leaderboard at [url], among the pages
    singled out by [P], has the name [nm] and the value [v]. *)
Definition found (web : string → Page) (P : string → Prop)
    (url nm : string) (v : Z) : Prop :=
  ∃ n rows row,
    P (page_url url n) ∧
    data_rows (web (page_url url n)) = Ok rows ∧ row ∈ rows ∧
    parse_row row = Ok (nm, v).

Definition written_found (web : string → Page) (idx : Index)
    (P : string → Prop) (l : loc) (skill : Skill.t) (v : Z) : Prop :=
  ∃ url nm,
    Py.get SKILL_URL_MAP skill = Some url ∧
    nm ∈ pending idx skill ∧
    character_map idx !! nm = Some l ∧
    found web P url nm v.

(** The URL [u] was fetched after the fetches [base]. *)
Definition since (base : list string) (st : State) (u : string) : Prop :=
  ∃ new, history (browser st) = base ++ new ∧ u ∈ new.

Definition extends (base : list string) (st : State) : Prop :=
  ∃ new, history (browser st) = base ++ new.

Definition history_grows (st st' : State) : Prop :=
  ∃ new, history (browser st') = history (browser st) ++ new.

Lemma since_grows (base : list string) (st st' : State) (u : string) :
  history_grows st st' → since base st u → since base st' u.
Proof.
  intros [new' Hg] (new & Hh & Hu). exists (new ++ new').
  rewrite Hg, Hh, app_assoc. split; [done|]. apply elem_of_app. by left.
Qed.

Lemma extends_grows (base : list string) (st st' : State) :
  history_grows st st' → extends base st → extends base st'.
Proof.
  intros [new' Hg] [new Hh]. exists (new ++ new').
  by rewrite Hg, Hh, app_assoc.
Qed.

Lemma found_impl (web : string → Page) (P Q : string → Prop)
    (url nm : string) (v : Z) :
  (∀ u, P u → Q u) → found web P url nm v → found web Q url nm v.
Proof.
  intros HPQ (n & rows & row & HP & ?). exists n, rows, row. split; auto.
Qed.

Section Traced.

Variables (web : string → Page) (idx : Index) (base : list string).

(** [st'] comes from [st] by fetches of pages of skills with pending names
    and by writes of values of rows of pages fetched since [base]. *)
Definition traced (st st' : State) : Prop :=
  changes (written_found web idx (since base st')) (fetched idx) st st'.

Lemma traced_grows (st st' : State) : traced st st' → history_grows st st'.
Proof. intros [_ _ _ _ (new & Hnew & _)]. by exists new. Qed.

Lemma traced_of_changes (P : string → Prop) (st st' : State) :
  changes (written_found web idx P) (fetched idx) st st' →
  (∀ u, P u → since base st' u) →
  traced st st'.
Proof.
  intros Hch HP. eapply changes_mono; [|by auto|done].
  intros l s v (url & nm & ? & ? & ? & Hf). exists url, nm.
  repeat split; try done. by eapply found_impl.
Qed.

Lemma traced_refl (st : State) : traced st st.
Proof. apply changes_refl. Qed.

Lemma traced_trans (st1 st2 st3 : State) :
  traced st1 st2 → traced st2 st3 → traced st1 st3.
Proof.
  intros H12 H23. eapply changes_trans; [|exact H23].
  eapply changes_mono; [|by auto|exact H12].
  intros l s v (url & nm & ? & ? & ? & Hf). exists url, nm.
  repeat split; try done. eapply found_impl; [|done].
  intros u Hu. apply (since_grows base st2 st3); [|done].
  by apply traced_grows.
Qed.

Lemma for_each_traced {A} (I : State → Prop) (l : list A)
    (body : A → M unit) (st : State) :
  (∀ st st', I st → history_grows st st' → I st') →
  I st →
  (∀ x st', x ∈ l → I st' → traced st' (body x st').1) →
  traced st (for_each l body st).1.
Proof.
  intros HI. revert st. induction l as [|x l IH]; intros st Hst Hbody.
  - apply traced_refl.
  - cbn [for_each]. unfold bind.
    assert (traced st (body x st).1) as Hx.
    { apply Hbody; [by left|done]. }
    destruct (body x st) as [st1 [[]| |]]; cbn [fst] in *; [|done..].
    eapply traced_trans; [done|]. apply IH.
    + eapply HI; [done|]. by apply traced_grows.
    + intros y st' Hy. apply Hbody. by right.
Qed.

Lemma scan_row_traced (skill : Skill.t) (url : string) (n : Z)
    (rows : list Tr) (row : Tr) (st : State) :
  Py.get SKILL_URL_MAP skill = Some url →
  data_rows (web (page_url url n)) = Ok rows →
  row ∈ rows →
  since base st (page_url url n) →
  traced st (scan_row idx skill (pending idx skill) row st).1.
Proof.
  intros Hurl Hrows Hrow Hsince.
  assert (changes (written_found web idx (since base st)) (fetched idx) st
            (scan_row idx skill (pending idx skill) row st).1) as Hch.
  { rewrite scan_row_eq.
    destruct (parse_row row) as [[nm v]| |] eqn:Hparse;
      [|apply changes_refl..].
    destruct (decide (nm ∈ pending idx skill)) as [Hnm|];
      [|apply changes_refl].
    destruct (character_map idx !! nm) as [l|] eqn:Hl; [|apply changes_refl].
    apply store_skill_changes. exists url, nm. repeat split; try done.
    by exists n, rows, row. }
  apply (traced_of_changes (since base st)); [done|].
  intros u Hu. eapply since_grows; [|done].
  destruct Hch as [_ _ _ _ (new & Hnew & _)]. by exists new.
Qed.

Lemma for_each_rows_traced (skill : Skill.t) (url : string) (n : Z)
    (all_rows rows : list Tr) (st : State) :
  Py.get SKILL_URL_MAP skill = Some url →
  data_rows (web (page_url url n)) = Ok all_rows →
  rows ⊆ all_rows →
  since base st (page_url url n) →
  traced st (for_each rows (scan_row idx skill (pending idx skill)) st).1.
Proof.
  intros Hurl Hrows Hsub Hsince.
  apply (for_each_traced (λ s, since base s (page_url url n))); [|done|].
  - intros s s' Hs Hg. by eapply since_grows.
  - intros row st' Hrow Hst'.
    apply (scan_row_traced skill url n all_rows); auto.
Qed.

Lemma browser_get_since (url : string) (st : State) :
  extends base st → since base (browser_get web url st).1 url.
Proof.
  intros [new Hnew]. exists (new ++ [url]). cbn. rewrite Hnew, app_assoc.
  split; [done|]. apply elem_of_app. right. by left.
Qed.

Lemma scan_pages_traced (fuel : nat) (skill : Skill.t) (url : string)
    (n : Z) (st : State) :
  Py.get SKILL_URL_MAP skill = Some url →
  pending idx skill ≠ ∅ →
  extends base st →
  traced st (scan_pages web fuel idx skill url (pending idx skill) n st).1.
Proof.
  intros Hurl Hpending. revert n st.
  induction fuel as [|fuel IH]; intros n st Hext; [apply traced_refl|].
  rewrite scan_pages_S.
  pose proof (browser_get_since (page_url url n) st Hext) as Hsince.
  assert (traced st (browser_get web (page_url url n) st).1) as Hget.
  { apply browser_get_changes. by exists skill, url, n. }
  destruct (data_rows (web (page_url url n))) as [rows| |] eqn:Hrows;
    [|done..].
  destruct (length rows =? 0)%nat; [done|].
  pose proof (for_each_rows_traced skill url n rows rows
                (browser_get web (page_url url n) st).1 Hurl Hrows
                (λ x Hx, Hx) Hsince) as Hrowstr.
  destruct (for_each rows _ _) as [st' [[]| |]]; cbn [fst] in *.
  - eapply traced_trans; [done|]. eapply traced_trans; [done|]. apply IH.
    eapply extends_grows; [|done].
    apply traced_grows. by eapply traced_trans.
  - by eapply traced_trans.
  - by eapply traced_trans.
Qed.

Lemma scan_skill_traced (fuel : nat) (skill : Skill.t) (url : string)
    (st : State) :
  (skill, url) ∈ SKILL_URL_MAP →
  extends base st →
  traced st (scan_skill web fuel idx (skill, url) st).1.
Proof.
  intros Hin%SKILL_URL_MAP_get Hext. rewrite scan_skill_eq.
  destruct (decide (pending idx skill = ∅)); [apply traced_refl|].
  by apply scan_pages_traced.
Qed.

Lemma scan_skills_traced (fuel : nat) (items : list (Skill.t * string))
    (st : State) :
  items ⊆ SKILL_URL_MAP →
  extends base st →
  traced st (for_each items (scan_skill web fuel idx) st).1.
Proof.
  intros Hsub Hext. apply (for_each_traced (extends base)); [|done|].
  - intros s s' Hs Hg. by eapply extends_grows.
  - intros [skill url] st' Hin Hst'. apply scan_skill_traced; auto.
Qed.

Variables (l : loc) (s : Skill.t) (url nm : string).

Hypothesis Hurl : Py.get SKILL_URL_MAP s = Some url.
Hypothesis Hpending : nm ∈ pending idx s.
Hypothesis Hmap : character_map idx !! nm = Some l.
Hypothesis Hinj : ∀ nm', character_map idx !! nm' = Some l → nm' = nm.

(** The character behind [l] has, under [s], a value of a row of the name
    [nm] on a page fetched since [base]. *)
Definition has_entry (st : State) : Prop :=
  ∃ c v, heap st !! l = Some c ∧ Character.skills c !! s = Some v ∧
         found web (since base st) url nm v.

Lemma has_entry_stable (st st' : State) :
  traced st st' → has_entry st → has_entry st'.
Proof.
  intros Htr (c & v & Hc & Hv & Hentry).
  pose proof (traced_grows _ _ Htr) as Hg.
  destruct Htr as [_ _ _ Hheap _].
  destruct (Hheap l c Hc) as (c' & Hc' & _ & _ & _ & Hs).
  destruct (Hs s) as [Heq|(v' & Hv' & url' & nm' & Hurl' & _ & Hl' & He')].
  - exists c', v. rewrite Heq. repeat split; try done.
    eapply found_impl; [|done]. intros u. by apply since_grows.
  - exists c', v'. rewrite Hurl in Hurl'. injection Hurl' as <-.
    by rewrite (Hinj nm' Hl') in He'.
Qed.

Lemma scan_row_has_entry (n : Z) (rows : list Tr) (row : Tr) (v : Z)
    (st : State) :
  data_rows (web (page_url url n)) = Ok rows → row ∈ rows →
  parse_row row = Ok (nm, v) →
  since base st (page_url url n) →
  (l < length (heap st))%nat →
  has_entry (scan_row idx s (pending idx s) row st).1.
Proof.
  intros Hrows Hrow Hparse Hsince Hl. rewrite scan_row_eq, Hparse.
  destruct (decide (nm ∈ pending idx s)); [|done]. rewrite Hmap.
  unfold store_skill.
  destruct (lookup_lt_is_Some_2 _ _ Hl) as [c Hc]. rewrite Hc.
  exists (Character.set_skill s v c), v. cbn [fst heap].
  rewrite list_lookup_insert_eq by done. split; [done|].
  split; [apply lookup_insert_eq|]. by exists n, rows, row.
Qed.

Lemma for_each_rows_has_entry (n : Z) (all_rows rows : list Tr) (row : Tr)
    (v : Z) (st : State) :
  data_rows (web (page_url url n)) = Ok all_rows →
  rows ⊆ all_rows → row ∈ rows →
  parse_row row = Ok (nm, v) →
  Forall (λ row, ∃ nm v, parse_row row = Ok (nm, v)) rows →
  since base st (page_url url n) →
  (∀ nm, nm ∈ pending idx s →
     ∃ l, character_map idx !! nm = Some l ∧ (l < length (heap st))%nat) →
  has_entry (for_each rows (scan_row idx s (pending idx s)) st).1.
Proof.
  intros Hall Hsub Hrow Hparse Hrows. revert st Hsub Hrow.
  induction Hrows as [|r rows Hr Hrows IH];
    intros st Hsub Hrow Hsince Hvalid.
  { by apply not_elem_of_nil in Hrow. }
  assert (rows ⊆ all_rows) as Hsub'.
  { intros x Hx. apply Hsub. by right. }
  assert (traced st (scan_row idx s (pending idx s) r st).1) as Hstep.
  { apply (scan_row_traced s url n all_rows); [done..| |done].
    apply Hsub. by left. }
  cbn [for_each]. unfold bind.
  apply elem_of_cons in Hrow as [<-|Hrow].
  - assert (has_entry (scan_row idx s (pending idx s) row st).1) as Hst1.
    { apply (scan_row_has_entry n all_rows row v); [done| |done..|].
      - apply Hsub. by left.
      - destruct (Hvalid nm Hpending) as (l' & Hl' & ?).
        rewrite Hmap in Hl'. by injection Hl' as <-. }
    destruct (scan_row idx s (pending idx s) row st) as [st1 [[]| |]];
      cbn [fst] in *; [|done..].
    eapply has_entry_stable; [|done].
    apply (for_each_rows_traced s url n all_rows); [done..|].
    eapply since_grows; [|done]. by apply traced_grows.
  - destruct (for_each_rows_ok idx s (pending idx s) [r] st)
      as (Hok & _ & Hlen); [by constructor|done|].
    cbn [for_each] in Hok, Hlen. unfold bind in Hok, Hlen.
    destruct (scan_row idx s (pending idx s) r st) as [st1 [[]| |]];
      cbn [fst snd ret] in *; [|done..].
    apply IH; [done..| |].
    + eapply since_grows; [|done]. by apply traced_grows.
    + intros nm' Hnm'. destruct (Hvalid nm' Hnm') as (l' & ? & ?).
      exists l'. by rewrite Hlen.
Qed.

Lemma scan_pages_has_entry (k fuel : nat) (n : Z) (rows : list Tr)
    (row : Tr) (v : Z) (st : State) :
  (k < fuel)%nat →
  (∀ i, (i < k)%nat →
     ∃ rows, data_rows (web (page_url url (n + Z.of_nat i))) = Ok rows ∧
             rows ≠ [] ∧
             Forall (λ row, ∃ nm v, parse_row row = Ok (nm, v)) rows) →
  data_rows (web (page_url url (n + Z.of_nat k))) = Ok rows →
  Forall (λ row, ∃ nm v, parse_row row = Ok (nm, v)) rows →
  row ∈ rows → parse_row row = Ok (nm, v) →
  extends base st →
  (∀ nm, nm ∈ pending idx s →
     ∃ l, character_map idx !! nm = Some l ∧ (l < length (heap st))%nat) →
  has_entry (scan_pages web fuel idx s url (pending idx s) n st).1.
Proof.
  assert (pending idx s ≠ ∅) as Hne by set_solver.
  revert fuel n st.
  induction k as [|k IH]; intros fuel n st Hfuel Hpages Hlast Hwf Hrow Hparse
    Hext Hvalid; (destruct fuel as [|fuel]; [lia|]); rewrite scan_pages_S.
  - rewrite Z.add_0_r in Hlast. rewrite Hlast.
    destruct rows as [|r rows]; [by apply not_elem_of_nil in Hrow|].
    cbn [length Nat.eqb].
    pose proof (browser_get_since (page_url url n) st Hext) as Hsince.
    pose proof (for_each_rows_has_entry n (r :: rows) (r :: rows) row v
                  (browser_get web (page_url url n) st).1 Hlast
                  (λ x Hx, Hx) Hrow Hparse Hwf Hsince Hvalid) as Hentry.
    pose proof (for_each_rows_traced s url n (r :: rows) (r :: rows)
                  (browser_get web (page_url url n) st).1 Hurl Hlast
                  (λ x Hx, Hx) Hsince) as Htr.
    destruct (for_each _ _ _) as [st1 [[]| |]]; cbn [fst] in *; [|done..].
    eapply has_entry_stable; [|done]. apply scan_pages_traced; [done..|].
    eapply extends_grows; [by eapply traced_grows|].
    destruct Hsince as (new & Hnew & _). by exists new.
  - destruct (Hpages 0%nat) as (rows0 & Hrows0 & Hne0 & Hwf0); [lia|].
    rewrite Z.add_0_r in Hrows0. rewrite Hrows0.
    destruct rows0 as [|r0 rows0]; [done|]. cbn [length Nat.eqb].
    pose proof (browser_get_since (page_url url n) st Hext) as Hsince.
    destruct (for_each_rows_ok idx s (pending idx s) (r0 :: rows0)
                (browser_get web (page_url url n) st).1 Hwf0 Hvalid)
      as (Hok & _ & Hlen).
    pose proof (for_each_rows_traced s url n (r0 :: rows0) (r0 :: rows0)
                  (browser_get web (page_url url n) st).1 Hurl Hrows0
                  (λ x Hx, Hx) Hsince) as Htr.
    destruct (for_each _ _ _) as [st1 r]. cbn [fst snd] in *. subst r.
    apply (IH fuel (n + 1) st1); [lia| | |done..| |].
    + intros i Hi. destruct (Hpages (S i)) as (rs & Hrs & ?); [lia|].
      exists rs. split; [|done].
      by replace (n + 1 + Z.of_nat i) with (n + Z.of_nat (S i)) by lia.
    + by replace (n + 1 + Z.of_nat k) with (n + Z.of_nat (S k)) by lia.
    + eapply extends_grows; [by eapply traced_grows|].
      destruct Hsince as (new & Hnew & _). by exists new.
    + intros nm' Hnm'. destruct (Hvalid nm' Hnm') as (l' & ? & ?).
      exists l'. by rewrite Hlen.
Qed.

Lemma scan_skills_has_entry (fuel : nat) (N : Skill.t → nat) (k : nat)
    (rows : list Tr) (row : Tr) (v : Z) (st : State) :
  leaderboards_end web idx N fuel →
  (k < N s)%nat →
  data_rows (web (page_url url (Z.of_nat k))) = Ok rows →
  row ∈ rows → parse_row row = Ok (nm, v) →
  extends base st →
  (∀ s nm, nm ∈ pending idx s →
     ∃ l, character_map idx !! nm = Some l ∧ (l < length (heap st))%nat) →
  has_entry (for_each SKILL_URL_MAP (scan_skill web fuel idx) st).1.
Proof.
  intros Hend Hk Hrows Hrow Hparse Hext Hvalid.
  assert (pending idx s ≠ ∅) as Hne by set_solver.
  destruct (Hend s url Hurl Hne) as [[Hpages _] Hfuel].
  destruct (list_elem_of_split SKILL_URL_MAP (s, url)) as (pre & post & Heq);
    [by apply SKILL_URL_MAP_elem|].
  assert (pre ⊆ SKILL_URL_MAP) as Hpre.
  { rewrite Heq. intros x Hx. apply elem_of_app. by left. }
  assert (post ⊆ SKILL_URL_MAP) as Hpost.
  { rewrite Heq. intros x Hx. apply elem_of_app. right. by right. }
  rewrite Heq, for_each_app. unfold bind.
  destruct (scan_skills_ok web idx fuel N pre st Hpre Hend Hvalid)
    as (Hok & _ & Hlen).
  pose proof (scan_skills_traced fuel pre st Hpre Hext) as Htr.
  destruct (for_each pre _ st) as [st1 r]. cbn [fst snd] in *. subst r.
  assert (extends base st1) as Hext1.
  { eapply extends_grows; [by eapply traced_grows|done]. }
  cbn [for_each]. unfold bind.
  assert (has_entry (scan_skill web fuel idx (s, url) st1).1) as Hst2.
  { rewrite scan_skill_eq. destruct (decide (pending idx s = ∅)); [done|].
    destruct (Hpages k Hk) as (rows' & Hrows' & _ & Hwf).
    rewrite Hrows in Hrows'. injection Hrows' as <-.
    apply (scan_pages_has_entry k fuel 0 rows row v); try done.
    - lia.
    - intros i Hi. apply Hpages. lia.
    - intros nm' Hnm'. destruct (Hvalid s nm' Hnm') as (l' & ? & ?).
      exists l'. by rewrite Hlen. }
  pose proof (scan_skill_traced fuel s url st1
                (SKILL_URL_MAP_elem s url Hurl) Hext1) as Htr2.
  destruct (scan_skill web fuel idx (s, url) st1) as [st2 [[]| |]];
    cbn [fst] in *; [|done..].
  eapply has_entry_stable; [|done].
  apply scan_skills_traced; [done|].
  eapply extends_grows; [by eapply traced_grows|done].
Qed.

End Traced.

Lemma update_skills_traced (web : string → Page) (fuel : nat)
    (characters : list loc) (st : State) (idx : Index) :
  index_of characters st = Ok idx →
  traced web idx (history (browser st)) st
    (update_skills web fuel characters st).1.
Proof.
  intros Hidx. rewrite update_skills_eq, Hidx.
  apply scan_skills_traced; [done|]. exists []. by rewrite app_nil_r.
Qed.

Lemma written_found_last_named (web : string → Page) (P : string → Prop)
    (characters : list loc) (st : State) (idx : Index) (l : loc)
    (s : Skill.t) (v : Z) :
  index_of characters st = Ok idx →
  written_found web idx P l s v →
  ∃ url nm, Py.get SKILL_URL_MAP s = Some url ∧
            last_named (heap st) characters nm = Some l ∧
            named (heap st) nm l ∧
            found web P url nm v.
Proof.
  intros Hidx (url & nm & Hurl & _ & Hl & Hentry).
  rewrite (index_of_character_map _ _ _ _ Hidx) in Hl.
  exists url, nm. repeat split; try done.
  by apply last_named_Some in Hl as [_ ?].
Qed.

(** C10. When several characters of the list share a name, the name index
    holds the last of them; a character with that name other than the last
    one is left as it was; a skill entry of the last one that changed holds
    the value of a row with that name on a leaderboard page fetched in this
    run; the loop body, on a row with that name and a skill for which the
    name is pending, writes the value of the row into the last character
    and nowhere else; and when the leaderboards end, a value found for the
    name, on a row of a page before the last one of the leaderboard of such
    a skill, is written into the last character: it ends with the value of
    a fetched row of that name under that skill, which is the value found
    when the fetched pages have no other value for the name. *)
Theorem duplicate_names_last_wins (web : string → Page) (fuel : nat)
    (pre post : list loc) (l : loc) (nm : string) (st : State) :
  named (heap st) nm l →
  Forall (λ l', ¬ named (heap st) nm l') post →
  let characters := pre ++ l :: post in
  let st' := (update_skills web fuel characters st).1 in
  let fetched_now := since (history (browser st)) st' in
  (∀ idx, index_of characters st = Ok idx →
          character_map idx !! nm = Some l) ∧
  (∀ l', named (heap st) nm l' → l' ≠ l → heap st' !! l' = heap st !! l') ∧
  (∀ c c' s,
      heap st !! l = Some c → heap st' !! l = Some c' →
      Character.skills c' !! s ≠ Character.skills c !! s →
      ∃ url v, Py.get SKILL_URL_MAP s = Some url ∧
               Character.skills c' !! s = Some v ∧
               found web fetched_now url nm v) ∧
  (∀ idx s row v st1 c,
      index_of characters st = Ok idx →
      nm ∈ pending idx s →
      parse_row row = Ok (nm, v) →
      heap st1 !! l = Some c →
      scan_row idx s (pending idx s) row st1 =
        ({| heap := <[l := Character.set_skill s v c]> (heap st1);
            browser := browser st1; outputs := outputs st1 |}, Ok tt)) ∧
  (∀ idx N s url k rows row v,
      index_of characters st = Ok idx →
      leaderboards_end web idx N fuel →
      Py.get SKILL_URL_MAP s = Some url →
      nm ∈ pending idx s →
      (k < N s)%nat →
      data_rows (web (page_url url (Z.of_nat k))) = Ok rows →
      row ∈ rows →
      parse_row row = Ok (nm, v) →
      (update_skills web fuel characters st).2 = Ok tt ∧
      ∃ c' v',
        heap st' !! l = Some c' ∧
        Character.skills c' !! s = Some v' ∧
        found web fetched_now url nm v' ∧
        ((∀ v'', found web fetched_now url nm v'' → v'' = v) → v' = v)).
Proof.
  intros Hl Hpost characters st' fetched_now.
  pose proof (last_named_split (heap st) pre post nm l Hl Hpost) as Hlast.
  fold characters in Hlast.
  split; [|split; [|split; [|split]]].
  - intros idx Hidx. by rewrite (index_of_character_map _ _ _ _ Hidx).
  - intros l' Hl' Hne. subst st'.
    destruct (update_skills_cases web fuel characters st)
      as [->|(idx & Hidx & [_ _ Hlen Hheap _])]; [done|].
    destruct (heap st !! l') as [c|] eqn:Hc.
    + destruct (Hheap l' c Hc) as (c' & -> & Hn & Hp & Hlv & Hs).
      f_equal. apply character_eq; try done.
      intros s. destruct (Hs s) as [?|(v & _ & Hw)]; [done|].
      destruct (written_last_named _ _ _ _ _ _ _ Hidx Hw)
        as (url & nm' & _ & Hlast' & Hnamed' & _).
      rewrite <- (named_inj _ _ _ _ Hl' Hnamed') in Hlast'.
      rewrite Hlast in Hlast'. by injection Hlast'.
    + apply lookup_ge_None in Hc. rewrite <- Hlen in Hc.
      by apply lookup_ge_None in Hc.
  - intros c c' s Hc Hc' Hdiff. subst st' fetched_now.
    destruct (index_of characters st) as [idx| |] eqn:Hidx.
    2,3: rewrite (update_skills_no_index web fuel characters st) in Hc'
           by (intros idx; by rewrite Hidx);
         rewrite Hc in Hc'; by injection Hc' as ->.
    destruct (update_skills_traced web fuel characters st idx Hidx)
      as [_ _ _ Hheap _].
    destruct (Hheap l c Hc) as (c'' & Hc'' & _ & _ & _ & Hs).
    rewrite Hc' in Hc''. injection Hc'' as <-.
    destruct (Hs s) as [?|(v & Hv & Hw)]; [done|].
    destruct (written_found_last_named _ _ _ _ _ _ _ _ Hidx Hw)
      as (url & nm' & Hurl & _ & Hnamed' & Hentry).
    rewrite <- (named_inj _ _ _ _ Hl Hnamed') in Hentry. by exists url, v.
  - intros idx s row v st1 c Hidx Hpending Hparse Hc.
    rewrite scan_row_eq, Hparse.
    destruct (decide (nm ∈ pending idx s)); [|done].
    rewrite (index_of_character_map _ _ _ _ Hidx), Hlast.
    unfold store_skill. by rewrite Hc.
  - intros idx N s url k rows row v Hidx Hend Hurl Hpending Hk Hrows Hrow
      Hparse.
    split; [by apply (update_skills_ok web fuel characters st idx N)|].
    assert (character_map idx !! nm = Some l) as Hmap.
    { by rewrite (index_of_character_map _ _ _ _ Hidx). }
    assert (∀ nm', character_map idx !! nm' = Some l → nm' = nm) as Hinj.
    { intros nm' Hnm'.
      rewrite (index_of_character_map _ _ _ nm' Hidx) in Hnm'.
      apply last_named_Some in Hnm' as [_ Hn']. by eapply named_inj. }
    subst st' fetched_now. rewrite update_skills_eq, Hidx.
    destruct (scan_skills_has_entry web idx (history (browser st)) l s url nm
                Hurl Hpending Hmap Hinj fuel N k rows row v st Hend Hk Hrows
                Hrow Hparse)
      as (c' & v' & Hc' & Hv' & Hentry).
    { exists []. by rewrite app_nil_r. }
    { intros s' nm' Hnm'. by eapply pending_character_map. }
    exists c', v'. repeat split; try done. intros Huniq. by apply Huniq.
Qed.

(** * The scenario of the specification *)

(** A leaderboard page: a table of class [gunz-table] with a header row and
    one row per entry: the rank, the name inside a link, the value. *)
Definition link (s : string) : Td := {| td_text := s; td_a := Some s |}.

Definition leaderboard_page (entries : list (string * string)) : Page :=
  [ {| table_id := ""; table_class := ["gunz-table"];
       table_tbody :=
         Some ([cell "#"; cell "Name"; cell "Value"]
               :: map (λ e, [cell "1"; link e.1; cell e.2]) entries) |} ].

Definition listing_page (rows : list (string * string * string)) : Page :=
  [ {| table_id := "sellCharList"; table_class := [];
       table_tbody :=
         Some (map (λ r, [cell r.1.1; cell r.1.2; cell r.2]) rows) |} ].

(** Two auctions; Aria on page 0 of the Sword leaderboard, Bo on page 0 of
    the Magic leaderboard; every other leaderboard page has no data row. *)
Definition scenario (url : string) : Page :=
  if decide (url = AUCTIONS_URL_TEMPLATE) then
    listing_page [ ("Aria", "120 Elite Knight", "5000 gold");
                   ("Bo", "80 Master Sorcerer", "2000 gold") ]
  else if decide
    (url = "https://www.ezodus.net/charts/highscores/sword/knight/0") then
    leaderboard_page [("Aria", "450")]
  else if decide
    (url = "https://www.ezodus.net/charts/highscores/magic/all/0") then
    leaderboard_page [("Bo", "300")]
  else leaderboard_page [].

(** The state the collector leaves on the scenario, and the number of pages
    with data rows of each leaderboard. *)
Definition collected : State := (find_auctions scenario initial).1.

Definition scenario_index : Index :=
  match index_of [0; 1]%nat collected with
  | Ok idx => idx
  | _ => empty_index
  end.

Definition scenario_pages (skill : Skill.t) : nat :=
  match skill with
  | SWORD | MAGIC => 1
  | _ => 0
  end.

Lemma scenario_index_of : index_of [0; 1]%nat collected = Ok scenario_index.
Proof. vm_compute. reflexivity. Defined.

Lemma scenario_leaderboards_end (idx : Index) :
  leaderboards_end scenario idx scenario_pages 2.
Proof.
  intros skill url Hurl _.
  destruct skill; vm_compute in Hurl; injection Hurl as <-;
    cbn [scenario_pages];
    (split; [split; [intros k Hk|vm_compute; reflexivity]|lia]); try lia.
  - assert (k = 0%nat) as -> by lia.
    exists [[cell "1"; link "Bo"; cell "300"]].
    split; [vm_compute; reflexivity|]. split; [discriminate|].
    constructor; [|constructor]. exists "Bo", 300. vm_compute. reflexivity.
  - assert (k = 0%nat) as -> by lia.
    exists [[cell "1"; link "Aria"; cell "450"]].
    split; [vm_compute; reflexivity|]. split; [discriminate|].
    constructor; [|constructor]. exists "Aria", 450. vm_compute. reflexivity.
Defined.

Lemma pagination_fetches_witness :
  (update_skills scenario 2 [0; 1]%nat collected).2 = Ok tt ∧
  ∃ new,
    history (browser (update_skills scenario 2 [0; 1]%nat collected).1)
      = history (browser collected) ++ new ∧
    ∀ skill url,
      Py.get SKILL_URL_MAP skill = Some url →
      pending scenario_index skill ≠ ∅ →
      length (pages url (scenario_pages skill)) = S (scenario_pages skill) ∧
      ∃ before after,
        new = before ++ pages url (scenario_pages skill) ++ after ∧
        ∀ u n, u ∈ before ++ after → u ≠ page_url url n.
Proof.
  apply (pagination_fetches scenario 2 [0; 1]%nat collected scenario_index
           scenario_pages).
  - exact scenario_index_of.
  - exact (scenario_leaderboards_end scenario_index).
Defined.

Lemma no_fetch_without_pending_witness :
  ∃ new,
    history (browser (update_skills scenario 2 [0; 1]%nat collected).1)
      = history (browser collected) ++ new ∧
    ∀ n,
      page_url "https://www.ezodus.net/charts/highscores/distance/all/{page}" n
        ∉ new.
Proof.
  apply (no_fetch_without_pending scenario 2 [0; 1]%nat collected DISTANCE).
  - reflexivity.
  - intros idx Hidx. rewrite scenario_index_of in Hidx.
    injection Hidx as <-. vm_compute. reflexivity.
Defined.

(** Two characters with one name: a knight, then a druid. *)
Definition twins : State :=
  {| heap := [ Character.mk "Aria" KNIGHT 120 ∅;
               Character.mk "Aria" DRUID 30 ∅ ];
     browser := Firefox; outputs := [] |}.

Lemma duplicate_names_last_wins_witness :
  let characters := [0%nat] ++ 1%nat :: [] in
  let st' := (update_skills scenario 2 characters twins).1 in
  let fetched_now := since (history (browser twins)) st' in
  (∀ idx, index_of characters twins = Ok idx →
          character_map idx !! "Aria" = Some 1%nat) ∧
  (∀ l', named (heap twins) "Aria" l' → l' ≠ 1%nat →
         heap st' !! l' = heap twins !! l') ∧
  (∀ c c' s,
      heap twins !! 1%nat = Some c → heap st' !! 1%nat = Some c' →
      Character.skills c' !! s ≠ Character.skills c !! s →
      ∃ url v, Py.get SKILL_URL_MAP s = Some url ∧
               Character.skills c' !! s = Some v ∧
               found scenario fetched_now url "Aria" v) ∧
  (∀ idx s row v st1 c,
      index_of characters twins = Ok idx →
      "Aria" ∈ pending idx s →
      parse_row row = Ok ("Aria", v) →
      heap st1 !! 1%nat = Some c →
      scan_row idx s (pending idx s) row st1 =
        ({| heap := <[1%nat := Character.set_skill s v c]> (heap st1);
            browser := browser st1; outputs := outputs st1 |}, Ok tt)) ∧
  (∀ idx N s url k rows row v,
      index_of characters twins = Ok idx →
      leaderboards_end scenario idx N 2 →
      Py.get SKILL_URL_MAP s = Some url →
      "Aria" ∈ pending idx s →
      (k < N s)%nat →
      data_rows (scenario (page_url url (Z.of_nat k))) = Ok rows →
      row ∈ rows →
      parse_row row = Ok ("Aria", v) →
      (update_skills scenario 2 characters twins).2 = Ok tt ∧
      ∃ c' v',
        heap st' !! 1%nat = Some c' ∧
        Character.skills c' !! s = Some v' ∧
        found scenario fetched_now url "Aria" v' ∧
        ((∀ v'', found scenario fetched_now url "Aria" v'' → v'' = v) →
         v' = v)).
Proof.
  apply (duplicate_names_last_wins scenario 2 [0%nat] [] 1%nat "Aria" twins).
  - reflexivity.
  - constructor.
Defined.

(** On the twins the Sword value of the name goes to the druid, the last of
    the two, and the knight keeps an empty mapping. *)
Example twins_enriched :
  (update_skills scenario 2 [0; 1]%nat twins).2 = Ok tt ∧
  heap (update_skills scenario 2 [0; 1]%nat twins).1
    = [ Character.mk "Aria" KNIGHT 120 ∅;
        Character.mk "Aria" DRUID 30 {[ SWORD := 450 ]} ].
Proof. split; vm_compute; reflexivity. Qed.

(** * Missing skills *)

(** The column of a skill in an exported row. *)
Definition skill_column (skill : Skill.t) : nat :=
  match skill with
  | SWORD => 4
  | AXE => 5
  | CLUB => 6
  | DISTANCE => 7
  | MAGIC => 8
  | SHIELDING => 9
  end.

Lemma map_auction_skill_column (auction : Auction.t) (st : State)
    (c : Character.t) (skill : Skill.t) :
  heap st !! Auction.character auction = Some c →
  ∃ row, (map_auction auction st).2 = Ok row ∧
         row !! skill_column skill
           = Some (skill_cell (Character.skills c) skill).
Proof.
  intros Hc. rewrite map_auction_eq, Hc. eexists. split; [done|].
  by destruct skill.
Qed.

(** Some data row of some page of the leaderboard at [url] has the name
    [nm] in the link of its name cell. *)
Definition on_leaderboard (web : string → Page) (url nm : string) : Prop :=
  ∃ n rows row,
    data_rows (web (page_url url n)) = Ok rows ∧ row ∈ rows ∧
    a_text_of row HIGHSCORES_NAME_ID = Ok nm.

Lemma leaderboard_entry_name (web : string → Page) (url nm : string) (v : Z) :
  leaderboard_entry web url nm v → on_leaderboard web url nm.
Proof.
  intros (n & rows & row & Hrows & Hrow & Hparse).
  exists n, rows, row. split; [done|]. split; [done|].
  unfold parse_row in Hparse.
  destruct (a_text_of row HIGHSCORES_NAME_ID) as [name| |]; [|done..].
  cbn [rbind] in Hparse.
  destruct (text_of row HIGHSCORES_VALUE_ID) as [t| |]; [|done..].
  cbn [rbind] in Hparse.
  destruct (Py.int t); [|done..]. cbn [rbind] in Hparse. congruence.
Qed.

(** C6, as amended.  A character whose name is on no data row of the
    leaderboard of a skill, and who has no value for that skill yet, has
    none after enrichment, however enrichment ends, and its exported row has
    the null cell in the column of that skill; and enrichment returns
    normally when the leaderboards it visits end and their data rows have a
    name in a link and a number as their value. *)
Theorem missing_skill_is_not_an_error (web : string → Page) (fuel : nat)
    (characters : list loc) (st : State) (l : loc) (c : Character.t)
    (skill : Skill.t) (url : string) (price : Z) :
  heap st !! l = Some c →
  Py.get SKILL_URL_MAP skill = Some url →
  ¬ on_leaderboard web url (Character.name c) →
  Character.skills c !! skill = None →
  let st' := (update_skills web fuel characters st).1 in
  (∃ c', heap st' !! l = Some c' ∧
         Character.skills c' !! skill = None ∧
         ∃ row, (map_auction (Auction.mk l price) st').2 = Ok row ∧
                row !! skill_column skill = Some VNone) ∧
  (∀ idx N,
     index_of characters st = Ok idx →
     leaderboards_end web idx N fuel →
     (update_skills web fuel characters st).2 = Ok tt).
Proof.
  intros Hc Hurl Hno Hskill st'. split.
  - assert (∃ c', heap st' !! l = Some c' ∧
                  Character.skills c' !! skill = None)
      as (c' & Hc' & Hnone).
    { subst st'.
      destruct (update_skills_cases web fuel characters st)
        as [->|(idx & Hidx & [_ _ _ Hheap _])]; [by exists c|].
      destruct (Hheap l c Hc) as (c' & Hc' & Hname & _ & _ & Hs).
      exists c'. split; [done|].
      destruct (Hs skill) as [Heq|(v & _ & Hw)]; [by rewrite Heq|].
      destruct (written_last_named _ _ _ _ _ _ _ Hidx Hw)
        as (url' & nm & Hurl' & _ & Hnamed & Hentry).
      rewrite Hurl in Hurl'. injection Hurl' as <-.
      unfold named in Hnamed. rewrite Hc in Hnamed. injection Hnamed as <-.
      destruct Hno. by eapply leaderboard_entry_name. }
    exists c'. split; [done|]. split; [done|].
    destruct (map_auction_skill_column (Auction.mk l price) st' c' skill Hc')
      as (row & Hrow & Hcell).
    exists row. split; [done|].
    rewrite Hcell. unfold skill_cell. by rewrite Hnone.
  - intros idx N Hidx Hend.
    by apply (update_skills_ok web fuel characters st idx N).
Qed.



(** The Magic leaderboard of the scenario has no row for Aria. *)
Lemma scenario_magic_no_Aria :
  ¬ on_leaderboard scenario
      "https://www.ezodus.net/charts/highscores/magic/all/{page}" "Aria".
Proof.
  intros (n & rows & row & Hrows & Hin & Hrow).
  rewrite (page_url_app MAGIC) in Hrows by reflexivity.
  change (Py.replace "{page}" "" _)
    with "https://www.ezodus.net/charts/highscores/magic/all/" in Hrows.
  revert Hrows. generalize (Py.str n). intros s Hrows.
  unfold scenario in Hrows.
  destruct (decide _) as [Heq|_] in Hrows; [discriminate Heq|].
  destruct (decide _) as [Heq|_] in Hrows; [discriminate Heq|].
  destruct (decide _) as [_|_] in Hrows;
    vm_compute in Hrows; injection Hrows as <-.
  - apply list_elem_of_singleton in Hin as ->.
    vm_compute in Hrow. discriminate Hrow.
  - by apply not_elem_of_nil in Hin.
Defined.

Definition twins_index : Index :=
  match index_of [0; 1]%nat twins with
  | Ok idx => idx
  | _ => empty_index
  end.

Lemma missing_skill_is_not_an_error_witness :
  let st' := (update_skills scenario 2 [0; 1]%nat twins).1 in
  (∃ c', heap st' !! 1%nat = Some c' ∧
         Character.skills c' !! MAGIC = None ∧
         ∃ row, (map_auction (Auction.mk 1 900) st').2 = Ok row ∧
                row !! skill_column MAGIC = Some VNone) ∧
  (∀ idx N,
     index_of [0; 1]%nat twins = Ok idx →
     leaderboards_end scenario idx N 2 →
     (update_skills scenario 2 [0; 1]%nat twins).2 = Ok tt).
Proof.
  apply (missing_skill_is_not_an_error scenario 2 [0; 1]%nat twins 1%nat
           (Character.mk "Aria" DRUID 30 ∅) MAGIC
           "https://www.ezodus.net/charts/highscores/magic/all/{page}" 900).
  - reflexivity.
  - reflexivity.
  - exact scenario_magic_no_Aria.
  - reflexivity.
Defined.

(** * The exporter *)

(** The references of [auctions] are valid in [st]. *)
Definition valid_auctions (auctions : list Auction.t) (st : State) : Prop :=
  Forall (λ a, is_Some (heap st !! Auction.character a)) auctions.

(** What the sinks receive for the frame [df]. *)
Definition sinks (excel_file csv_file : option string) (df : DataFrame)
    : list Output :=
  (if Py.truthy excel_file then [to_excel (default "" excel_file) df] else [])
  ++ (if Py.truthy csv_file then [to_csv (default "" csv_file) df] else [])
  ++ (if negb (Py.truthy csv_file) && negb (Py.truthy excel_file)
      then [print df] else []).

(** The row [map_auction] gives for a character and a price. *)
Definition exported_row (c : Character.t) (price : Z) : list Value :=
  [ VStr (Character.name c);
    VInt price;
    VStr (Profession.name (Character.profession c));
    VInt (Character.lvl c);
    skill_cell (Character.skills c) SWORD;
    skill_cell (Character.skills c) AXE;
    skill_cell (Character.skills c) CLUB;
    skill_cell (Character.skills c) DISTANCE;
    skill_cell (Character.skills c) MAGIC;
    skill_cell (Character.skills c) SHIELDING ].

Lemma comprehension_map_auction_cons (a : Auction.t)
    (auctions : list Auction.t) (st : State) :
  comprehension map_auction (a :: auctions) st =
  match heap st !! Auction.character a with
  | Some c =>
      match comprehension map_auction auctions st with
      | (st', Ok rows) => (st', Ok (exported_row c (Auction.price a) :: rows))
      | (st', Raise e) => (st', Raise e)
      | (st', Diverge) => (st', Diverge)
      end
  | None => (st, Raise InvalidReference)
  end.
Proof.
  cbn [comprehension]. unfold bind. rewrite map_auction_eq.
  destruct (heap st !! Auction.character a); [|done].
  by destruct (comprehension map_auction auctions st) as [? []].
Qed.

Lemma comprehension_map_auction (auctions : list Auction.t) (st : State) :
  (comprehension map_auction auctions st).1 = st ∧
  ∀ rows, (comprehension map_auction auctions st).2 = Ok rows →
    length rows = length auctions ∧
    Forall (λ row, length row = 10%nat) rows ∧
    ∀ i a, auctions !! i = Some a →
      ∃ c, heap st !! Auction.character a = Some c ∧
           rows !! i = Some (exported_row c (Auction.price a)).
Proof.
  induction auctions as [|a auctions [IHst IH]].
  - split; [done|]. intros rows [= <-]. split; [done|]. split; [done|].
    intros i a Hi. by rewrite lookup_nil in Hi.
  - rewrite comprehension_map_auction_cons.
    destruct (heap st !! Auction.character a) as [c|] eqn:Hc; [|done].
    destruct (comprehension map_auction auctions st) as [st1 r].
    cbn [fst snd] in *. subst st1.
    destruct r as [rows'| |]; [|done..].
    split; [done|]. intros rows [= <-].
    destruct (IH rows' eq_refl) as (Hlen & Hall & Hrows).
    split; [by cbn; rewrite Hlen|]. split; [by constructor|].
    intros [|i] a' Hi.
    + injection Hi as <-. by exists c.
    + by apply Hrows.
Qed.

Lemma comprehension_map_auction_ok (auctions : list Auction.t) (st : State) :
  valid_auctions auctions st →
  ∃ rows, (comprehension map_auction auctions st).2 = Ok rows.
Proof.
  induction 1 as [|a auctions [c Hc] _ [rows IH]]; [by eexists|].
  rewrite comprehension_map_auction_cons, Hc.
  destruct (comprehension map_auction auctions st) as [st1 r].
  cbn in IH. subst r. by eexists.
Qed.

Lemma pd_DataFrame_ok (rows : list (list Value)) :
  Forall (λ row, length row = 10%nat) rows →
  pd_DataFrame rows headers = Ok {| columns := headers; data := rows |}.
Proof.
  intros Hall. unfold pd_DataFrame.
  replace (forallb _ rows) with true; [done|].
  symmetry. apply forallb_forall. intros row Hrow.
  apply Forall_forall with (x := row) in Hall; [|by apply list_elem_of_In].
  rewrite Hall. done.
Qed.

Lemma save_auctions_to_eq (auctions : list Auction.t)
    (excel_file csv_file : option string) (st : State)
    (rows : list (list Value)) :
  (comprehension map_auction auctions st).2 = Ok rows →
  save_auctions_to auctions excel_file csv_file st =
  ({| heap := heap st; browser := browser st;
      outputs := outputs st
        ++ sinks excel_file csv_file {| columns := headers; data := rows |} |},
   Ok tt).
Proof.
  intros Hrows.
  destruct (comprehension_map_auction auctions st) as [Hst Hshape].
  destruct (Hshape rows Hrows) as (_ & Hall & _).
  unfold save_auctions_to. unfold bind at 1.
  destruct (comprehension map_auction auctions st) as [st1 r].
  cbn [fst snd] in *. subst st1 r.
  rewrite (bind_lift_Ok _ _ _ _ (pd_DataFrame_ok rows Hall)).
  unfold sinks, when, bind, emit, ret.
  destruct st as [h b o].
  destruct (Py.truthy excel_file), (Py.truthy csv_file); cbn;
    rewrite <- ?app_assoc, ?app_nil_r; done.
Qed.

(** C8. For auctions with valid references the exporter returns and hands
    its sinks one frame: the columns are name, price, profession, lvl,
    sword, axe, club, dist, magic, shielding; there is one row per auction,
    in the order of the auctions; a row holds the name, the price, the name
    of the profession's enumeration member, which is never its display
    value, the level and the six skill cells in the order of the columns. *)
Theorem exporter_shape (auctions : list Auction.t)
    (excel_file csv_file : option string) (st : State) :
  valid_auctions auctions st →
  ∃ rows,
    save_auctions_to auctions excel_file csv_file st =
      ({| heap := heap st; browser := browser st;
          outputs := outputs st
            ++ sinks excel_file csv_file
                 {| columns :=
                      ["name"; "price"; "profession"; "lvl"; "sword"; "axe";
                       "club"; "dist"; "magic"; "shielding"];
                    data := rows |} |},
       Ok tt) ∧
    length rows = length auctions ∧
    (∀ i a, auctions !! i = Some a →
       ∃ c, heap st !! Auction.character a = Some c ∧
            rows !! i =
              Some [ VStr (Character.name c);
                     VInt (Auction.price a);
                     VStr (Profession.name (Character.profession c));
                     VInt (Character.lvl c);
                     skill_cell (Character.skills c) SWORD;
                     skill_cell (Character.skills c) AXE;
                     skill_cell (Character.skills c) CLUB;
                     skill_cell (Character.skills c) DISTANCE;
                     skill_cell (Character.skills c) MAGIC;
                     skill_cell (Character.skills c) SHIELDING ]) ∧
    ∀ p, Profession.name p ≠ Profession.value p.
Proof.
  intros Hvalid.
  destruct (comprehension_map_auction_ok auctions st Hvalid) as [rows Hrows].
  destruct (comprehension_map_auction auctions st) as [_ Hshape].
  destruct (Hshape rows Hrows) as (Hlen & _ & Hith).
  exists rows. split; [by apply save_auctions_to_eq|].
  split; [done|]. split.
  - intros i a Hi. destruct (Hith i a Hi) as (c & Hc & Hrow).
    by exists c.
  - by intros [].
Qed.

Lemma exporter_shape_witness :
  ∃ rows,
    save_auctions_to [Auction.mk 0 5000; Auction.mk 1 2000] None None
        collected =
      ({| heap := heap collected; browser := browser collected;
          outputs := outputs collected
            ++ sinks None None
                 {| columns :=
                      ["name"; "price"; "profession"; "lvl"; "sword"; "axe";
                       "club"; "dist"; "magic"; "shielding"];
                    data := rows |} |},
       Ok tt) ∧
    length rows = length [Auction.mk 0 5000; Auction.mk 1 2000] ∧
    (∀ i a, [Auction.mk 0 5000; Auction.mk 1 2000] !! i = Some a →
       ∃ c, heap collected !! Auction.character a = Some c ∧
            rows !! i =
              Some [ VStr (Character.name c);
                     VInt (Auction.price a);
                     VStr (Profession.name (Character.profession c));
                     VInt (Character.lvl c);
                     skill_cell (Character.skills c) SWORD;
                     skill_cell (Character.skills c) AXE;
                     skill_cell (Character.skills c) CLUB;
                     skill_cell (Character.skills c) DISTANCE;
                     skill_cell (Character.skills c) MAGIC;
                     skill_cell (Character.skills c) SHIELDING ]) ∧
    ∀ p, Profession.name p ≠ Profession.value p.
Proof.
  apply (exporter_shape [Auction.mk 0 5000; Auction.mk 1 2000] None None
           collected).
  repeat constructor; by eexists.
Defined.

(** * Shielding *)

(** The frame an output holds. *)
Definition frame (o : Output) : DataFrame :=
  match o with
  | to_excel _ df | to_csv _ df | print df => df
  end.

(** No character has a Shielding value, no page of the Shielding
    leaderboard was fetched, and every row written out has the null cell in
    the shielding column. *)
Record shielding_free (st : State) : Prop := {
  sf_heap : ∀ l c, heap st !! l = Some c →
                   Character.skills c !! SHIELDING = None;
  sf_history : ∀ url n, Py.get SKILL_URL_MAP SHIELDING = Some url →
                        page_url url n ∉ history (browser st);
  sf_outputs : ∀ o row, o ∈ outputs st → row ∈ data (frame o) →
                        row !! skill_column SHIELDING = Some VNone
}.

Section Invariant.

Variable P : State → Prop.

Lemma bind_inv {A B} (m : M A) (k : A → M B) (st : State) :
  P (m st).1 → (∀ a st', P st' → P (k a st').1) → P ((x <- m ; k x) st).1.
Proof.
  intros Hm Hk. unfold bind. destruct (m st) as [st1 [a| |]]; cbn in *;
    auto.
Qed.

Lemma lift_inv {A} (r : result A) (st : State) : P st → P (lift r st).1.
Proof. done. Qed.

Lemma comprehension_inv {A B} (f : A → M B) (l : list A) (st : State) :
  (∀ x st', P st' → P (f x st').1) → P st → P (comprehension f l st).1.
Proof.
  intros Hf. revert st. induction l as [|x l IH]; intros st Hst; [done|].
  cbn [comprehension]. apply bind_inv; [by apply Hf|].
  intros y st1 Hst1. apply bind_inv; [by apply IH|]. done.
Qed.

End Invariant.

Lemma shielding_not_applicable (p : Profession.t) : SHIELDING ∉ applicable p.
Proof. destruct p; apply (bool_decide_unpack _); vm_compute; exact I. Qed.

Lemma pending_shielding (characters : list loc) (st : State) (idx : Index) :
  index_of characters st = Ok idx → pending idx SHIELDING = ∅.
Proof.
  intros Hidx. apply set_eq. intros nm. split; [|set_solver].
  intros Hnm. apply (index_of_pending _ _ _ _ _ Hidx) in Hnm
    as (l & c & _ & _ & _ & Hs).
  by apply shielding_not_applicable in Hs.
Qed.

Lemma new_Character_shielding_free (name : string) (p : Profession.t)
    (lvl : Z) (st : State) :
  shielding_free st → shielding_free (new_Character name p lvl st).1.
Proof.
  intros [Hh Hy Ho]. split; cbn; [|done..].
  intros l c Hl. apply lookup_app_Some in Hl as [Hl|[_ Hl]]; [eauto|].
  apply list_lookup_singleton_Some in Hl as [_ <-]. done.
Qed.

Lemma create_shielding_free (row : Tr) (st : State) :
  shielding_free st → shielding_free (Auction.create row st).1.
Proof.
  intros Hst. unfold Auction.create.
  repeat (apply bind_inv; [by auto using lift_inv|]; intros ? ? ?).
  apply bind_inv; [by apply new_Character_shielding_free|]. intros ? ? ?.
  repeat (apply bind_inv; [by auto using lift_inv|]; intros ? ? ?).
  done.
Qed.

Lemma shielding_page_not_listing (url : string) (n : Z) :
  Py.get SKILL_URL_MAP SHIELDING = Some url →
  page_url url n ≠ AUCTIONS_URL_TEMPLATE.
Proof.
  intros Hurl. rewrite (page_url_app SHIELDING) by done.
  injection Hurl as <-. generalize (Py.str n). intros s.
  change (Py.replace "{page}" "" _)
    with "https://www.ezodus.net/charts/highscores/shielding/all/".
  discriminate.
Qed.

Lemma find_auctions_shielding_free (web : string → Page) (st : State) :
  shielding_free st → shielding_free (find_auctions web st).1.
Proof.
  intros [Hh Hy Ho]. unfold find_auctions.
  apply bind_inv.
  { split; cbn; [done| |done]. intros url n Hurl Hin.
    apply elem_of_app in Hin as [Hin|Hin]; [by eapply Hy|].
    apply list_elem_of_singleton in Hin.
    by eapply shielding_page_not_listing. }
  intros _ st1 Hst1. apply bind_inv; [done|]. intros table st2 Hst2.
  apply bind_inv; [done|]. intros rows st3 Hst3.
  apply comprehension_inv; [|done]. intros row st4.
  apply create_shielding_free.
Qed.

Lemma update_skills_shielding_free (web : string → Page) (fuel : nat)
    (characters : list loc) (st : State) :
  shielding_free st →
  shielding_free (update_skills web fuel characters st).1.
Proof.
  intros [Hh Hy Ho].
  destruct (update_skills_cases web fuel characters st)
    as [->|(idx & Hidx & [Hout _ Hlen Hheap (new & Hhist & Hnew)])];
    [done|].
  pose proof (pending_shielding characters st idx Hidx) as Hpending.
  split.
  - intros l c' Hc'.
    destruct (heap st !! l) as [c|] eqn:Hc.
    + destruct (Hheap l c Hc) as (c'' & Hc'' & _ & _ & _ & Hs).
      rewrite Hc' in Hc''. injection Hc'' as <-.
      destruct (Hs SHIELDING) as [->|(v & _ & url & nm & _ & Hnm & _)];
        [by eapply Hh|].
      rewrite Hpending in Hnm. by apply not_elem_of_empty in Hnm.
    + apply lookup_ge_None in Hc. rewrite <- Hlen in Hc.
      apply lookup_ge_None in Hc. by rewrite Hc in Hc'.
  - intros url n Hurl Hin. rewrite Hhist in Hin.
    apply elem_of_app in Hin as [Hin|Hin]; [by eapply Hy|].
    rewrite Forall_forall in Hnew.
    apply (fetched_other_skill idx SHIELDING url n); [done..|].
    by apply Hnew.
  - by rewrite Hout.
Qed.

Lemma save_auctions_to_shielding_free (auctions : list Auction.t)
    (excel_file csv_file : option string) (st : State) :
  shielding_free st →
  shielding_free (save_auctions_to auctions excel_file csv_file st).1.
Proof.
  intros [Hh Hy Ho].
  destruct (comprehension_map_auction auctions st) as [Hst Hshape].
  destruct ((comprehension map_auction auctions st).2) as [rows| |] eqn:Hrows.
  - rewrite (save_auctions_to_eq _ _ _ _ rows Hrows).
    destruct (Hshape rows eq_refl) as (Hlen & _ & Hith).
    split; cbn; [done..|]. intros o row Ho' Hrow.
    apply elem_of_app in Ho' as [Ho'|Ho']; [by eapply Ho|].
    assert (frame o = {| columns := headers; data := rows |}) as Hframe.
    { unfold sinks in Ho'.
      repeat case_match; set_unfold; naive_solver. }
    rewrite Hframe in Hrow. cbn in Hrow.
    apply list_elem_of_lookup in Hrow as [i Hi].
    destruct (lookup_lt_is_Some_2 auctions i) as [a Ha].
    { rewrite <- Hlen. by eapply lookup_lt_Some. }
    destruct (Hith i a Ha) as (c & Hc & Hrow). rewrite Hi in Hrow.
    injection Hrow as ->. cbn. unfold skill_cell.
    by rewrite (Hh _ _ Hc).
  - unfold save_auctions_to. unfold bind at 1.
    destruct (comprehension map_auction auctions st) as [st1 r].
    cbn in Hst, Hrows. subst st1 r. done.
  - unfold save_auctions_to. unfold bind at 1.
    destruct (comprehension map_auction auctions st) as [st1 r].
    cbn in Hst, Hrows. subst st1 r. done.
Qed.

Lemma main_state (web : string → Page) (fuel : nat) (st : State) :
  let body :=
    (auctions <- find_auctions web ;
     _ <- update_skills web fuel (map (λ a, Auction.character a) auctions) ;
     save_auctions_to auctions (Some "auctions.xlsx") (Some "auctions.csv")) in
  main web fuel st =
  match (body st).2 with
  | Diverge => body st
  | r => ((browser_quit (body st).1).1, r)
  end.
Proof.
  intros body. unfold main, try_finally. fold body.
  by destruct (body st) as [st1 [[]| |]].
Qed.

(** C7. No profession has Shielding among its skills and the pending set of
    Shielding is empty in every index; whatever the site and however long
    the run, [main] ends in a state where no character has a Shielding
    value, no page of the Shielding leaderboard was fetched, and every row
    written out has the null cell in the shielding column. *)
Theorem shielding_never_enriched :
  (∀ p, SHIELDING ∉ applicable p) ∧
  (∀ characters st idx,
     index_of characters st = Ok idx → pending idx SHIELDING = ∅) ∧
  ∀ (web : string → Page) (fuel : nat),
    shielding_free (main web fuel initial).1.
Proof.
  split; [exact shielding_not_applicable|].
  split; [exact pending_shielding|].
  intros web fuel. rewrite main_state. cbn zeta.
  assert (shielding_free initial) as Hinit.
  { split; cbn; [|set_solver..]. intros l c Hl.
    by rewrite lookup_nil in Hl. }
  match goal with
  | |- context [match (?body initial).2 with _ => _ end] =>
      assert (shielding_free (body initial).1) as Hbody;
        [|destruct (body initial) as [s [[]| |]]; cbn [fst snd] in *;
          [destruct Hbody; by split..|done]]
  end.
  apply bind_inv; [by apply find_auctions_shielding_free|].
  intros auctions st1 Hst1.
  apply bind_inv; [by apply update_skills_shielding_free|].
  intros _ st2 Hst2. by apply save_auctions_to_shielding_free.
Qed.

(** * The end-to-end scenario *)

(** C1. On the scenario, [main] with room for two pages per leaderboard
    returns normally, closes the browser and writes one frame to the
    spreadsheet and to the delimited file; the frame has the two rows
    Aria, 5000, KNIGHT, 120 with 450 under sword, and Bo, 2000, SORCERER, 80
    with 300 under magic, in that order, every other skill cell null. *)
Theorem end_to_end_scenario (k : nat) :
  let df :=
    {| columns :=
         ["name"; "price"; "profession"; "lvl"; "sword"; "axe"; "club";
          "dist"; "magic"; "shielding"];
       data :=
         [ [ VStr "Aria"; VInt 5000; VStr "KNIGHT"; VInt 120;
             VInt 450; VNone; VNone; VNone; VNone; VNone ];
           [ VStr "Bo"; VInt 2000; VStr "SORCERER"; VInt 80;
             VNone; VNone; VNone; VNone; VInt 300; VNone ] ] |} in
  (main scenario (S (S k)) initial).2 = Ok tt ∧
  outputs (main scenario (S (S k)) initial).1
    = [to_excel "auctions.xlsx" df; to_csv "auctions.csv" df] ∧
  quitted (browser (main scenario (S (S k)) initial).1) = true.
Proof. vm_compute. done. Qed.

(** * Further properties of the program *)

(** ** [main]: the browser session and the outputs *)

(** What [main] runs inside [try]. *)
Definition pipeline (web : string → Page) (fuel : nat) : M unit :=
  auctions <- find_auctions web ;
  _ <- update_skills web fuel (map (λ a, Auction.character a) auctions) ;
  save_auctions_to auctions (Some "auctions.xlsx") (Some "auctions.csv").

Lemma main_pipeline (web : string → Page) (fuel : nat) (st : State) :
  main web fuel st =
  match (pipeline web fuel st).2 with
  | Diverge => pipeline web fuel st
  | r => ((browser_quit (pipeline web fuel st).1).1, r)
  end.
Proof.
  unfold main, try_finally. fold (pipeline web fuel).
  by destruct (pipeline web fuel st) as [st1 [[]| |]].
Qed.

Lemma main_pipeline_Ok (web : string → Page) (fuel : nat) (st st' : State) :
  pipeline web fuel st = (st', Ok tt) →
  main web fuel st = ((browser_quit st').1, Ok tt).
Proof. intros H. by rewrite main_pipeline, H. Qed.

Lemma main_pipeline_Raise (web : string → Page) (fuel : nat)
    (st st' : State) (e : exn) :
  pipeline web fuel st = (st', Raise e) →
  main web fuel st = ((browser_quit st').1, Raise e).
Proof. intros H. by rewrite main_pipeline, H. Qed.

Lemma create_inv (P : State → Prop) (row : Tr) (st : State) :
  (∀ name p lvl st', P st' → P (new_Character name p lvl st').1) →
  P st → P (Auction.create row st).1.
Proof.
  intros Hnew Hst. unfold Auction.create.
  repeat (apply bind_inv; [by auto using lift_inv|]; intros ? ? ?).
  apply bind_inv; [by apply Hnew|]. intros ? ? ?.
  repeat (apply bind_inv; [by auto using lift_inv|]; intros ? ? ?).
  done.
Qed.

Lemma find_auctions_inv (P : State → Prop) (web : string → Page)
    (st : State) :
  (∀ st', P st' → P (browser_get web AUCTIONS_URL_TEMPLATE st').1) →
  (∀ name p lvl st', P st' → P (new_Character name p lvl st').1) →
  P st → P (find_auctions web st).1.
Proof.
  intros Hget Hnew Hst. unfold find_auctions.
  apply bind_inv; [by apply Hget|]. intros _ st1 Hst1.
  apply bind_inv; [done|]. intros table st2 Hst2.
  apply bind_inv; [done|]. intros rows st3 Hst3.
  apply comprehension_inv; [|done]. intros row st4.
  by apply create_inv.
Qed.

Lemma find_auctions_outputs (web : string → Page) (st : State) :
  outputs (find_auctions web st).1 = outputs st.
Proof. by apply (find_auctions_inv (λ s, outputs s = outputs st)). Qed.

Lemma update_skills_outputs (web : string → Page) (fuel : nat)
    (characters : list loc) (st : State) :
  outputs (update_skills web fuel characters st).1 = outputs st.
Proof.
  destruct (update_skills_cases web fuel characters st)
    as [->|(idx & _ & [Hout _ _ _ _])]; done.
Qed.

Lemma save_auctions_to_cases (auctions : list Auction.t)
    (excel_file csv_file : option string) (st : State) :
  (∃ rows,
     (comprehension map_auction auctions st).2 = Ok rows ∧
     save_auctions_to auctions excel_file csv_file st =
       ({| heap := heap st; browser := browser st;
           outputs := outputs st
             ++ sinks excel_file csv_file
                  {| columns := headers; data := rows |} |}, Ok tt)) ∨
  ((save_auctions_to auctions excel_file csv_file st).1 = st ∧
   (save_auctions_to auctions excel_file csv_file st).2 ≠ Ok tt).
Proof.
  destruct (comprehension_map_auction auctions st) as [Hst _].
  destruct (comprehension map_auction auctions st) as [st1 r] eqn:Hc.
  cbn [fst] in Hst. subst st1. destruct r as [rows|e|].
  - left. exists rows. split; [done|]. apply save_auctions_to_eq.
    by rewrite Hc.
  - right. unfold save_auctions_to.
    by rewrite (bind_Raise _ _ _ _ _ Hc).
  - right. unfold save_auctions_to.
    by rewrite (bind_Diverge _ _ _ _ Hc).
Qed.

Lemma pipeline_outputs (web : string → Page) (fuel : nat) (st : State) :
  match find_auctions web st with
  | (st1, Ok auctions) =>
      match update_skills web fuel
              (map (λ a, Auction.character a) auctions) st1 with
      | (st2, Ok _) =>
          pipeline web fuel st
            = save_auctions_to auctions (Some "auctions.xlsx")
                (Some "auctions.csv") st2 ∧
          outputs st2 = outputs st
      | (st2, _) =>
          outputs (pipeline web fuel st).1 = outputs st ∧
          (pipeline web fuel st).2 ≠ Ok tt
      end
  | (st1, _) =>
      outputs (pipeline web fuel st).1 = outputs st ∧
      (pipeline web fuel st).2 ≠ Ok tt
  end.
Proof.
  unfold pipeline, bind.
  pose proof (find_auctions_outputs web st) as Hfa.
  destruct (find_auctions web st) as [st1 [auctions| |]];
    cbn [fst snd] in *; [|done..].
  pose proof (update_skills_outputs web fuel
                (map (λ a, Auction.character a) auctions) st1) as Hus.
  destruct (update_skills web fuel _ st1) as [st2 [[]| |]];
    cbn [fst snd] in *; split; congruence.
Qed.

(** The sinks are reached last: when the collector or the enricher does not
    return normally, [main] has handed nothing to a sink; and when [main]
    returns normally it has handed one and the same frame first to the
    spreadsheet file [auctions.xlsx] and then to the delimited file
    [auctions.csv], and has printed nothing. *)
Theorem no_output_before_export (web : string → Page) (fuel : nat)
    (st : State) :
  (((∀ auctions, (find_auctions web st).2 ≠ Ok auctions) ∨
    (∃ st1 auctions,
       find_auctions web st = (st1, Ok auctions) ∧
       (update_skills web fuel
          (map (λ a, Auction.character a) auctions) st1).2 ≠ Ok tt)) →
   (main web fuel st).2 ≠ Ok tt ∧
   outputs (main web fuel st).1 = outputs st) ∧
  ((main web fuel st).2 = Ok tt →
   ∃ rows,
     outputs (main web fuel st).1 =
       outputs st
       ++ [ to_excel "auctions.xlsx" {| columns := headers; data := rows |};
            to_csv "auctions.csv" {| columns := headers; data := rows |} ]).
Proof.
  pose proof (pipeline_outputs web fuel st) as Hp.
  rewrite main_pipeline. split.
  - intros Hfail.
    assert (outputs (pipeline web fuel st).1 = outputs st ∧
            (pipeline web fuel st).2 ≠ Ok tt) as [Ho Hr].
    { destruct (find_auctions web st) as [st1 [auctions| |]] eqn:Hfa;
        [|done..].
      destruct Hfail as [Hno|(st1' & auctions' & [= <- <-] & Hus)];
        [by destruct (Hno auctions)|].
      by destruct (update_skills web fuel _ st1) as [st2 [[]| |]]. }
    by destruct (pipeline web fuel st) as [s [[]| |]].
  - intros Hok.
    destruct (find_auctions web st) as [st1 [auctions| |]];
      [|destruct Hp as [_ Hr];
        by destruct (pipeline web fuel st) as [s [[]| |]]..].
    destruct (update_skills web fuel _ st1) as [st2 [[]| |]];
      [|destruct Hp as [_ Hr];
        by destruct (pipeline web fuel st) as [s [[]| |]]..].
    destruct Hp as [Hp Ho]. rewrite Hp in Hok |- *.
    destruct (save_auctions_to_cases auctions (Some "auctions.xlsx")
                (Some "auctions.csv") st2) as [(rows & _ & Hs)|[_ Hr]].
    + rewrite Hs. cbn. exists rows. by rewrite Ho.
    + by destruct (save_auctions_to _ _ _ st2) as [s [[]| |]].
Qed.

(** ** Edge cases of the run *)

Lemma update_skills_nil (web : string → Page) (fuel : nat) (st : State) :
  update_skills web fuel [] st = (st, Ok tt).
Proof. reflexivity. Qed.

(** A listing whose table has no rows: whatever the bound on the pages,
    [main] returns normally after fetching the listing page only, creates no
    character, and writes a frame with the ten columns and no rows to both
    files. *)
Theorem empty_listing (web : string → Page) (fuel : nat) (table : Table) :
  head (filter (λ t, table_id t = "sellCharList")
          (web AUCTIONS_URL_TEMPLATE)) = Some table →
  table_tbody table = Some [] →
  (main web fuel initial).2 = Ok tt ∧
  heap (main web fuel initial).1 = [] ∧
  history (browser (main web fuel initial).1) = [AUCTIONS_URL_TEMPLATE] ∧
  outputs (main web fuel initial).1 =
    [ to_excel "auctions.xlsx" {| columns := headers; data := [] |};
      to_csv "auctions.csv" {| columns := headers; data := [] |} ].
Proof.
  intros Htable Hbody. rewrite main_pipeline.
  assert (find_auctions web initial =
          ((browser_get web AUCTIONS_URL_TEMPLATE initial).1, Ok [])) as Hfa.
  { unfold find_auctions, bind, find_element_by_id, tbody_rows, lift.
    cbn [browser_get fst snd browser page]. rewrite Htable.
    cbn [of_option]. by rewrite Hbody. }
  unfold pipeline. rewrite (bind_Ok _ _ _ _ _ Hfa).
  cbn [map]. rewrite (bind_Ok _ _ _ _ _ (update_skills_nil web fuel _)).
  done.
Qed.

Lemma empty_listing_witness :
  (main (λ _, listing_page []) 0 initial).2 = Ok tt ∧
  heap (main (λ _, listing_page []) 0 initial).1 = [] ∧
  history (browser (main (λ _, listing_page []) 0 initial).1)
    = [AUCTIONS_URL_TEMPLATE] ∧
  outputs (main (λ _, listing_page []) 0 initial).1 =
    [ to_excel "auctions.xlsx" {| columns := headers; data := [] |};
      to_csv "auctions.csv" {| columns := headers; data := [] |} ].
Proof.
  apply (empty_listing (λ _, listing_page []) 0
           {| table_id := "sellCharList"; table_class := [];
              table_tbody := Some [] |}); reflexivity.
Defined.

Lemma for_each_not_ok {A} (l : list A) (body : A → M unit) (x : A)
    (st : State) :
  x ∈ l → (∀ st', (body x st').2 ≠ Ok tt) → (for_each l body st).2 ≠ Ok tt.
Proof.
  intros Hx Hbody. revert st.
  induction l as [|y l IH]; intros st; [by apply not_elem_of_nil in Hx|].
  cbn [for_each]. unfold bind.
  destruct (body y st) as [st1 r] eqn:Hy.
  apply elem_of_cons in Hx as [<-|Hx].
  - specialize (Hbody st). rewrite Hy in Hbody. by destruct r as [[]| |].
  - destruct r as [[]| |]; [by apply IH|done..].
Qed.

Lemma scan_pages_endless (web : string → Page) (fuel : nat) (idx : Index)
    (skill : Skill.t) (url : string) (ctu : gset string) (n : Z)
    (st : State) :
  (∀ k, n ≤ k → ∃ rows, data_rows (web (page_url url k)) = Ok rows ∧
                        rows ≠ []) →
  (scan_pages web fuel idx skill url ctu n st).2 ≠ Ok tt.
Proof.
  revert n st. induction fuel as [|fuel IH]; intros n st Hpages; [done|].
  rewrite scan_pages_S.
  destruct (Hpages n) as (rows & -> & Hrows); [lia|].
  destruct rows as [|row rows]; [done|]. cbn [length Nat.eqb].
  destruct (for_each _ _ _) as [st1 [[]| |]]; [|done..].
  apply IH. intros k Hk. apply Hpages. lia.
Qed.

(** The paging loop has no bound of its own: when every page of the
    leaderboard of a skill with pending names has a data row, the enricher
    does not return normally, whatever bound on the pages it is given: it
    raises or goes on beyond the bound. *)
Theorem endless_leaderboard (web : string → Page) (fuel : nat)
    (characters : list loc) (st : State) (idx : Index) (skill : Skill.t)
    (url : string) :
  index_of characters st = Ok idx →
  Py.get SKILL_URL_MAP skill = Some url →
  pending idx skill ≠ ∅ →
  (∀ k, 0 ≤ k → ∃ rows, data_rows (web (page_url url k)) = Ok rows ∧
                        rows ≠ []) →
  (update_skills web fuel characters st).2 ≠ Ok tt.
Proof.
  intros Hidx Hurl Hpending Hpages. rewrite update_skills_eq, Hidx.
  apply for_each_not_ok with (x := (skill, url)).
  - by apply SKILL_URL_MAP_elem.
  - intros st'. rewrite scan_skill_eq.
    destruct (decide (pending idx skill = ∅)); [done|].
    by apply scan_pages_endless.
Qed.

Lemma endless_leaderboard_witness :
  (update_skills (λ _, leaderboard_page [("Bo", "300")]) 7 [0; 1]%nat twins).2
    ≠ Ok tt.
Proof.
  apply (endless_leaderboard (λ _, leaderboard_page [("Bo", "300")]) 7
           [0; 1]%nat twins twins_index MAGIC
           "https://www.ezodus.net/charts/highscores/magic/all/{page}").
  - vm_compute. reflexivity.
  - reflexivity.
  - apply (bool_decide_unpack _). vm_compute. exact I.
  - intros k _. exists [[cell "1"; link "Bo"; cell "300"]].
    split; [reflexivity|discriminate].
Defined.

(** ** The order of the fetches *)

(** When the leaderboards end, the fetches of the enricher are, in this
    order, the pages 0 to [N] of the Magic, Distance, Sword, Axe and Club
    leaderboards, each present only when the skill has pending names. *)
Theorem fetch_sequence (web : string → Page) (fuel : nat)
    (characters : list loc) (st : State) (idx : Index) (N : Skill.t → nat) :
  index_of characters st = Ok idx →
  leaderboards_end web idx N fuel →
  let visit skill url :=
    if decide (pending idx skill = ∅) then [] else pages url (N skill) in
  history (browser (update_skills web fuel characters st).1) =
    history (browser st)
    ++ visit MAGIC "https://www.ezodus.net/charts/highscores/magic/all/{page}"
    ++ visit DISTANCE
         "https://www.ezodus.net/charts/highscores/distance/all/{page}"
    ++ visit SWORD
         "https://www.ezodus.net/charts/highscores/sword/knight/{page}"
    ++ visit AXE "https://www.ezodus.net/charts/highscores/axe/knight/{page}"
    ++ visit CLUB
         "https://www.ezodus.net/charts/highscores/club/knight/{page}".
Proof.
  intros Hidx Hend visit.
  destruct (update_skills_ok web fuel characters st idx N Hidx Hend)
    as [_ ->].
  f_equal. cbn [SKILL_URL_MAP fmap list_fmap mjoin list_join].
  unfold skill_pages at 2. cbn [fst snd].
  rewrite (pending_shielding characters st idx Hidx).
  destruct (decide (∅ = ∅ :> gset string)); [|done].
  by rewrite app_nil_r.
Qed.

Lemma fetch_sequence_witness :
  let visit skill url :=
    if decide (pending scenario_index skill = ∅) then []
    else pages url (scenario_pages skill) in
  history (browser (update_skills scenario 2 [0; 1]%nat collected).1) =
    history (browser collected)
    ++ visit MAGIC "https://www.ezodus.net/charts/highscores/magic/all/{page}"
    ++ visit DISTANCE
         "https://www.ezodus.net/charts/highscores/distance/all/{page}"
    ++ visit SWORD
         "https://www.ezodus.net/charts/highscores/sword/knight/{page}"
    ++ visit AXE "https://www.ezodus.net/charts/highscores/axe/knight/{page}"
    ++ visit CLUB
         "https://www.ezodus.net/charts/highscores/club/knight/{page}".
Proof.
  apply (fetch_sequence scenario 2 [0; 1]%nat collected scenario_index
           scenario_pages).
  - exact scenario_index_of.
  - exact (scenario_leaderboards_end scenario_index).
Defined.

(** ** The collector *)

(** The outcomes of the steps of [Auction.create]. *)
Lemma index_cases {A} (l : list A) (i : nat) :
  (∃ a, Py.index l i = Ok a ∧ (i < length l)%nat) ∨
  (Py.index l i = Raise IndexError ∧ (length l ≤ i)%nat).
Proof.
  unfold Py.index. destruct (l !! i) as [a|] eqn:Hi.
  - left. exists a. split; [done|]. by eapply lookup_lt_Some.
  - right. split; [done|]. by apply lookup_ge_None.
Qed.

Lemma text_of_cases (cols : list Td) (i : nat) :
  (∃ s, text_of cols i = Ok s ∧ (i < length cols)%nat) ∨
  (text_of cols i = Raise IndexError ∧ (length cols ≤ i)%nat).
Proof.
  unfold text_of.
  destruct (index_cases cols i) as [(c & -> & ?)|[-> ?]]; [left|right];
    eauto.
Qed.

Lemma split_not_nil (sep : ascii) (s : string) : Py.split sep s ≠ [].
Proof.
  induction s as [|c s IH]; [done|]. cbn [Py.split].
  destruct (Ascii.eqb c sep); [done|]. by destruct (Py.split sep s).
Qed.

Lemma first_token (s : string) :
  ∃ token, Py.index (Py.split " " s) 0 = Ok token.
Proof.
  pose proof (split_not_nil " " s) as Hs.
  destruct (Py.split " " s) as [|w ws]; [done|]. by exists w.
Qed.

Lemma int_cases (s : string) :
  (∃ n, Py.int s = Ok n) ∨ Py.int s = Raise ValueError.
Proof.
  unfold Py.int.
  match goal with |- context [of_option _ ?o] => destruct o end;
    [left|right]; eauto.
Qed.

Lemma find_cases (text : string) :
  (∃ p, Profession.find text = Ok p) ∨
  Profession.find text = Raise StopIteration.
Proof.
  unfold Profession.find. destruct (head _); [left|right]; eauto.
Qed.

(** The state after [Character(name, profession, lvl)]. *)
Definition allocated (st : State) (c : Character.t) : State :=
  {| heap := heap st ++ [c]; browser := browser st; outputs := outputs st |}.

Lemma create_cases (row : Tr) (st : State) :
  (∃ e, Auction.create row st = (st, Raise e) ∧ ParseError e) ∨
  (∃ c e, Auction.create row st = (allocated st c, Raise e) ∧
          ParseError e) ∨
  (∃ c price,
     Auction.create row st
       = (allocated st c, Ok (Auction.mk (length (heap st)) price)) ∧
     Character.skills c = ∅ ∧ (3 ≤ length row)%nat).
Proof.
  destruct (Auction.create row st) as [st' r] eqn:Hc. revert Hc.
  unfold Auction.create, Auction._NAME_ID, Auction._LVL_PROFESSION_ID,
    Auction._PRICE_ID.
  rewrite bind_lift.
  destruct (text_of_cases row 0) as [(name & -> & H0)|[-> H0]];
    [|intros [= <- <-]; left; exists IndexError;
      split; [done|by do 2 right]].
  rewrite bind_lift.
  destruct (text_of_cases row 1) as [(raw & -> & H1)|[-> H1]];
    [|intros [= <- <-]; left; exists IndexError;
      split; [done|by do 2 right]].
  rewrite bind_lift. destruct (first_token raw) as [token ->].
  rewrite bind_lift.
  destruct (int_cases token) as [[lvl ->]| ->];
    [|intros [= <- <-]; left; exists ValueError;
      split; [done|by right; left]].
  rewrite bind_lift.
  destruct (find_cases raw) as [[p ->]| ->];
    [|intros [= <- <-]; left; exists StopIteration; split; [done|by left]].
  unfold bind at 1. cbn [new_Character].
  fold (allocated st (Character.mk name p lvl ∅)).
  rewrite bind_lift.
  destruct (text_of_cases row 2) as [(price_text & -> & H2)|[-> H2]];
    [|intros [= <- <-]; right; left; eexists _, IndexError;
      split; [done|by do 2 right]].
  rewrite bind_lift. destruct (first_token price_text) as [token' ->].
  rewrite bind_lift.
  destruct (int_cases token') as [[price ->]| ->];
    [|intros [= <- <-]; right; left; eexists _, ValueError;
      split; [done|by right; left]].
  intros [= <- <-]. right; right. by eexists _, price.
Qed.

(** [Auction.create] returns or raises a parse error; it raises on every row
    with fewer than three cells, with [IndexError] and before anything else
    when the row has fewer than two.  It creates at most one character, and
    the auction it returns refers to the character it created, which has no
    skill yet. *)
Theorem create_outcomes (row : Tr) (st : State) :
  ((∃ a c, Auction.create row st = (allocated st c, Ok a) ∧
           Auction.character a = length (heap st) ∧
           Character.skills c = ∅) ∨
   (∃ e, (Auction.create row st).2 = Raise e ∧ ParseError e ∧
         ((Auction.create row st).1 = st ∨
          ∃ c, (Auction.create row st).1 = allocated st c))) ∧
  ((length row < 3)%nat →
   ∃ e, (Auction.create row st).2 = Raise e ∧ ParseError e) ∧
  ((length row < 2)%nat →
   Auction.create row st = (st, Raise IndexError)).
Proof.
  split; [|split].
  - destruct (create_cases row st)
      as [(e & -> & He)|[(c & e & -> & He)|(c & price & -> & Hc & _)]].
    + right. exists e. split; [done|]. split; [done|]. by left.
    + right. exists e. split; [done|]. split; [done|]. right. by exists c.
    + left. by eexists _, c.
  - intros Hshort.
    destruct (create_cases row st)
      as [(e & -> & He)|[(c & e & -> & He)|(c & price & _ & _ & Hlen)]];
      [by exists e..|lia].
  - intros Hshort. destruct row as [|c0 [|c1 row]]; [done..|].
    cbn in Hshort. lia.
Qed.

Lemma find_auctions_eq (web : string → Page) (st : State) :
  find_auctions web st =
  match head (filter (λ t, table_id t = "sellCharList")
                (web AUCTIONS_URL_TEMPLATE)) with
  | Some table =>
      match table_tbody table with
      | Some rows =>
          comprehension Auction.create rows
            (browser_get web AUCTIONS_URL_TEMPLATE st).1
      | None =>
          ((browser_get web AUCTIONS_URL_TEMPLATE st).1,
           Raise NoSuchElementException)
      end
  | None =>
      ((browser_get web AUCTIONS_URL_TEMPLATE st).1,
       Raise NoSuchElementException)
  end.
Proof.
  unfold find_auctions, bind, find_element_by_id, tbody_rows, lift.
  cbn [browser_get fst snd browser page].
  destruct (head _) as [table|]; [|done]. cbn [of_option].
  by destruct (table_tbody table).
Qed.

Lemma comprehension_create_ok (rows : list Tr) (st st' : State)
    (auctions : list Auction.t) :
  comprehension Auction.create rows st = (st', Ok auctions) →
  map (λ a, Auction.character a) auctions
    = seq (length (heap st)) (length rows) ∧
  browser st' = browser st ∧ outputs st' = outputs st ∧
  ∃ new, heap st' = heap st ++ new ∧ length new = length rows ∧
         Forall (λ c, Character.skills c = ∅) new.
Proof.
  revert st st' auctions.
  induction rows as [|row rows IH]; intros st st' auctions.
  - intros [= <- <-]. repeat split. exists []. by rewrite app_nil_r.
  - cbn [comprehension]. unfold bind at 1.
    destruct (create_cases row st)
      as [(e & -> & _)|[(c & e & -> & _)|(c & price & -> & Hc & _)]];
      [discriminate..|].
    unfold bind.
    destruct (comprehension Auction.create rows (allocated st c))
      as [st2 [auctions'| |]] eqn:Hrest; [|discriminate..].
    intros [= <- <-].
    destruct (IH _ _ _ Hrest) as (Hchars & Hb & Ho & new & Hheap & Hlen & Hnew).
    cbn [allocated heap browser outputs] in *.
    rewrite length_app in Hchars. cbn [length] in Hchars.
    rewrite Nat.add_1_r in Hchars.
    split; [cbn; by rewrite Hchars|]. split; [done|]. split; [done|].
    exists (c :: new). rewrite Hheap, <- app_assoc. split; [done|].
    split; [cbn; by rewrite Hlen|]. by constructor.
Qed.

(** Whatever the listing page holds, when the collector returns it has
    fetched the listing page and nothing else, and has created one new
    character per row of the table, without skills, after the characters
    that were there; the auctions it returns refer to these new characters,
    one each, in the order of the rows. *)
Theorem find_auctions_fresh (web : string → Page) (st st' : State)
    (auctions : list Auction.t) :
  find_auctions web st = (st', Ok auctions) →
  history (browser st') = history (browser st) ++ [AUCTIONS_URL_TEMPLATE] ∧
  outputs st' = outputs st ∧
  ∃ table rows new,
    head (filter (λ t, table_id t = "sellCharList")
            (web AUCTIONS_URL_TEMPLATE)) = Some table ∧
    table_tbody table = Some rows ∧
    length auctions = length rows ∧
    map (λ a, Auction.character a) auctions
      = seq (length (heap st)) (length rows) ∧
    heap st' = heap st ++ new ∧ length new = length rows ∧
    Forall (λ c, Character.skills c = ∅) new.
Proof.
  rewrite find_auctions_eq.
  destruct (head _) as [table|]; [|discriminate].
  destruct (table_tbody table) as [rows|] eqn:Hrows; [|discriminate].
  intros Hc. apply comprehension_create_ok in Hc
    as (Hchars & -> & -> & new & Hheap & Hlen & Hnew).
  split; [done|]. split; [done|]. exists table, rows, new.
  split; [done|]. split; [done|]. split; [|done].
  by rewrite <- (length_map (λ a, Auction.character a)), Hchars, length_seq.
Qed.

Lemma find_auctions_fresh_witness :
  history (browser collected)
    = history (browser initial) ++ [AUCTIONS_URL_TEMPLATE] ∧
  outputs collected = outputs initial ∧
  ∃ table rows new,
    head (filter (λ t, table_id t = "sellCharList")
            (scenario AUCTIONS_URL_TEMPLATE)) = Some table ∧
    table_tbody table = Some rows ∧
    length [Auction.mk 0 5000; Auction.mk 1 2000] = length rows ∧
    map (λ a, Auction.character a) [Auction.mk 0 5000; Auction.mk 1 2000]
      = seq (length (heap initial)) (length rows) ∧
    heap collected = heap initial ++ new ∧ length new = length rows ∧
    Forall (λ c, Character.skills c = ∅) new.
Proof.
  apply (find_auctions_fresh scenario initial collected
           [Auction.mk 0 5000; Auction.mk 1 2000]).
  vm_compute. reflexivity.
Defined.

(** A row of a listing, as the page shows it: the name, the level, the text
    after the level, which names the profession, the price and what follows
    the price. *)
Record Entry := {
  e_name : string;
  e_level : Z;
  e_profession : Profession.t;
  e_text : string;
  e_price : Z;
  e_trailing : string
}.

Definition entry_row (e : Entry) : Tr :=
  listing_row (e_name e) (e_level e) (e_text e) (e_price e) (e_trailing e).

Definition entry_ok (e : Entry) : Prop :=
  names_exactly (e_profession e) (e_text e) ∧
  (e_trailing e = "" ∨ ∃ rest, e_trailing e = " " +:+ rest).

Definition entry_character (e : Entry) : Character.t :=
  Character.mk (e_name e) (e_profession e) (e_level e) ∅.

Lemma create_entry_row (e : Entry) (st : State) :
  entry_ok e →
  Auction.create (entry_row e) st =
  (allocated st (entry_character e),
   Ok (Auction.mk (length (heap st)) (e_price e))).
Proof.
  intros [Hp Htrail].
  pose proof (split_head (" ") (Py.str (e_level e)) (e_text e)
                (str_no_space (e_level e))) as Hlvl.
  pose proof (split_head_trailing (Py.str (e_price e)) (e_trailing e)
                (str_no_space (e_price e)) Htrail) as Hprice.
  pose proof (find_after_level (e_level e) (e_text e)) as Hfind.
  rewrite (find_names_exactly _ _ Hp) in Hfind.
  unfold Auction.create, entry_row.
  lift_step reflexivity. lift_step reflexivity.
  lift_step (exact Hlvl). lift_step (apply int_str).
  lift_step (exact Hfind).
  erewrite bind_Ok by reflexivity.
  lift_step reflexivity. lift_step (exact Hprice).
  lift_step (apply int_str). reflexivity.
Qed.

Lemma comprehension_create_entries (entries : list Entry) (st : State) :
  Forall entry_ok entries →
  comprehension Auction.create (entry_row <$> entries) st =
  ({| heap := heap st ++ (entry_character <$> entries);
      browser := browser st; outputs := outputs st |},
   Ok (zip_with Auction.mk (seq (length (heap st)) (length entries))
         (e_price <$> entries))).
Proof.
  intros Hok. revert st.
  induction Hok as [|e entries He _ IH]; intros st.
  - cbn. rewrite app_nil_r. by destruct st.
  - cbn [fmap list_fmap comprehension].
    rewrite (bind_Ok _ _ _ _ _ (create_entry_row e st He)).
    rewrite (bind_Ok _ _ _ _ _ (IH _)).
    cbn [allocated heap browser outputs ret length seq zip_with].
    rewrite <- app_assoc, length_app. cbn [length app].
    by rewrite Nat.add_1_r.
Qed.

Lemma find_auctions_entries (web : string → Page) (st : State)
    (table : Table) (entries : list Entry) :
  head (filter (λ t, table_id t = "sellCharList")
          (web AUCTIONS_URL_TEMPLATE)) = Some table →
  table_tbody table = Some (entry_row <$> entries) →
  Forall entry_ok entries →
  find_auctions web st =
  ({| heap := heap st ++ (entry_character <$> entries);
      browser := {| page := web AUCTIONS_URL_TEMPLATE;
                    history := history (browser st) ++ [AUCTIONS_URL_TEMPLATE];
                    quitted := quitted (browser st) |};
      outputs := outputs st |},
   Ok (zip_with Auction.mk (seq (length (heap st)) (length entries))
         (e_price <$> entries))).
Proof.
  intros Htable Hrows Hok.
  rewrite find_auctions_eq, Htable, Hrows.
  by rewrite comprehension_create_entries.
Qed.

Lemma auctions_lookup (entries : list Entry) (a : nat) (i : nat)
    (auction : Auction.t) :
  zip_with Auction.mk (seq a (length entries)) (e_price <$> entries) !! i
    = Some auction ↔
  ∃ e, entries !! i = Some e ∧
       auction = Auction.mk (a + i) (e_price e).
Proof.
  rewrite lookup_zip_with, list_lookup_fmap. split.
  - intros H. destruct (seq a (length entries) !! i) as [k|] eqn:Hk;
      [|done].
    apply lookup_seq in Hk as [-> _].
    destruct (entries !! i) as [e|]; [|done].
    injection H as <-. by exists e.
  - intros (e & He & ->). rewrite He.
    rewrite (lookup_seq_lt a (length entries) i);
      [done|by eapply lookup_lt_Some].
Qed.

(** On a listing whose rows are well formed (the text after the level names
    one profession, the price is followed by nothing or by a space) the
    collector returns, after fetching the listing page, one auction per row,
    in the order of the rows, each with the price of its row and a new
    character with the name, the profession and the level of its row and no
    skill; the characters that were there stay as they are.  The level and
    the price may be any integers, positive or not. *)
Theorem find_auctions_listing (web : string → Page) (st : State)
    (table : Table) (entries : list Entry) :
  head (filter (λ t, table_id t = "sellCharList")
          (web AUCTIONS_URL_TEMPLATE)) = Some table →
  table_tbody table = Some (entry_row <$> entries) →
  Forall entry_ok entries →
  ∃ st' auctions,
    find_auctions web st = (st', Ok auctions) ∧
    length auctions = length entries ∧
    history (browser st') = history (browser st) ++ [AUCTIONS_URL_TEMPLATE] ∧
    length (heap st') = (length (heap st) + length entries)%nat ∧
    (∀ l c, heap st !! l = Some c → heap st' !! l = Some c) ∧
    ∀ i e, entries !! i = Some e →
      ∃ a, auctions !! i = Some a ∧
           Auction.price a = e_price e ∧
           heap st' !! Auction.character a
             = Some (Character.mk (e_name e) (e_profession e) (e_level e) ∅).
Proof.
  intros Htable Hrows Hok. eexists _, _.
  split; [by apply (find_auctions_entries web st table)|].
  cbn [heap browser history].
  split; [by rewrite length_zip_with, length_seq, length_fmap, Nat.min_id|].
  split; [done|]. split; [by rewrite length_app, length_fmap|]. split.
  - intros l c Hl. by apply lookup_app_l_Some.
  - intros i e He. eexists. split; [apply auctions_lookup; by exists e|].
    split; [done|]. cbn [Auction.character].
    rewrite lookup_app_r by lia.
    replace (length (heap st) + i - length (heap st))%nat with i by lia.
    by rewrite list_lookup_fmap, He.
Qed.

Definition scenario_entries : list Entry :=
  [ {| e_name := "Aria"; e_level := 120; e_profession := KNIGHT;
       e_text := "Elite Knight"; e_price := 5000; e_trailing := " gold" |};
    {| e_name := "Bo"; e_level := 80; e_profession := SORCERER;
       e_text := "Master Sorcerer"; e_price := 2000; e_trailing := " gold" |} ].

Lemma scenario_entries_ok : Forall entry_ok scenario_entries.
Proof.
  constructor; [|constructor; [|constructor]].
  - split; [exact elite_knight_names_knight|right; by exists "gold"].
  - split; [|right; by exists "gold"]. split.
    + by apply contains_spec.
    + intros q Hq Hsub. apply contains_spec in Hsub. by destruct q.
Defined.

Lemma find_auctions_listing_witness :
  ∃ st' auctions,
    find_auctions scenario initial = (st', Ok auctions) ∧
    length auctions = length scenario_entries ∧
    history (browser st')
      = history (browser initial) ++ [AUCTIONS_URL_TEMPLATE] ∧
    length (heap st')
      = (length (heap initial) + length scenario_entries)%nat ∧
    (∀ l c, heap initial !! l = Some c → heap st' !! l = Some c) ∧
    ∀ i e, scenario_entries !! i = Some e →
      ∃ a, auctions !! i = Some a ∧
           Auction.price a = e_price e ∧
           heap st' !! Auction.character a
             = Some (Character.mk (e_name e) (e_profession e) (e_level e) ∅).
Proof.
  apply (find_auctions_listing scenario initial
           {| table_id := "sellCharList"; table_class := [];
              table_tbody := Some (entry_row <$> scenario_entries) |}
           scenario_entries).
  - vm_compute. reflexivity.
  - reflexivity.
  - exact scenario_entries_ok.
Defined.

(** ** The values the enricher writes *)

(** The enricher writes what it finds: when the leaderboards end and a page
    of the leaderboard of a skill, before its last one, has a row with a
    name that is pending for the skill, the character the name index gives
    for that name ends with a value for the skill, which is the value of a
    row of that name on a page of that leaderboard fetched in this run: the
    value of the row when the fetched pages have no other value for the
    name. *)
Theorem enrichment_writes (web : string → Page) (fuel : nat)
    (characters : list loc) (st : State) (idx : Index) (N : Skill.t → nat)
    (s : Skill.t) (url nm : string) (l : loc) (k : nat) (rows : list Tr)
    (row : Tr) (v : Z) :
  index_of characters st = Ok idx →
  leaderboards_end web idx N fuel →
  Py.get SKILL_URL_MAP s = Some url →
  nm ∈ pending idx s →
  character_map idx !! nm = Some l →
  (k < N s)%nat →
  data_rows (web (page_url url (Z.of_nat k))) = Ok rows →
  row ∈ rows →
  parse_row row = Ok (nm, v) →
  (update_skills web fuel characters st).2 = Ok tt ∧
  ∃ c' v',
    heap (update_skills web fuel characters st).1 !! l = Some c' ∧
    Character.skills c' !! s = Some v' ∧
    found web
      (since (history (browser st)) (update_skills web fuel characters st).1)
      url nm v' ∧
    ((∀ v'',
        found web
          (since (history (browser st))
             (update_skills web fuel characters st).1) url nm v'' →
        v'' = v) → v' = v).
Proof.
  intros Hidx Hend Hurl Hpending Hmap Hk Hrows Hrow Hparse.
  split; [by apply (update_skills_ok web fuel characters st idx N)|].
  assert (∀ nm', character_map idx !! nm' = Some l → nm' = nm) as Hinj.
  { intros nm' Hnm'.
    rewrite (index_of_character_map _ _ _ nm Hidx) in Hmap.
    rewrite (index_of_character_map _ _ _ nm' Hidx) in Hnm'.
    apply last_named_Some in Hmap as [_ Hn], Hnm' as [_ Hn'].
    by eapply named_inj. }
  rewrite update_skills_eq, Hidx.
  destruct (scan_skills_has_entry web idx (history (browser st)) l s url nm
              Hurl Hpending Hmap Hinj fuel N k rows row v st Hend Hk Hrows
              Hrow Hparse)
    as (c' & v' & Hc' & Hv' & Hentry).
  { exists []. by rewrite app_nil_r. }
  { intros s' nm' Hnm'. by eapply pending_character_map. }
  exists c', v'. repeat split; try done. intros Huniq. by apply Huniq.
Qed.

Lemma enrichment_writes_witness :
  (update_skills scenario 2 [0; 1]%nat twins).2 = Ok tt ∧
  ∃ c' v',
    heap (update_skills scenario 2 [0; 1]%nat twins).1 !! 1%nat = Some c' ∧
    Character.skills c' !! SWORD = Some v' ∧
    found scenario
      (since (history (browser twins))
         (update_skills scenario 2 [0; 1]%nat twins).1)
      "https://www.ezodus.net/charts/highscores/sword/knight/{page}"
      "Aria" v' ∧
    ((∀ v'',
        found scenario
          (since (history (browser twins))
             (update_skills scenario 2 [0; 1]%nat twins).1)
          "https://www.ezodus.net/charts/highscores/sword/knight/{page}"
          "Aria" v'' →
        v'' = 450) → v' = 450).
Proof.
  apply (enrichment_writes scenario 2 [0; 1]%nat twins twins_index
           scenario_pages SWORD
           "https://www.ezodus.net/charts/highscores/sword/knight/{page}"
           "Aria" 1%nat 0%nat [[cell "1"; link "Aria"; cell "450"]]
           [cell "1"; link "Aria"; cell "450"] 450).
  - vm_compute. reflexivity.
  - exact (scenario_leaderboards_end twins_index).
  - reflexivity.
  - apply (bool_decide_unpack _). vm_compute. exact I.
  - vm_compute. reflexivity.
  - cbn. lia.
  - vm_compute. reflexivity.
  - by left.
  - vm_compute. reflexivity.
Defined.

(** ** Failures of the collector and of the enricher end the run *)

(** The text is ASCII, and so are the texts of the cells of a row: on such
    text [Py.int] refuses exactly what [int] refuses. *)
Definition is_ascii (s : string) : Prop :=
  all_chars (λ c, (nat_of_ascii c <? 128)%nat) s = true.

Definition ascii_row (row : Tr) : Prop :=
  Forall (λ c, is_ascii (td_text c)) row.

Lemma create_history_outputs (row : Tr) (st : State) :
  browser (Auction.create row st).1 = browser st ∧
  outputs (Auction.create row st).1 = outputs st.
Proof.
  by apply (create_inv (λ s, browser s = browser st ∧ outputs s = outputs st)).
Qed.

Lemma comprehension_create_bad (good : list Entry) (bad : Tr)
    (rest : list Tr) (e : exn) (st : State) :
  Forall entry_ok good →
  (∀ st', (Auction.create bad st').2 = Raise e) →
  (comprehension Auction.create ((entry_row <$> good) ++ bad :: rest) st).2
    = Raise e ∧
  browser (comprehension Auction.create
             ((entry_row <$> good) ++ bad :: rest) st).1 = browser st ∧
  outputs (comprehension Auction.create
             ((entry_row <$> good) ++ bad :: rest) st).1 = outputs st.
Proof.
  intros Hgood Hbad. revert st.
  induction Hgood as [|g good Hg _ IH]; intros st.
  - cbn [fmap list_fmap app comprehension]. unfold bind at 1 3 5.
    pose proof (Hbad st) as Hr.
    destruct (create_history_outputs bad st) as [Hb Ho].
    destruct (Auction.create bad st) as [st1 r].
    cbn [fst snd] in *. by subst r.
  - cbn [fmap list_fmap app comprehension].
    rewrite (bind_Ok _ _ _ _ _ (create_entry_row g st Hg)).
    unfold bind. destruct (IH (allocated st (entry_character g)))
      as (Hr & Hb & Ho).
    destruct (comprehension _ _ _) as [st1 r]. cbn [fst snd] in *.
    by subst r.
Qed.

(** There is no recovery from a bad listing row: when a row of the listing,
    with ASCII text in its cells, makes [Auction.create] raise and the rows
    before it are well formed, [main] raises the same exception, having
    fetched the listing page only, written nothing out and quit the
    browser. *)
Theorem bad_listing_row_aborts (web : string → Page) (fuel : nat)
    (st : State) (table : Table) (good : list Entry) (bad : Tr)
    (rest : list Tr) (e : exn) :
  head (filter (λ t, table_id t = "sellCharList")
          (web AUCTIONS_URL_TEMPLATE)) = Some table →
  table_tbody table = Some ((entry_row <$> good) ++ bad :: rest) →
  Forall entry_ok good →
  ascii_row bad →
  (∀ st', (Auction.create bad st').2 = Raise e) →
  (main web fuel st).2 = Raise e ∧
  history (browser (main web fuel st).1)
    = history (browser st) ++ [AUCTIONS_URL_TEMPLATE] ∧
  outputs (main web fuel st).1 = outputs st ∧
  quitted (browser (main web fuel st).1) = true.
Proof.
  intros Htable Hrows Hgood _ Hbad.
  assert (∃ st1, pipeline web fuel st = (st1, Raise e) ∧
                 browser st1
                   = browser (browser_get web AUCTIONS_URL_TEMPLATE st).1 ∧
                 outputs st1 = outputs st) as (st1 & Hp & Hb & Ho).
  { destruct (comprehension_create_bad good bad rest e
                (browser_get web AUCTIONS_URL_TEMPLATE st).1 Hgood Hbad)
      as (Hr & Hb & Ho).
    destruct (comprehension _ _ _) as [st1 r] eqn:Hc.
    cbn [fst snd] in *. subst r. exists st1. split; [|done].
    apply bind_Raise. by rewrite find_auctions_eq, Htable, Hrows. }
  rewrite main_pipeline, Hp.
  cbn [fst snd browser_quit browser history outputs quitted].
  by rewrite Hb, Ho.
Qed.

Lemma bad_listing_row_aborts_witness :
  let web := λ _ : string,
    [ {| table_id := "sellCharList"; table_class := [];
         table_tbody :=
           Some ((entry_row <$> scenario_entries)
                 ++ [cell "Cy"; cell "ten Knight"; cell "5 gold"] :: []) |} ] in
  (main web 2 initial).2 = Raise ValueError ∧
  history (browser (main web 2 initial).1)
    = history (browser initial) ++ [AUCTIONS_URL_TEMPLATE] ∧
  outputs (main web 2 initial).1 = outputs initial ∧
  quitted (browser (main web 2 initial).1) = true.
Proof.
  apply (bad_listing_row_aborts _ 2 initial
           {| table_id := "sellCharList"; table_class := [];
              table_tbody :=
                Some ((entry_row <$> scenario_entries)
                      ++ [cell "Cy"; cell "ten Knight"; cell "5 gold"]
                         :: []) |}
           scenario_entries [cell "Cy"; cell "ten Knight"; cell "5 gold"] []
           ValueError).
  - reflexivity.
  - reflexivity.
  - exact scenario_entries_ok.
  - repeat constructor.
  - reflexivity.
Defined.

(** Every data row of a visited leaderboard page is parsed before its name
    is looked at: when Magic, the first skill of [SKILL_URL_MAP], has
    pending names and the first data row of page 0 of its leaderboard, with
    ASCII text in its cells, has no link in its name cell, too few cells or
    a value that is not a number, the enricher raises, whoever the row is
    about, after that one fetch and without changing a character. *)
Theorem malformed_leaderboard_row (web : string → Page) (fuel : nat)
    (characters : list loc) (st : State) (idx : Index) (row : Tr)
    (rows : list Tr) (e : exn) :
  index_of characters st = Ok idx →
  pending idx MAGIC ≠ ∅ →
  data_rows (web "https://www.ezodus.net/charts/highscores/magic/all/0")
    = Ok (row :: rows) →
  ascii_row row →
  parse_row row = Raise e →
  update_skills web (S fuel) characters st =
  ({| heap := heap st;
      browser :=
        {| page := web "https://www.ezodus.net/charts/highscores/magic/all/0";
           history := history (browser st)
             ++ ["https://www.ezodus.net/charts/highscores/magic/all/0"];
           quitted := quitted (browser st) |};
      outputs := outputs st |}, Raise e).
Proof.
  intros Hidx Hpending Hrows _ Hrow.
  rewrite update_skills_eq, Hidx.
  cbn [SKILL_URL_MAP for_each]. unfold bind at 1.
  rewrite scan_skill_eq.
  destruct (decide (pending idx MAGIC = ∅)); [done|].
  rewrite scan_pages_S.
  change (page_url _ 0)
    with "https://www.ezodus.net/charts/highscores/magic/all/0".
  rewrite Hrows. cbn [length Nat.eqb for_each]. unfold bind at 1.
  by rewrite scan_row_eq, Hrow.
Qed.

Lemma malformed_leaderboard_row_witness :
  let web := λ _ : string,
    [ {| table_id := ""; table_class := ["gunz-table"];
         table_tbody :=
           Some [ [cell "#"; cell "Name"; cell "Value"];
                  [cell "1"; link "Zed"; cell "n/a"] ] |} ] in
  update_skills web 1 [0; 1]%nat twins =
  ({| heap := heap twins;
      browser :=
        {| page := web "https://www.ezodus.net/charts/highscores/magic/all/0";
           history := history (browser twins)
             ++ ["https://www.ezodus.net/charts/highscores/magic/all/0"];
           quitted := quitted (browser twins) |};
      outputs := outputs twins |}, Raise ValueError).
Proof.
  apply (malformed_leaderboard_row _ 0 [0; 1]%nat twins twins_index
           [cell "1"; link "Zed"; cell "n/a"] [] ValueError).
  - vm_compute. reflexivity.
  - apply (bool_decide_unpack _). vm_compute. exact I.
  - reflexivity.
  - repeat constructor.
  - reflexivity.
Defined.

(** ** The whole run on a well-formed site *)

(** On a site whose listing rows are well formed and whose leaderboards
    end, each after some number of pages with well-formed data rows, [main]
    returns normally and hands one frame to the spreadsheet file and to the
    delimited file: it has one row per listing row, in the order of the
    listing, starting with the name, the price, the member name of the
    profession and the level of that listing row, followed by six skill
    cells. *)
Theorem main_exports (web : string → Page) (fuel : nat) (table : Table)
    (entries : list Entry) (N : Skill.t → nat) :
  head (filter (λ t, table_id t = "sellCharList")
          (web AUCTIONS_URL_TEMPLATE)) = Some table →
  table_tbody table = Some (entry_row <$> entries) →
  Forall entry_ok entries →
  (∀ skill url, Py.get SKILL_URL_MAP skill = Some url →
                ends_after web url (N skill) ∧ (N skill < fuel)%nat) →
  (main web fuel initial).2 = Ok tt ∧
  ∃ rows,
    outputs (main web fuel initial).1 =
      [ to_excel "auctions.xlsx" {| columns := headers; data := rows |};
        to_csv "auctions.csv" {| columns := headers; data := rows |} ] ∧
    length rows = length entries ∧
    ∀ i e, entries !! i = Some e →
      ∃ cells,
        rows !! i =
          Some ([ VStr (e_name e); VInt (e_price e);
                  VStr (Profession.name (e_profession e));
                  VInt (e_level e) ] ++ cells) ∧
        length cells = 6%nat.
Proof.
  intros Htable Hrows Hok Hend.
  pose proof (find_auctions_entries web initial table entries Htable Hrows
                Hok) as Hfa.
  cbn [initial heap app length] in Hfa.
  set (auctions := zip_with Auction.mk (seq 0 (length entries))
                     (e_price <$> entries)) in *.
  set (characters := map (λ a, Auction.character a) auctions).
  match type of Hfa with _ = (?s, _) => set (st1 := s) in * end.
  assert (∀ a, a ∈ auctions →
            ∃ i e, entries !! i = Some e ∧ a = Auction.mk i (e_price e))
    as Hauctions.
  { intros a Ha. apply list_elem_of_lookup in Ha as [i Hi].
    apply auctions_lookup in Hi as (e & He & ->). by exists i, e. }
  assert (Forall (λ l, is_Some (heap st1 !! l)) characters) as Hvalid.
  { apply Forall_forall. intros l Hl.
    apply list_elem_of_fmap in Hl as (a & -> & Ha).
    destruct (Hauctions a Ha) as (i & e & He & ->).
    cbn. rewrite list_lookup_fmap, He. by eexists. }
  apply (build_index_valid characters empty_index st1) in Hvalid
    as [idx Hidx].
  assert (leaderboards_end web idx N fuel) as Hends.
  { intros skill url Hurl _. by apply Hend. }
  destruct (update_skills_ok web fuel characters st1 idx N Hidx Hends)
    as [Hus _].
  destruct (update_skills_changes web fuel characters st1 idx Hidx)
    as [Hout _ Hlen Hheap _].
  destruct (update_skills web fuel characters st1) as [st2 r] eqn:Hupd.
  cbn [fst snd] in *. subst r.
  assert (valid_auctions auctions st2) as Hvalid2.
  { apply Forall_forall. intros a Ha.
    destruct (Hauctions a Ha) as (i & e & He & ->). cbn.
    apply lookup_lt_is_Some_2. rewrite Hlen. cbn.
    rewrite length_fmap. by eapply lookup_lt_Some. }
  destruct (comprehension_map_auction_ok auctions st2 Hvalid2)
    as [rows Hcomp].
  destruct (comprehension_map_auction auctions st2) as [_ Hshape].
  destruct (Hshape rows Hcomp) as (Hrlen & _ & Hith).
  rewrite main_pipeline. unfold pipeline.
  rewrite (bind_Ok _ _ _ _ _ Hfa). fold characters.
  rewrite (bind_Ok _ _ _ _ _ Hupd).
  rewrite (save_auctions_to_eq _ _ _ _ rows Hcomp).
  split; [done|]. exists rows. cbn [fst browser_quit outputs].
  split; [by rewrite Hout|]. split.
  { rewrite Hrlen. unfold auctions.
    by rewrite length_zip_with, length_seq, length_fmap, Nat.min_id. }
  intros i e He.
  destruct (Hith i (Auction.mk i (e_price e))) as (c & Hc & Hrow).
  { apply auctions_lookup. by exists e. }
  cbn in Hc. destruct (Hheap i (entry_character e))
    as (c' & Hc' & Hname & Hprof & Hlvl & _).
  { cbn. by rewrite list_lookup_fmap, He. }
  rewrite Hc in Hc'. injection Hc' as <-.
  eexists. split; [|shelve]. rewrite Hrow. unfold exported_row.
  rewrite Hname, Hprof, Hlvl. cbn. reflexivity.
  Unshelve. done.
Qed.

Lemma scenario_all_end (skill : Skill.t) (url : string) :
  Py.get SKILL_URL_MAP skill = Some url →
  ends_after scenario url (scenario_pages skill) ∧
  (scenario_pages skill < 2)%nat.
Proof.
  intros Hurl.
  apply (scenario_leaderboards_end
           {| character_map := ∅; character_skill_map := ∅;
              skill_character_map := {[ skill := {[ "x" ]} ]} |}
           skill url Hurl).
  unfold pending. cbn. rewrite lookup_singleton_eq. cbn. set_solver.
Defined.

Lemma main_exports_witness :
  (main scenario 2 initial).2 = Ok tt ∧
  ∃ rows,
    outputs (main scenario 2 initial).1 =
      [ to_excel "auctions.xlsx" {| columns := headers; data := rows |};
        to_csv "auctions.csv" {| columns := headers; data := rows |} ] ∧
    length rows = length scenario_entries ∧
    ∀ i e, scenario_entries !! i = Some e →
      ∃ cells,
        rows !! i =
          Some ([ VStr (e_name e); VInt (e_price e);
                  VStr (Profession.name (e_profession e));
                  VInt (e_level e) ] ++ cells) ∧
        length cells = 6%nat.
Proof.
  apply (main_exports scenario 2
           {| table_id := "sellCharList"; table_class := [];
              table_tbody := Some (entry_row <$> scenario_entries) |}
           scenario_entries scenario_pages).
  - vm_compute. reflexivity.
  - reflexivity.
  - exact scenario_entries_ok.
  - exact scenario_all_end.
Defined.

(** ** The sinks of the exporter *)

(** A path that is [None] or the empty string counts as not given.  With
    neither path given the exporter prints the frame, once, and writes no
    file; with a path given it prints nothing. *)
Theorem exporter_console (auctions : list Auction.t)
    (excel_file csv_file : option string) (st : State) :
  valid_auctions auctions st →
  ∃ rows,
    length rows = length auctions ∧
    ((excel_file = None ∨ excel_file = Some "") →
     (csv_file = None ∨ csv_file = Some "") →
     outputs (save_auctions_to auctions excel_file csv_file st).1
       = outputs st ++ [print {| columns := headers; data := rows |}]) ∧
    (((∃ f, excel_file = Some f ∧ f ≠ "") ∨
      (∃ f, csv_file = Some f ∧ f ≠ "")) →
     ∃ new,
       outputs (save_auctions_to auctions excel_file csv_file st).1
         = outputs st ++ new ∧
       ∀ df, print df ∉ new).
Proof.
  intros Hvalid.
  destruct (comprehension_map_auction_ok auctions st Hvalid) as [rows Hrows].
  destruct (comprehension_map_auction auctions st) as [_ Hshape].
  destruct (Hshape rows Hrows) as (Hlen & _ & _).
  exists rows. split; [done|].
  rewrite (save_auctions_to_eq _ _ _ _ rows Hrows). cbn [fst outputs].
  split.
  - by intros [->| ->] [->| ->].
  - intros Hgiven. eexists. split; [done|]. intros df Hdf.
    unfold sinks in Hdf.
    destruct excel_file as [[|c f]|], csv_file as [[|c' f']|];
      cbn in Hdf; set_unfold; naive_solver.
Qed.

Lemma exporter_console_witness :
  ∃ rows,
    length rows = length [Auction.mk 0 5000; Auction.mk 1 2000] ∧
    ((Some "" = None ∨ Some "" = Some "") →
     (@None string = None ∨ None = Some "") →
     outputs (save_auctions_to [Auction.mk 0 5000; Auction.mk 1 2000]
                (Some "") None collected).1
       = outputs collected
         ++ [print {| columns := headers; data := rows |}]) ∧
    (((∃ f, Some "" = Some f ∧ f ≠ "") ∨
      (∃ f, @None string = Some f ∧ f ≠ "")) →
     ∃ new,
       outputs (save_auctions_to [Auction.mk 0 5000; Auction.mk 1 2000]
                  (Some "") None collected).1
         = outputs collected ++ new ∧
       ∀ df, print df ∉ new).
Proof.
  apply (exporter_console [Auction.mk 0 5000; Auction.mk 1 2000] (Some "")
           None collected).
  repeat constructor; by eexists.
Defined.

(** ** The index *)

(** The index the enricher builds from valid references exists, and holds:
    for a skill, the names of the characters whose profession has the skill
    among its skills; for a name, the last character of the list with that
    name. *)
Theorem index_contents (characters : list loc) (st : State) :
  Forall (λ l, is_Some (heap st !! l)) characters →
  ∃ idx,
    index_of characters st = Ok idx ∧
    (∀ s nm,
       nm ∈ pending idx s ↔
       ∃ l c, l ∈ characters ∧ heap st !! l = Some c ∧
              Character.name c = nm ∧
              s ∈ default [] (Py.get PROFESSION_SKILL_MAP
                                (Character.profession c))) ∧
    (∀ nm, character_map idx !! nm
             = last (filter (λ l, Character.name <$> heap st !! l = Some nm)
                       characters)).
Proof.
  intros Hvalid.
  apply (build_index_valid characters empty_index st) in Hvalid
    as [idx Hidx].
  exists idx. split; [done|]. split.
  - intros s nm. by apply index_of_pending.
  - intros nm. by apply index_of_character_map.
Qed.

Lemma index_contents_witness :
  ∃ idx,
    index_of [0; 1]%nat twins = Ok idx ∧
    (∀ s nm,
       nm ∈ pending idx s ↔
       ∃ l c, l ∈ [0; 1]%nat ∧ heap twins !! l = Some c ∧
              Character.name c = nm ∧
              s ∈ default [] (Py.get PROFESSION_SKILL_MAP
                                (Character.profession c))) ∧
    (∀ nm, character_map idx !! nm
             = last (filter (λ l, Character.name <$> heap twins !! l = Some nm)
                       [0; 1]%nat)).
Proof.
  apply (index_contents [0; 1]%nat twins).
  repeat constructor; by eexists.
Defined.

(** ** The URLs of the leaderboard pages *)

Lemma sapp_inv_head (p a b : string) : p +:+ a = p +:+ b → a = b.
Proof. induction p as [|c p IH]; [done|]. intros [= H]. by apply IH. Qed.

Lemma str_inj (n m : Z) : Py.str n = Py.str m → n = m.
Proof.
  intros H. pose proof (int_str n) as Hn. rewrite H, int_str in Hn.
  by injection Hn.
Qed.

Lemma page_url_page (s : Skill.t) (url : string) (n m : Z) :
  Py.get SKILL_URL_MAP s = Some url →
  page_url url n = page_url url m → n = m.
Proof.
  intros Hurl. rewrite !(page_url_app s url) by done.
  intros H%sapp_inv_head. by apply str_inj.
Qed.

Lemma pages_NoDup (s : Skill.t) (url : string) (n : nat) :
  Py.get SKILL_URL_MAP s = Some url → NoDup (pages url n).
Proof.
  intros Hurl. unfold pages. apply NoDup_fmap_2_strong; [|apply NoDup_seq].
  intros k k' _ _ H. apply (page_url_page s url _ _ Hurl) in H. lia.
Qed.

Lemma skill_pages_NoDup (idx : Index) (N : Skill.t → nat)
    (items : list (Skill.t * string)) :
  items ⊆ SKILL_URL_MAP → NoDup items.*1 →
  NoDup (mjoin (skill_pages idx N <$> items)).
Proof.
  induction items as [|[s url] items IH]; intros Hsub Hnodup;
    [constructor|].
  assert (Py.get SKILL_URL_MAP s = Some url) as Hurl.
  { apply SKILL_URL_MAP_get, Hsub. by left. }
  assert (items ⊆ SKILL_URL_MAP) as Hsub'.
  { intros x Hx. apply Hsub. by right. }
  cbn [fmap list_fmap mjoin list_join] in *.
  apply NoDup_cons in Hnodup as [Hs Hnodup].
  apply NoDup_app. split; [|split; [|by apply IH]].
  - unfold skill_pages. cbn [fst snd].
    destruct (decide _); [constructor|by eapply pages_NoDup].
  - intros u Hu Hu'. unfold skill_pages in Hu. cbn [fst snd] in Hu.
    destruct (decide _); [by apply not_elem_of_nil in Hu|].
    apply list_elem_of_fmap in Hu as (k & -> & _).
    apply list_elem_of_join in Hu' as (us & Hus & Hin).
    apply list_elem_of_fmap in Hin as ([s' url'] & -> & Hin).
    unfold skill_pages in Hus. cbn [fst snd] in Hus.
    destruct (decide _); [by apply not_elem_of_nil in Hus|].
    apply list_elem_of_fmap in Hus as (k' & Heq & _).
    assert (s = s') as <-.
    { eapply page_url_skill; [done| |done].
      apply SKILL_URL_MAP_get, Hsub'. done. }
    apply Hs. apply list_elem_of_fmap. by exists (s, url').
Qed.

(** The pages of the leaderboards have URLs of their own: two pages have
    the same URL only when they are the same page of the same skill.  So
    the enricher, when the leaderboards end, fetches no URL twice. *)
Theorem no_page_fetched_twice (web : string → Page) (fuel : nat)
    (characters : list loc) (st : State) (idx : Index) (N : Skill.t → nat) :
  index_of characters st = Ok idx →
  leaderboards_end web idx N fuel →
  (∀ s s' url url' n m,
     Py.get SKILL_URL_MAP s = Some url →
     Py.get SKILL_URL_MAP s' = Some url' →
     page_url url n = page_url url' m → s = s' ∧ n = m) ∧
  ∃ new,
    history (browser (update_skills web fuel characters st).1)
      = history (browser st) ++ new ∧
    NoDup new.
Proof.
  intros Hidx Hend. split.
  - intros s s' url url' n m Hurl Hurl' Heq.
    assert (s = s') as <- by by eapply page_url_skill.
    split; [done|]. rewrite Hurl in Hurl'. injection Hurl' as <-.
    by eapply page_url_page.
  - destruct (update_skills_ok web fuel characters st idx N Hidx Hend)
      as [_ ->].
    eexists. split; [done|].
    apply skill_pages_NoDup; [done|apply SKILL_URL_MAP_NoDup].
Qed.

Lemma no_page_fetched_twice_witness :
  (∀ s s' url url' n m,
     Py.get SKILL_URL_MAP s = Some url →
     Py.get SKILL_URL_MAP s' = Some url' →
     page_url url n = page_url url' m → s = s' ∧ n = m) ∧
  ∃ new,
    history (browser (update_skills scenario 2 [0; 1]%nat collected).1)
      = history (browser collected) ++ new ∧
    NoDup new.
Proof.
  apply (no_page_fetched_twice scenario 2 [0; 1]%nat collected
           scenario_index scenario_pages).
  - exact scenario_index_of.
  - exact (scenario_leaderboards_end scenario_index).
Defined.

(** ** A leaderboard page without its table *)

(** When the first page the enricher visits holds no table of class
    [gunz-table], [find_highscores_rows] raises [NoSuchElementException]
    and the enricher ends with it, after that one fetch and without
    changing a character. *)
Theorem missing_leaderboard_table (web : string → Page) (fuel : nat)
    (characters : list loc) (st : State) (idx : Index) :
  index_of characters st = Ok idx →
  pending idx MAGIC ≠ ∅ →
  Forall (λ t, "gunz-table" ∉ table_class t)
    (web "https://www.ezodus.net/charts/highscores/magic/all/0") →
  update_skills web (S fuel) characters st =
  ({| heap := heap st;
      browser :=
        {| page := web "https://www.ezodus.net/charts/highscores/magic/all/0";
           history := history (browser st)
             ++ ["https://www.ezodus.net/charts/highscores/magic/all/0"];
           quitted := quitted (browser st) |};
      outputs := outputs st |}, Raise NoSuchElementException).
Proof.
  intros Hidx Hpending Hnone.
  assert (data_rows
            (web "https://www.ezodus.net/charts/highscores/magic/all/0")
          = Raise NoSuchElementException) as Hrows.
  { unfold data_rows, highscores_rows.
    replace (filter _ _) with (@nil Table); [done|].
    symmetry. induction Hnone as [|t p Ht _ IH]; [done|].
    by rewrite filter_cons_False. }
  rewrite update_skills_eq, Hidx.
  cbn [SKILL_URL_MAP for_each]. unfold bind at 1.
  rewrite scan_skill_eq.
  destruct (decide (pending idx MAGIC = ∅)); [done|].
  rewrite scan_pages_S.
  change (page_url _ 0)
    with "https://www.ezodus.net/charts/highscores/magic/all/0".
  by rewrite Hrows.
Qed.

Lemma missing_leaderboard_table_witness :
  update_skills (λ _, listing_page []) 1 [0; 1]%nat twins =
  ({| heap := heap twins;
      browser :=
        {| page := listing_page [];
           history := history (browser twins)
             ++ ["https://www.ezodus.net/charts/highscores/magic/all/0"];
           quitted := quitted (browser twins) |};
      outputs := outputs twins |}, Raise NoSuchElementException).
Proof.
  apply (missing_leaderboard_table (λ _, listing_page []) 0 [0; 1]%nat twins
           twins_index).
  - vm_compute. reflexivity.
  - apply (bool_decide_unpack _). vm_compute. exact I.
  - repeat constructor. cbn. set_solver.
Defined.

(** * The claims on leaderboards that do not end or do not parse *)

(** The fetches of the paging loop of one skill are pages of that skill. *)
Lemma scan_pages_own_pages (web : string → Page) (fuel : nat) (idx : Index)
    (skill : Skill.t) (url : string) (ctu : gset string) (n : Z)
    (st : State) :
  changes (λ _ _ _, True) (λ u, ∃ m, u = page_url url m) st
    (scan_pages web fuel idx skill url ctu n st).1.
Proof.
  revert n st. induction fuel as [|fuel IH]; intros n st;
    [apply changes_refl|].
  rewrite scan_pages_S.
  assert (changes (λ _ _ _, True) (λ u, ∃ m, u = page_url url m) st
            (browser_get web (page_url url n) st).1) as Hget.
  { apply browser_get_changes. by exists n. }
  destruct (data_rows (web (page_url url n))) as [rows| |]; [|done..].
  destruct (length rows =? 0)%nat; [done|].
  assert (changes (λ _ _ _, True) (λ u, ∃ m, u = page_url url m)
            (browser_get web (page_url url n) st).1
            (for_each rows (scan_row idx skill ctu)
               (browser_get web (page_url url n) st).1).1) as Hrows.
  { apply for_each_changes. intros row st' _. rewrite scan_row_eq.
    destruct (parse_row row) as [[nm v]| |]; [|apply changes_refl..].
    destruct (decide (nm ∈ ctu)); [|apply changes_refl].
    destruct (character_map idx !! nm); [|apply changes_refl].
    by apply store_skill_changes. }
  destruct (for_each rows _ _) as [st' [[]| |]]; cbn [fst] in *.
  - eapply changes_trans; [done|]. eapply changes_trans; [done|]. apply IH.
  - by eapply changes_trans.
  - by eapply changes_trans.
Qed.

(** A site on which the Sword leaderboard has one page with a data row and
    then a page without, and every other page has a data row: the Magic
    leaderboard does not end. *)
Definition magic_endless (url : string) : Page :=
  if decide (url = "https://www.ezodus.net/charts/highscores/sword/knight/0")
  then leaderboard_page [("Aria", "450")]
  else if decide
    (url = "https://www.ezodus.net/charts/highscores/sword/knight/1")
  then leaderboard_page []
  else leaderboard_page [("Bo", "300")].

Lemma magic_endless_magic (k : Z) :
  data_rows
    (magic_endless
       (page_url "https://www.ezodus.net/charts/highscores/magic/all/{page}"
          k))
  = Ok [[cell "1"; link "Bo"; cell "300"]].
Proof.
  rewrite (page_url_app MAGIC) by reflexivity.
  change (Py.replace "{page}" "" _)
    with "https://www.ezodus.net/charts/highscores/magic/all/".
  generalize (Py.str k). intros s. unfold magic_endless.
  destruct (decide _) as [Heq|_]; [discriminate Heq|].
  destruct (decide _) as [Heq|_]; [discriminate Heq|].
  reflexivity.
Qed.

(** C4 as stated fails: the claim is made skill by skill, but a skill is
    reached only when the leaderboards of the skills before it have ended.
    Here Sword has pending names and its leaderboard has one page with a
    data row followed by a page without, yet, Magic coming first and not
    ending, the enricher never returns and never fetches a Sword page. *)
Lemma pagination_per_skill_counterexample :
  index_of [0; 1]%nat twins = Ok twins_index ∧
  pending twins_index SWORD ≠ ∅ ∧
  ends_after magic_endless
    "https://www.ezodus.net/charts/highscores/sword/knight/{page}" 1 ∧
  ∀ fuel,
    (update_skills magic_endless fuel [0; 1]%nat twins).2 ≠ Ok tt ∧
    ∀ n,
      page_url "https://www.ezodus.net/charts/highscores/sword/knight/{page}"
        n
      ∉ history (browser (update_skills magic_endless fuel [0; 1]%nat
                            twins).1).
Proof.
  assert (index_of [0; 1]%nat twins = Ok twins_index) as Hidx.
  { vm_compute. reflexivity. }
  assert (pending twins_index MAGIC ≠ ∅) as Hmagic.
  { apply (bool_decide_unpack _). vm_compute. exact I. }
  split; [done|]. split; [apply (bool_decide_unpack _); vm_compute; exact I|].
  split.
  { split; [|vm_compute; reflexivity]. intros k Hk.
    assert (k = 0%nat) as -> by lia.
    exists [[cell "1"; link "Aria"; cell "450"]].
    split; [vm_compute; reflexivity|]. split; [discriminate|].
    constructor; [|constructor]. exists "Aria", 450. vm_compute. reflexivity. }
  intros fuel.
  pose proof (scan_pages_endless magic_endless fuel twins_index MAGIC
                "https://www.ezodus.net/charts/highscores/magic/all/{page}"
                (pending twins_index MAGIC) 0 twins) as Hnot.
  pose proof (scan_pages_own_pages magic_endless fuel twins_index MAGIC
                "https://www.ezodus.net/charts/highscores/magic/all/{page}"
                (pending twins_index MAGIC) 0 twins)
    as [_ _ _ _ (new & Hnew & Hpages)].
  destruct (scan_pages _ _ _ _ _ _ _ _) as [st1 r] eqn:Hscan.
  cbn [fst snd] in *.
  assert (r ≠ Ok tt) as Hr.
  { apply Hnot. intros k _. eexists. split; [apply magic_endless_magic|done]. }
  assert (∀ n,
            page_url
              "https://www.ezodus.net/charts/highscores/sword/knight/{page}" n
            ∉ history (browser st1)) as Hsword.
  { intros n Hin. rewrite Hnew in Hin. cbn in Hin.
    rewrite Forall_forall in Hpages.
    destruct (Hpages _ Hin) as [m Hm].
    by pose proof (page_url_skill SWORD MAGIC _ _ n m eq_refl eq_refl Hm). }
  assert (scan_skill magic_endless fuel twins_index
            (MAGIC,
             "https://www.ezodus.net/charts/highscores/magic/all/{page}")
            twins = (st1, r)) as Hskill.
  { rewrite scan_skill_eq.
    by destruct (decide (pending twins_index MAGIC = ∅)). }
  rewrite update_skills_eq, Hidx. cbn [SKILL_URL_MAP for_each].
  destruct r as [[]| |]; [by destruct Hr| |].
  - by rewrite (bind_Raise _ _ _ _ _ Hskill).
  - by rewrite (bind_Diverge _ _ _ _ Hskill).
Qed.

(** A site on which every leaderboard page has one data row, about Zed,
    whose value is not a number. *)
Definition zed_site (url : string) : Page :=
  [ {| table_id := ""; table_class := ["gunz-table"];
       table_tbody :=
         Some [ [cell "#"; cell "Name"; cell "Value"];
                [cell "1"; link "Zed"; cell "n/a"] ] |} ].

(** C6 as stated fails: that the character is on no data row of the
    leaderboard does not make enrichment complete.  Here Aria, a druid, is
    on no row of the Magic leaderboard, and the enricher raises
    [ValueError] on the row of Zed, whose value is not a number. *)
Lemma missing_skill_counterexample :
  heap twins !! 1%nat = Some (Character.mk "Aria" DRUID 30 ∅) ∧
  MAGIC ∈ applicable DRUID ∧
  ¬ on_leaderboard zed_site
      "https://www.ezodus.net/charts/highscores/magic/all/{page}" "Aria" ∧
  ∀ fuel,
    (update_skills zed_site (S fuel) [0; 1]%nat twins).2 = Raise ValueError.
Proof.
  split; [reflexivity|]. split; [by left|]. split.
  - intros (n & rows & row & [= <-] & Hrow & Hname).
    apply list_elem_of_singleton in Hrow as ->. discriminate.
  - intros fuel.
    assert (index_of [0; 1]%nat twins = Ok twins_index) as Hidx.
    { vm_compute. reflexivity. }
    assert (pending twins_index MAGIC ≠ ∅) as Hmagic.
    { apply (bool_decide_unpack _). vm_compute. exact I. }
    rewrite update_skills_eq, Hidx.
    cbn [SKILL_URL_MAP for_each]. unfold bind at 1.
    rewrite scan_skill_eq.
    destruct (decide (pending twins_index MAGIC = ∅)) as [He|_]; [done|].
    rewrite scan_pages_S.
    change (data_rows (zed_site _))
      with (Ok [[cell "1"; link "Zed"; cell "n/a"]]).
    cbn [length Nat.eqb for_each]. unfold bind at 1.
    rewrite scan_row_eq.
    change (parse_row [cell "1"; link "Zed"; cell "n/a"])
      with (@Raise (string * Z) ValueError).
    reflexivity.
Qed.
